(** * The R2 object-storage client of [@1focus/storage]

    A shallow embedding of [packages/storage/src/r2.ts]: the Signature V4
    signer ([signRequest]), the object operations of the service built by
    [makeR2Layer], the scanning of the XML list response, and the
    connection string ([parseR2Url], [toR2Url]).

    Conventions of the embedding.
    - A JavaScript string is a [string]: the bytes of its UTF-8 encoding.
      An [ArrayBuffer] is a [string] too, so [TextEncoder.encode] is the
      identity.  Strings with lone surrogates have no counterpart here.
    - A JavaScript [number] that holds a status code, a size or a time value
      is a [Z]; [NaN] is explicit where [parseInt] or [Date] can produce it.
    - A [Record<string, string>] is an association list in the engine's
      property order.
    - An [Effect] is a function of the world (the clock and the requests
      sent so far) whose result is a success, a typed failure or a defect.
    - What the engine provides and the file does not define (digests, the
      locale-free rendering of a date, number and JSON parsing, the parsing
      of URLs with a special scheme) is a field of [Runtime].
    - [putJson] and [deleteMany] are not embedded: the first needs
      [JSON.stringify], the second runs its deletions concurrently. *)

From Stdlib Require Import Bool List ZArith NArith Lia Ascii String DecimalString.
Import ListNotations.
Local Open Scope string_scope.

(** ** Strings *)

Module Str.

Fixpoint flat_map (f : ascii -> string) (s : string) : string :=
  match s with
  | EmptyString => EmptyString
  | String c r => f c ++ flat_map f r
  end.

Fixpoint map (f : ascii -> ascii) (s : string) : string :=
  match s with
  | EmptyString => EmptyString
  | String c r => String (f c) (map f r)
  end.

Fixpoint filter (p : ascii -> bool) (s : string) : string :=
  match s with
  | EmptyString => EmptyString
  | String c r => if p c then String c (filter p r) else filter p r
  end.

Fixpoint forallb (p : ascii -> bool) (s : string) : bool :=
  match s with
  | EmptyString => true
  | String c r => p c && forallb p r
  end.

Fixpoint existsb (p : ascii -> bool) (s : string) : bool :=
  match s with
  | EmptyString => false
  | String c r => p c || existsb p r
  end.

(** [break p s] cuts [s] in front of its first character satisfying [p]. *)
Fixpoint break (p : ascii -> bool) (s : string) : string * string :=
  match s with
  | EmptyString => (EmptyString, EmptyString)
  | String c r =>
      if p c then (EmptyString, s)
      else let (a, b) := break p r in (String c a, b)
  end.

Fixpoint drop_while (p : ascii -> bool) (s : string) : string :=
  match s with
  | EmptyString => EmptyString
  | String c r => if p c then drop_while p r else s
  end.

Fixpoint rev_append (s acc : string) : string :=
  match s with
  | EmptyString => acc
  | String c r => rev_append r (String c acc)
  end.

Definition rev (s : string) : string := rev_append s EmptyString.

Fixpoint drop (n : nat) (s : string) : string :=
  match n, s with
  | O, _ => s
  | S _, EmptyString => EmptyString
  | S m, String _ r => drop m r
  end.

Definition is_empty (s : string) : bool :=
  match s with EmptyString => true | _ => false end.

Definition starts_with (p s : string) : bool := String.prefix p s.

Definition ends_with (p s : string) : bool := String.prefix (rev p) (rev s).

(** [s.slice(0, -1)] *)
Definition drop_last (s : string) : string := rev (drop 1 (rev s)).

(** [hay.includes(needle)] *)
Fixpoint includes (needle hay : string) : bool :=
  String.prefix needle hay
  || match hay with
     | EmptyString => false
     | String _ r => includes needle r
     end.

(** The text before and after the first occurrence of [needle]. *)
Fixpoint cut (needle hay : string) : option (string * string) :=
  if String.prefix needle hay
  then Some (EmptyString, drop (String.length needle) hay)
  else match hay with
       | EmptyString => None
       | String c r =>
           match cut needle r with
           | Some (a, b) => Some (String c a, b)
           | None => None
           end
       end.

(** [s.split(sep)] for a separator of one character. *)
Fixpoint split (sep : ascii) (s : string) : list string :=
  match s with
  | EmptyString => [EmptyString]
  | String c r =>
      if Ascii.eqb c sep then EmptyString :: split sep r
      else match split sep r with
           | h :: t => String c h :: t
           | [] => [String c EmptyString]
           end
  end.

(** [parts.join(sep)] *)
Definition join (sep : string) (parts : list string) : string :=
  String.concat sep parts.

End Str.

(** ** Characters *)

Module Chr.

Definition code (c : ascii) : N := N_of_ascii c.

Definition between (lo hi : N) (c : ascii) : bool :=
  (lo <=? code c)%N && (code c <=? hi)%N.

Definition has_code (n : N) (c : ascii) : bool := (code c =? n)%N.

Definition one_of (l : list N) (c : ascii) : bool :=
  List.existsb (fun n => has_code n c) l.

Definition upper : ascii -> bool := between 65 90.
Definition lower : ascii -> bool := between 97 122.
Definition digit : ascii -> bool := between 48 57.
Definition alpha (c : ascii) : bool := upper c || lower c.
Definition alnum (c : ascii) : bool := alpha c || digit c.

Definition dquote : ascii := ascii_of_N 34.
Definition percent : ascii := ascii_of_N 37.

Definition to_lower (c : ascii) : ascii :=
  if upper c then ascii_of_N (code c + 32) else c.

(** Hexadecimal digits, upper case as percent-encoding writes them and
    lower case as [toString(16)] writes them. *)
Definition hex_upper (n : N) : ascii :=
  if (n <? 10)%N then ascii_of_N (48 + n) else ascii_of_N (55 + n).

Definition hex_lower (n : N) : ascii :=
  if (n <? 10)%N then ascii_of_N (48 + n) else ascii_of_N (87 + n).

Definition hex_value (c : ascii) : option N :=
  if digit c then Some (code c - 48)%N
  else if between 65 70 c then Some (code c - 55)%N
  else if between 97 102 c then Some (code c - 87)%N
  else None.

(** A property of characters checked on all 256 of them. *)
Definition forall_bool (P : bool -> bool) : bool := P true && P false.

Definition forall_ascii (P : ascii -> bool) : bool :=
  forall_bool (fun b0 => forall_bool (fun b1 =>
  forall_bool (fun b2 => forall_bool (fun b3 =>
  forall_bool (fun b4 => forall_bool (fun b5 =>
  forall_bool (fun b6 => forall_bool (fun b7 =>
    P (Ascii b0 b1 b2 b3 b4 b5 b6 b7))))))))).

End Chr.

(** ** Primitives of the language *)

Module JS.

(** [NaN] or an integer: what [parseInt] and a [Date]'s time value hold. *)
Inductive number : Type :=
| NaN
| Num (z : Z).

(** [String.prototype.toLowerCase], on the ASCII letters. *)
Definition toLowerCase (s : string) : string := Str.map Chr.to_lower s.

(** [String.prototype.trim], on the ASCII white space and line ends. *)
Definition is_space : ascii -> bool := Chr.one_of [9; 10; 11; 12; 13; 32]%N.

Definition trim (s : string) : string :=
  Str.rev (Str.drop_while is_space (Str.rev (Str.drop_while is_space s))).

(** [String(n)] for an integer [n]. *)
Definition String_of_Z (z : Z) : string :=
  DecimalString.NilZero.string_of_int (Z.to_int z).

(** A string is truthy when it is not empty. *)
Definition truthy (o : option string) : bool :=
  match o with
  | Some s => negb (Str.is_empty s)
  | None => false
  end.

(** [%XX] with upper-case digits. *)
Definition pct (c : ascii) : string :=
  String Chr.percent
    (String (Chr.hex_upper (Chr.code c / 16))
       (String (Chr.hex_upper (Chr.code c mod 16)) EmptyString)).

Definition percent_encode (encoded : ascii -> bool) (s : string) : string :=
  Str.flat_map (fun c => if encoded c then pct c else String c EmptyString) s.

(** The characters [encodeURIComponent] leaves alone:
    letters, digits and [- _ . ! ~ * ' ( )]. *)
Definition uri_unreserved (c : ascii) : bool :=
  Chr.alnum c || Chr.one_of [45; 95; 46; 33; 126; 42; 39; 40; 41]%N c.

Definition encodeURIComponent (s : string) : string :=
  percent_encode (fun c => negb (uri_unreserved c)) s.

(** [decodeURIComponent]: [None] is the [URIError] thrown at a [%] that
    two hexadecimal digits do not follow. *)
Fixpoint decodeURIComponent (s : string) : option string :=
  match s with
  | EmptyString => Some EmptyString
  | String c r =>
      if Chr.has_code 37 c then
        match r with
        | String h (String l r') =>
            match Chr.hex_value h, Chr.hex_value l with
            | Some a, Some b =>
                option_map (String (ascii_of_N (16 * a + b)))
                           (decodeURIComponent r')
            | _, _ => None
            end
        | _ => None
        end
      else option_map (String c) (decodeURIComponent r)
  end.

(** *** Objects used as string maps *)

Definition Obj : Type := list (string * string).

Fixpoint obj_get (o : Obj) (k : string) : option string :=
  match o with
  | [] => None
  | (k', v) :: t => if String.eqb k' k then Some v else obj_get t k
  end.

Fixpoint digits_value (s : string) (acc : N) : N :=
  match s with
  | EmptyString => acc
  | String c r => digits_value r (10 * acc + (Chr.code c - 48))%N
  end.

(** A key is an array index when it is the canonical decimal form of an
    integer below [2^32 - 1]; such keys are enumerated first, ascending. *)
Definition array_index (k : string) : option N :=
  match k with
  | EmptyString => None
  | String c r =>
      if Str.forallb Chr.digit k && (negb (Chr.has_code 48 c) || Str.is_empty r)
      then let n := digits_value k 0 in
           if (n <=? 4294967294)%N then Some n else None
      else None
  end.

Fixpoint obj_replace (o : Obj) (k v : string) : Obj :=
  match o with
  | [] => []
  | (k', v') :: t =>
      if String.eqb k' k then (k', v) :: t else (k', v') :: obj_replace t k v
  end.

Fixpoint obj_insert_index (n : N) (o : Obj) (k v : string) : Obj :=
  match o with
  | [] => [(k, v)]
  | (k', v') :: t =>
      match array_index k' with
      | Some m =>
          if (m <? n)%N then (k', v') :: obj_insert_index n t k v
          else (k, v) :: o
      | None => (k, v) :: o
      end
  end.

(** [o[k] = v] *)
Definition obj_set (o : Obj) (k v : string) : Obj :=
  match obj_get o k with
  | Some _ => obj_replace o k v
  | None =>
      match array_index k with
      | Some n => obj_insert_index n o k v
      | None => (o ++ [(k, v)])%list
      end
  end.

Definition Object_entries (o : Obj) : list (string * string) := o.
Definition Object_keys (o : Obj) : list string := List.map fst o.

(** [{ ...o, k1: v1, ..., kn: vn }] *)
Definition spread (o : Obj) (more : list (string * string)) : Obj :=
  fold_left (fun acc kv => obj_set acc (fst kv) (snd kv)) more o.

(** [keys.sort()]: ascending order of the code units, by insertion. *)
Fixpoint sort_insert (k : string) (l : list string) : list string :=
  match l with
  | [] => [k]
  | h :: t => if String.leb k h then k :: l else h :: sort_insert k t
  end.

Definition sort (l : list string) : list string :=
  fold_right sort_insert [] l.

End JS.

(** ** The URL Standard, as far as the file reaches it *)

Module Whatwg.

Import JS.

(** *** Percent-encode sets *)

Definition c0_control_set (c : ascii) : bool :=
  (Chr.code c <? 32)%N || (126 <? Chr.code c)%N.
Definition fragment_set (c : ascii) : bool :=
  c0_control_set c || Chr.one_of [32; 34; 60; 62; 96]%N c.
Definition query_set (c : ascii) : bool :=
  c0_control_set c || Chr.one_of [32; 34; 35; 60; 62]%N c.
Definition path_set (c : ascii) : bool :=
  query_set c || Chr.one_of [63; 94; 96; 123; 125]%N c.
Definition userinfo_set (c : ascii) : bool :=
  path_set c || Chr.one_of [47; 58; 59; 61; 64; 91; 92; 93; 124]%N c.
Definition component_set (c : ascii) : bool :=
  userinfo_set c || Chr.one_of [36; 37; 38; 43; 44]%N c.
Definition urlencoded_set (c : ascii) : bool :=
  component_set c || Chr.one_of [33; 39; 40; 41; 126]%N c.

Definition forbidden_host (c : ascii) : bool :=
  Chr.one_of [0; 9; 10; 13; 32; 35; 47; 58; 60; 62; 63; 64;
              91; 92; 93; 94; 124]%N c.

(** Percent-decoding that leaves a stray [%] in place. *)
Fixpoint percent_decode (s : string) : string :=
  match s with
  | EmptyString => EmptyString
  | String c r =>
      if Chr.has_code 37 c then
        match r with
        | String h (String l r') =>
            match Chr.hex_value h, Chr.hex_value l with
            | Some a, Some b =>
                String (ascii_of_N (16 * a + b)) (percent_decode r')
            | _, _ => String c (percent_decode r)
            end
        | _ => String c (percent_decode r)
        end
      else String c (percent_decode r)
  end.

(** *** URL records *)

Inductive Path : Type :=
| Opaque (s : string)
| Segments (l : list string).

Record URL : Type := mkURL {
  scheme : string;
  username : string;
  password : string;
  host : option string;
  port : option N;
  path : Path;
  query : option string;
  fragment : option string
}.

Definition special_schemes : list string :=
  ["ftp"; "file"; "http"; "https"; "ws"; "wss"].

Definition is_special (s : string) : bool :=
  List.existsb (String.eqb s) special_schemes.

(** *** Getters and the serializer *)

Definition protocol (u : URL) : string := scheme u ++ ":".

Definition hostname (u : URL) : string :=
  match host u with Some h => h | None => EmptyString end.

Definition port_suffix (u : URL) : string :=
  match port u with
  | Some p => ":" ++ String_of_Z (Z.of_N p)
  | None => EmptyString
  end.

Definition host_and_port (u : URL) : string := hostname u ++ port_suffix u.

Definition pathname (u : URL) : string :=
  match path u with
  | Opaque s => s
  | Segments l => String.concat EmptyString (List.map (fun s => "/" ++ s) l)
  end.

Definition search (u : URL) : string :=
  match query u with
  | Some q => if Str.is_empty q then EmptyString else "?" ++ q
  | None => EmptyString
  end.

Definition includes_credentials (u : URL) : bool :=
  negb (Str.is_empty (username u)) || negb (Str.is_empty (password u)).

Definition toString (u : URL) : string :=
  scheme u ++ ":"
  ++ match host u with
     | Some h =>
         "//"
         ++ (if includes_credentials u
             then username u
                  ++ (if Str.is_empty (password u) then EmptyString
                      else ":" ++ password u)
                  ++ "@"
             else EmptyString)
         ++ h ++ port_suffix u
     | None =>
         match path u with
         | Segments (EmptyString :: _ :: _) => "/."
         | _ => EmptyString
         end
     end
  ++ pathname u
  ++ match query u with Some q => "?" ++ q | None => EmptyString end
  ++ match fragment u with Some f => "#" ++ f | None => EmptyString end.

(** *** Setters *)

Definition cannot_have_credentials (u : URL) : bool :=
  match host u with
  | None => true
  | Some h => Str.is_empty h || String.eqb (scheme u) "file"
  end.

Definition set_username (u : URL) (v : string) : URL :=
  if cannot_have_credentials u then u
  else mkURL (scheme u) (percent_encode userinfo_set v) (password u)
             (host u) (port u) (path u) (query u) (fragment u).

Definition set_password (u : URL) (v : string) : URL :=
  if cannot_have_credentials u then u
  else mkURL (scheme u) (username u) (percent_encode userinfo_set v)
             (host u) (port u) (path u) (query u) (fragment u).

(** *** URLSearchParams *)

Definition Params : Type := list (string * string).

Definition plus_to_space (c : ascii) : ascii :=
  if Chr.has_code 43 c then ascii_of_N 32 else c.

Definition form_decode (s : string) : string :=
  percent_decode (Str.map plus_to_space s).

Definition form_encode (s : string) : string :=
  Str.flat_map
    (fun c => if Chr.has_code 32 c then "+"
              else if urlencoded_set c then pct c
              else String c EmptyString) s.

Definition parse_pair (seq : string) : list (string * string) :=
  if Str.is_empty seq then []
  else let (n, v) := Str.break (Chr.has_code 61) seq in
       [(form_decode n, form_decode (Str.drop 1 v))].

Definition parse_urlencoded (q : string) : Params :=
  List.flat_map parse_pair (Str.split (ascii_of_N 38) q).

Definition serialize_urlencoded (l : Params) : string :=
  Str.join "&"
    (List.map (fun nv => form_encode (fst nv) ++ "=" ++ form_encode (snd nv)) l).

Definition params_get (l : Params) (name : string) : option string :=
  obj_get l name.

Definition params_has (l : Params) (name : string) : bool :=
  List.existsb (fun nv => String.eqb (fst nv) name) l.

Fixpoint params_replace (l : Params) (name value : string) : Params :=
  match l with
  | [] => []
  | (n, v) :: t =>
      if String.eqb n name
      then (n, value)
           :: List.filter (fun nv => negb (String.eqb (fst nv) name)) t
      else (n, v) :: params_replace t name value
  end.

Definition params_set (l : Params) (name value : string) : Params :=
  if params_has l name then params_replace l name value
  else (l ++ [(name, value)])%list.

(** [new URLSearchParams().toString()] and [url.searchParams] *)
Definition searchParams (u : URL) : Params :=
  parse_urlencoded (match query u with Some q => q | None => EmptyString end).

Definition searchParams_set (u : URL) (name value : string) : URL :=
  let q := serialize_urlencoded (params_set (searchParams u) name value) in
  mkURL (scheme u) (username u) (password u) (host u) (port u) (path u)
        (if Str.is_empty q then None else Some q) (fragment u).

(** *** The basic URL parser, without a base URL

    The input is stripped and scanned for its scheme.  A special scheme
    ([http], [https], ...) hands over to [special_url], which stands for
    the standard's treatment of such URLs (domain names, IPv4, default
    ports); an IPv6 literal in brackets hands over to [ipv6_host]. *)

Section Parser.

Variable special_url : string -> string -> option URL.
Variable ipv6_host : string -> option string.

Definition c0_or_space (c : ascii) : bool := (Chr.code c <=? 32)%N.
Definition tab_or_newline : ascii -> bool := Chr.one_of [9; 10; 13]%N.

Definition preprocess (input : string) : string :=
  Str.filter (fun c => negb (tab_or_newline c))
    (Str.rev (Str.drop_while c0_or_space
                (Str.rev (Str.drop_while c0_or_space input)))).

Definition scheme_char (c : ascii) : bool :=
  Chr.alnum c || Chr.one_of [43; 45; 46]%N c.

(** The scheme and what follows its colon. *)
Definition parse_scheme (s : string) : option (string * string) :=
  match s with
  | EmptyString => None
  | String c _ =>
      if Chr.alpha c then
        match Str.break (fun c => negb (scheme_char c)) s with
        | (sch, String d rest) =>
            if Chr.has_code 58 d then Some (toLowerCase sch, rest) else None
        | (_, EmptyString) => None
        end
      else None
  end.

Definition authority_end : ascii -> bool := Chr.one_of [47; 63; 35]%N.
Definition path_end : ascii -> bool := Chr.one_of [63; 35]%N.

(** The text before and after the last [@]. *)
Fixpoint split_last_at (s : string) : option (string * string) :=
  match s with
  | EmptyString => None
  | String c r =>
      match split_last_at r with
      | Some (a, b) => Some (String c a, b)
      | None => if Chr.has_code 64 c then Some (EmptyString, r) else None
      end
  end.

(** The host and, after the first colon outside brackets, the port. *)
Fixpoint split_host_port (inside : bool) (s : string)
  : string * option string :=
  match s with
  | EmptyString => (EmptyString, None)
  | String c r =>
      if Chr.has_code 58 c && negb inside then (EmptyString, Some r)
      else
        let inside' :=
          if Chr.has_code 91 c then true
          else if Chr.has_code 93 c then false
          else inside in
        let (h, p) := split_host_port inside' r in
        (String c h, p)
  end.

Definition parse_opaque_host (h : string) : option string :=
  match h with
  | EmptyString => Some EmptyString
  | String c r =>
      if Chr.has_code 91 c then
        if Str.ends_with "]" h then ipv6_host (Str.drop_last r) else None
      else if Str.existsb forbidden_host h then None
      else Some (percent_encode c0_control_set h)
  end.

(** [Some None] is the absent port, [None] the failure. *)
Definition parse_port (p : string) : option (option N) :=
  if Str.forallb Chr.digit p then
    if Str.is_empty p then Some None
    else let n := digits_value p 0 in
         if (n <=? 65535)%N then Some (Some n) else None
  else None.

Definition is_single_dot (buf : string) : bool :=
  String.eqb buf "." || String.eqb (toLowerCase buf) "%2e".

Definition is_double_dot (buf : string) : bool :=
  let b := toLowerCase buf in
  String.eqb b ".." || String.eqb b ".%2e"
  || String.eqb b "%2e." || String.eqb b "%2e%2e".

(** The path state, one segment at a time; the last segment is the one
    that the end of the path closes instead of a slash. *)
Fixpoint build_path (segs acc : list string) : list string :=
  match segs with
  | [] => acc
  | seg :: rest =>
      let last := match rest with [] => true | _ => false end in
      let buf := percent_encode path_set seg in
      build_path rest
        (if is_double_dot buf then
           if last then (removelast acc ++ [EmptyString])%list
           else removelast acc
         else if is_single_dot buf then
           if last then (acc ++ [EmptyString])%list else acc
         else (acc ++ [buf])%list)
  end.

(** The path that starts after its leading slash. *)
Definition parse_path (s : string) : Path :=
  Segments (build_path (Str.split (ascii_of_N 47) s) []).

Definition parse_query (tail : string) : option string :=
  match tail with
  | String c r =>
      if Chr.has_code 63 c
      then Some (percent_encode query_set (fst (Str.break (Chr.has_code 35) r)))
      else None
  | EmptyString => None
  end.

Definition parse_fragment (tail : string) : option string :=
  match snd (Str.break (Chr.has_code 35) tail) with
  | String _ f => Some (percent_encode fragment_set f)
  | EmptyString => None
  end.

(** The authority state and the host and port states after it. *)
Definition parse_authority (auth : string)
  : option (string * string * option string * option N) :=
  let '(credentials, hostport) :=
    match split_last_at auth with
    | Some (c, h) => (Some c, h)
    | None => (None, auth)
    end in
  let '(user, pass) :=
    match credentials with
    | Some c =>
        let (u, p) := Str.break (Chr.has_code 58) c in
        (percent_encode userinfo_set u,
         percent_encode userinfo_set (Str.drop 1 p))
    | None => (EmptyString, EmptyString)
    end in
  match credentials, hostport with
  | Some _, EmptyString => None
  | _, _ =>
      match split_host_port false hostport with
      | (h, Some p) =>
          if Str.is_empty h then None
          else match parse_opaque_host h, parse_port p with
               | Some h', Some p' => Some (user, pass, Some h', p')
               | _, _ => None
               end
      | (h, None) =>
          match parse_opaque_host h with
          | Some h' => Some (user, pass, Some h', None)
          | None => None
          end
      end
  end.

(** What follows the colon of a scheme that is not special. *)
Definition parse_after_scheme (sch rest : string) : option URL :=
  if Str.starts_with "//" rest then
    let (auth, tail) := Str.break authority_end (Str.drop 2 rest) in
    match parse_authority auth with
    | Some (user, pass, h, p) =>
        let (pth, tail') :=
          match tail with
          | String c r =>
              if Chr.has_code 47 c then
                let (a, b) := Str.break path_end r in (parse_path a, b)
              else (Segments [], tail)
          | EmptyString => (Segments [], EmptyString)
          end in
        Some (mkURL sch user pass h p pth
                    (parse_query tail') (parse_fragment tail'))
    | None => None
    end
  else if Str.starts_with "/" rest then
    let (a, tail) := Str.break path_end (Str.drop 1 rest) in
    Some (mkURL sch EmptyString EmptyString None None (parse_path a)
                (parse_query tail) (parse_fragment tail))
  else
    let (a, tail) := Str.break path_end rest in
    Some (mkURL sch EmptyString EmptyString None None
                (Opaque (percent_encode c0_control_set a))
                (parse_query tail) (parse_fragment tail)).

(** [new URL(input)]; [None] is the [TypeError] it throws. *)
Definition new_URL (input : string) : option URL :=
  match parse_scheme (preprocess input) with
  | Some (sch, rest) =>
      if is_special sch then special_url sch rest
      else parse_after_scheme sch rest
  | None => None
  end.

End Parser.

End Whatwg.

(** ** What the engine provides *)

Record Runtime : Type := {
  (** [crypto.subtle.digest("SHA-256", data)] *)
  digest_sha256 : string -> string;
  (** [crypto.subtle.sign("HMAC", key, message)] for the imported raw key *)
  sign_hmac_sha256 : string -> string -> string;
  (** [Date.prototype.toISOString] of a time value *)
  toISOString : Z -> string;
  (** the time value of [new Date(text)] *)
  Date_parse : string -> JS.number;
  (** [parseInt(text, 10)] *)
  parseInt10 : string -> JS.number;
  (** [JSON.parse]; [None] is the [SyntaxError] it throws *)
  JSONValue : Type;
  JSON_parse : string -> option JSONValue;
  (** the URL parser on special schemes and on IPv6 literals *)
  special_url : string -> string -> option Whatwg.URL;
  ipv6_host : string -> option string
}.

Definition new_URL (rt : Runtime) : string -> option Whatwg.URL :=
  Whatwg.new_URL (special_url rt) (ipv6_host rt).

(** [new TextDecoder().decode(buffer)]: a leading byte order mark is
    dropped. *)
Definition TextDecoder_decode (buffer : string) : string :=
  if Str.starts_with
       (String (ascii_of_N 239) (String (ascii_of_N 187)
          (String (ascii_of_N 191) EmptyString))) buffer
  then Str.drop 3 buffer else buffer.

(** ** Exceptions, HTTP messages and effects *)

Inductive Exception : Type :=
| TypeError (message : string)
| SyntaxError (message : string)
| URIError (message : string)
| Error (message : string).

(** The outcome of a function that may throw. *)
Inductive Exc (A : Type) : Type :=
| Returned (a : A)
| Thrown (e : Exception).
Arguments Returned {A} a.
Arguments Thrown {A} e.

(** The outcome of a transport call or of reading a body; an error is kept
    as the text [String(e)] gives. *)
Inductive Attempt (A : Type) : Type :=
| Ok (a : A)
| Err (rendered : string).
Arguments Ok {A} a.
Arguments Err {A} rendered.

Module Http.

Record Request : Type := mkRequest {
  method : string;
  url : string;
  headers : JS.Obj;
  (** the bytes and the content type given to [bodyUint8Array] *)
  body : option (string * string)
}.

(** Header names of a response are in lower case. *)
Record Response : Type := mkResponse {
  status : Z;
  response_headers : JS.Obj;
  text : Attempt string;
  arrayBuffer : Attempt string
}.

(** A transport answers a request knowing the requests before it. *)
Definition Client : Type := list Request -> Request -> Attempt Response.

End Http.

Module Effect.

Inductive Exit (E A : Type) : Type :=
| Success (a : A)
| Failure (e : E)
| Die (defect : Exception).
Arguments Success {E A} a.
Arguments Failure {E A} e.
Arguments Die {E A} defect.

(** The clock gives the time value of the n-th [new Date()]. *)
Record World : Type := mkWorld {
  clock : nat -> Z;
  ticks : nat;
  sent : list Http.Request
}.

Definition t (E A : Type) : Type := World -> Exit E A * World.

Definition succeed {E A} (a : A) : t E A := fun w => (Success a, w).
Definition fail {E A} (e : E) : t E A := fun w => (Failure e, w).
Definition die {E A} (d : Exception) : t E A := fun w => (Die d, w).

Definition flatMap {E A B} (m : t E A) (k : A -> t E B) : t E B :=
  fun w =>
    match m w with
    | (Success a, w') => k a w'
    | (Failure e, w') => (Failure e, w')
    | (Die d, w') => (Die d, w')
    end.

Definition map {E A B} (f : A -> B) (m : t E A) : t E B :=
  flatMap m (fun a => succeed (f a)).

Definition mapError {E E' A} (f : E -> E') (m : t E A) : t E' A :=
  fun w =>
    match m w with
    | (Success a, w') => (Success a, w')
    | (Failure e, w') => (Failure (f e), w')
    | (Die d, w') => (Die d, w')
    end.

Definition orElse {E E' A} (m : t E A) (that : t E' A) : t E' A :=
  fun w =>
    match m w with
    | (Success a, w') => (Success a, w')
    | (Failure _, w') => that w'
    | (Die d, w') => (Die d, w')
    end.

(** [Effect.promise]: a promise has no typed failure, its rejection is a
    defect. *)
Definition promise {E A} (p : t Empty_set A) : t E A :=
  mapError (fun e : Empty_set => match e with end) p.

Definition of_attempt {A} (a : Attempt A) : t string A :=
  match a with
  | Ok x => succeed x
  | Err e => fail e
  end.

(** The world after a reading of the clock, and after a request. *)
Definition tick (w : World) : World :=
  mkWorld (clock w) (S (ticks w)) (sent w).

Definition log (w : World) (req : Http.Request) : World :=
  mkWorld (clock w) (ticks w) (sent w ++ [req])%list.

(** [new Date()] *)
Definition new_Date {E} : t E Z :=
  fun w => (Success (clock w (ticks w)), tick w).

(** [httpClient.execute(request)] *)
Definition execute (client : Http.Client) (req : Http.Request)
  : t string Http.Response :=
  fun w =>
    match client (sent w) req with
    | Ok r => (Success r, log w req)
    | Err e => (Failure e, log w req)
    end.

Fixpoint forEach {E A B} (f : A -> t E B) (l : list A) : t E (list B) :=
  match l with
  | [] => succeed []
  | a :: r =>
      flatMap (f a) (fun b => flatMap (forEach f r) (fun bs => succeed (b :: bs)))
  end.

End Effect.

Notation "x <- m ;; k" := (Effect.flatMap m (fun x => k))
  (at level 61, m at next level, right associativity).

(** ** Errors and types of the service *)

Inductive R2Failure : Type :=
| R2Error (operation message : string) (status : option Z)
| R2NotFoundError (bucket key : string).

(** [Effect.catchTag("R2NotFoundError", handler)] *)
Definition catchTag_R2NotFoundError {A}
  (handler : string -> string -> Effect.t R2Failure A)
  (m : Effect.t R2Failure A) : Effect.t R2Failure A :=
  fun w =>
    match m w with
    | (Effect.Failure (R2NotFoundError b k), w') => handler b k w'
    | r => r
    end.

Module R2Config.
Record t : Type := make {
  accountId : string;
  accessKeyId : string;
  secretAccessKey : string;
  bucket : string;
  publicUrl : option string
}.
End R2Config.

Module HttpMetadata.
Record t : Type := make {
  contentType : option string;
  contentLanguage : option string;
  contentDisposition : option string;
  contentEncoding : option string;
  cacheControl : option string
}.
End HttpMetadata.

Module R2Object.
Record t : Type := make {
  key : string;
  size : JS.number;
  etag : string;
  lastModified : JS.number;
  url : option string;
  httpMetadata : option HttpMetadata.t;
  customMetadata : option JS.Obj
}.
End R2Object.

Module R2ListResult.
Record t : Type := make {
  objects : list R2Object.t;
  truncated : bool;
  cursor : option string;
  delimitedPrefixes : list string
}.
End R2ListResult.

Module R2PutOptions.
Record t : Type := make {
  contentType : option string;
  contentDisposition : option string;
  cacheControl : option string;
  customMetadata : option JS.Obj
}.
Definition none : t := make None None None None.
End R2PutOptions.

Module R2ListOptions.
Record t : Type := make {
  prefix : option string;
  delimiter : option string;
  cursor : option string;
  limit : option Z
}.
End R2ListOptions.

(** The body given to [put]: a string, an [ArrayBuffer], or a [Uint8Array]
    that views [byteLength] bytes of [buffer] from [byteOffset]. *)
Inductive PutBody : Type :=
| BodyString (s : string)
| BodyArrayBuffer (buffer : string)
| BodyUint8Array (buffer : string) (byteOffset byteLength : nat).

Record SignedRequest : Type := mkSignedRequest {
  signed_url : string;
  signed_headers : JS.Obj
}.

(** ** AWS Signature V4 *)

Definition newline : string := String (ascii_of_N 10) EmptyString.

Section Signer.

Variable rt : Runtime.

Definition hmacSha256 (key message : string) : string :=
  sign_hmac_sha256 rt key message.

(** Two lower-case hexadecimal digits for each byte. *)
Definition toHex (buffer : string) : string :=
  Str.flat_map
    (fun b => String (Chr.hex_lower (Chr.code b / 16))
                (String (Chr.hex_lower (Chr.code b mod 16)) EmptyString))
    buffer.

Definition sha256 (message : string) : string :=
  toHex (digest_sha256 rt message).

Definition getSignatureKey (secretKey dateStamp region service : string)
  : string :=
  let kDate := hmacSha256 ("AWS4" ++ secretKey) dateStamp in
  let kRegion := hmacSha256 kDate region in
  let kService := hmacSha256 kRegion service in
  hmacSha256 kService "aws4_request".

(** The [replace] that deletes every colon, every hyphen and every dot
    followed by three digits. *)
Fixpoint strip_date_punctuation (s : string) : string :=
  match s with
  | EmptyString => EmptyString
  | String c r =>
      if Chr.one_of [58; 45]%N c then strip_date_punctuation r
      else if Chr.has_code 46 c then
        match r with
        | String d1 (String d2 (String d3 r')) =>
            if Chr.digit d1 && Chr.digit d2 && Chr.digit d3
            then strip_date_punctuation r'
            else String c (strip_date_punctuation r)
        | _ => String c (strip_date_punctuation r)
        end
      else String c (strip_date_punctuation r)
  end.

(** The value a template literal shows for [signedHeaders[k]?.trim()]. *)
Definition trimmed_value (o : JS.Obj) (k : string) : string :=
  match JS.obj_get o k with
  | Some v => JS.trim v
  | None => "undefined"
  end.

(** The headers under lower-case names, later entries winning. *)
Definition normalizedHeaders (headers : JS.Obj) : JS.Obj :=
  fold_left (fun acc kv => JS.obj_set acc (JS.toLowerCase (fst kv)) (snd kv))
            (JS.Object_entries headers) [].

Definition signRequest
  (method url : string) (headers : JS.Obj) (body : string)
  (accessKeyId secretAccessKey region : string)
  : Effect.t Empty_set SignedRequest :=
  match new_URL rt url with
  | None => Effect.die (TypeError "Invalid URL")
  | Some parsedUrl =>
      let service := "s3" in
      now <- Effect.new_Date ;;
      let amzDate := strip_date_punctuation (toISOString rt now) in
      let dateStamp := String.substring 0 8 amzDate in
      let payloadHash := sha256 body in
      let signedHeaders :=
        JS.spread (normalizedHeaders headers)
          [("host", Whatwg.host_and_port parsedUrl);
           ("x-amz-date", amzDate);
           ("x-amz-content-sha256", payloadHash)] in
      let sortedHeaderKeys := JS.sort (JS.Object_keys signedHeaders) in
      let canonicalHeaders :=
        Str.join newline
          (List.map (fun k => k ++ ":" ++ trimmed_value signedHeaders k)
                    sortedHeaderKeys) in
      let signedHeadersStr := Str.join ";" sortedHeaderKeys in
      let canonicalUri := Whatwg.pathname parsedUrl in
      let canonicalQuerystring := Str.drop 1 (Whatwg.search parsedUrl) in
      let canonicalRequest :=
        Str.join newline
          [method; canonicalUri; canonicalQuerystring;
           canonicalHeaders ++ newline; signedHeadersStr; payloadHash] in
      let credentialScope :=
        dateStamp ++ "/" ++ region ++ "/" ++ service ++ "/aws4_request" in
      let stringToSign :=
        Str.join newline
          ["AWS4-HMAC-SHA256"; amzDate; credentialScope;
           sha256 canonicalRequest] in
      let signingKey :=
        getSignatureKey secretAccessKey dateStamp region service in
      let signature := toHex (hmacSha256 signingKey stringToSign) in
      let authorizationHeader :=
        "AWS4-HMAC-SHA256 Credential=" ++ accessKeyId ++ "/" ++ credentialScope
        ++ ", SignedHeaders=" ++ signedHeadersStr
        ++ ", Signature=" ++ signature in
      Effect.succeed
        (mkSignedRequest url
           (JS.spread signedHeaders [("Authorization", authorizationHeader)]))
  end.

End Signer.

(** ** The service built by [makeR2Layer] *)

(** The scanning of the list response. *)

(** One match, at the head of [text], of the pattern that [getTag] builds:
    the opening tag, a longest run of characters other than [<], the closing
    tag.  The result is the captured run and the text after the match. *)
Definition match_tag_here (tag text : string) : option (string * string) :=
  let opening := "<" ++ tag ++ ">" in
  let closing := "</" ++ tag ++ ">" in
  if String.prefix opening text then
    let (captured, rest) :=
      Str.break (Chr.has_code 60) (Str.drop (String.length opening) text) in
    if String.prefix closing rest
    then Some (captured, Str.drop (String.length closing) rest)
    else None
  else None.

Fixpoint getTag (tag text : string) : option string :=
  match match_tag_here tag text with
  | Some (captured, _) => Some captured
  | None =>
      match text with
      | EmptyString => None
      | String _ r => getTag tag r
      end
  end.

(** The loop of [regex.exec] with the [g] flag: [skip] counts the
    characters of the last match that are still to be passed over. *)
Fixpoint getAllTags_from (tag : string) (skip : nat) (text : string)
  : list string :=
  match text with
  | EmptyString => []
  | String _ r =>
      match skip with
      | S n => getAllTags_from tag n r
      | O =>
          match match_tag_here tag text with
          | Some (captured, rest) =>
              ((if Str.is_empty captured then [] else [captured])
               ++ getAllTags_from tag
                    (String.length text - String.length rest - 1) r)%list
          | None => getAllTags_from tag 0 r
          end
      end
  end.

Definition getAllTags (tag text : string) : list string :=
  getAllTags_from tag 0 text.

(** One match, at the head of [text], of a [<Contents>] block: the shortest
    text up to a closing [</Contents>]. *)
Definition match_contents_here (text : string) : option (string * string) :=
  if String.prefix "<Contents>" text
  then Str.cut "</Contents>" (Str.drop 10 text)
  else None.

Fixpoint contents_from (skip : nat) (text : string) : list string :=
  match text with
  | EmptyString => []
  | String _ r =>
      match skip with
      | S n => contents_from n r
      | O =>
          match match_contents_here text with
          | Some (content, rest) =>
              content
              :: contents_from (String.length text - String.length rest - 1) r
          | None => contents_from 0 r
          end
      end
  end.

Module R2.

Section Service.

Variable rt : Runtime.
Variable config : R2Config.t.
Variable httpClient : Http.Client.

Definition baseUrl : string :=
  "https://" ++ R2Config.accountId config ++ ".r2.cloudflarestorage.com/"
  ++ R2Config.bucket config.

Definition region : string := "auto".

Definition encodeKey (key : string) : string :=
  Str.join "/" (List.map JS.encodeURIComponent (Str.split "/" key)).

(** The URL of an object. *)
Definition object_url (key : string) : string :=
  baseUrl ++ "/" ++ encodeKey key.

Definition getPublicUrl (key : string) : option string :=
  match R2Config.publicUrl config with
  | None => None
  | Some publicUrl =>
      if Str.is_empty publicUrl then None
      else
        let base :=
          if Str.ends_with "/" publicUrl then Str.drop_last publicUrl
          else publicUrl in
        Some (base ++ "/" ++ key)
  end.

Definition doSignRequest {E} (method url body : string) (extraHeaders : JS.Obj)
  : Effect.t E SignedRequest :=
  Effect.promise
    (signRequest rt method url extraHeaders body
       (R2Config.accessKeyId config) (R2Config.secretAccessKey config) region).

Definition send (operation method : string) (signed : SignedRequest)
  (body : option (string * string)) : Effect.t R2Failure Http.Response :=
  Effect.mapError (fun e => R2Error operation e None)
    (Effect.execute httpClient
       (Http.mkRequest method (signed_url signed) (signed_headers signed) body)).

Definition outside_2xx (status : Z) : bool :=
  (status <? 200)%Z || (300 <=? status)%Z.

(** The text of the response, or the empty string when it cannot be read. *)
Definition text_or_empty (response : Http.Response) : Effect.t R2Failure string :=
  Effect.orElse (Effect.of_attempt (Http.text response)) (Effect.succeed EmptyString).

Definition get (key : string) : Effect.t R2Failure string :=
  let url := object_url key in
  signed <- doSignRequest "GET" url EmptyString [] ;;
  response <- send "get" "GET" signed None ;;
  if (Http.status response =? 404)%Z then
    Effect.fail (R2NotFoundError (R2Config.bucket config) key)
  else if outside_2xx (Http.status response) then
    body <- text_or_empty response ;;
    Effect.fail (R2Error "get" body (Some (Http.status response)))
  else
    Effect.mapError (fun e => R2Error "get" e None)
      (Effect.of_attempt (Http.arrayBuffer response)).

Definition getText (key : string) : Effect.t R2Failure string :=
  buffer <- get key ;;
  Effect.succeed (TextDecoder_decode buffer).

Definition getJson (key : string) : Effect.t R2Failure (JSONValue rt) :=
  text <- getText key ;;
  match JSON_parse rt text with
  | Some value => Effect.succeed value
  | None => Effect.die (SyntaxError "JSON.parse")
  end.

(** The [Uint8Array] that [put] builds from its body: the underlying
    buffer, the offset and the length of the view. *)
Definition bodyBytes (body : PutBody) : string * nat * nat :=
  match body with
  | BodyString s => (s, O, String.length s)
  | BodyArrayBuffer b => (b, O, String.length b)
  | BodyUint8Array b off len => (b, off, len)
  end.

Definition put_headers (options : R2PutOptions.t) : JS.Obj :=
  let contentType :=
    match R2PutOptions.contentType options with
    | Some c => c
    | None => "application/octet-stream"
    end in
  let headers := [("content-type", contentType)] in
  let headers :=
    if JS.truthy (R2PutOptions.cacheControl options)
    then JS.obj_set headers "cache-control"
           (match R2PutOptions.cacheControl options with
            | Some v => v | None => EmptyString end)
    else headers in
  let headers :=
    if JS.truthy (R2PutOptions.contentDisposition options)
    then JS.obj_set headers "content-disposition"
           (match R2PutOptions.contentDisposition options with
            | Some v => v | None => EmptyString end)
    else headers in
  match R2PutOptions.customMetadata options with
  | Some meta =>
      fold_left (fun acc kv => JS.obj_set acc ("x-amz-meta-" ++ fst kv) (snd kv))
                (JS.Object_entries meta) headers
  | None => headers
  end.

Definition put (key : string) (body : PutBody) (options : R2PutOptions.t)
  : Effect.t R2Failure R2Object.t :=
  let '(buffer, byteOffset, byteLength) := bodyBytes body in
  let contentType :=
    match R2PutOptions.contentType options with
    | Some c => c
    | None => "application/octet-stream"
    end in
  let headers := put_headers options in
  let url := object_url key in
  signed <- doSignRequest "PUT" url buffer headers ;;
  response <- send "put" "PUT" signed
                (Some (String.substring byteOffset byteLength buffer, contentType)) ;;
  if outside_2xx (Http.status response) then
    responseBody <- text_or_empty response ;;
    Effect.fail (R2Error "put" responseBody (Some (Http.status response)))
  else
    let etag :=
      match JS.obj_get (Http.response_headers response) "etag" with
      | Some e => e
      | None => EmptyString
      end in
    now <- Effect.new_Date ;;
    Effect.succeed
      (R2Object.make key (JS.Num (Z.of_nat byteLength)) etag (JS.Num now)
         (getPublicUrl key)
         (Some (HttpMetadata.make (R2PutOptions.contentType options) None
                  (R2PutOptions.contentDisposition options) None
                  (R2PutOptions.cacheControl options)))
         (R2PutOptions.customMetadata options)).

Definition delete (key : string) : Effect.t R2Failure unit :=
  let url := object_url key in
  signed <- doSignRequest "DELETE" url EmptyString [] ;;
  response <- send "delete" "DELETE" signed None ;;
  if (Http.status response <? 200)%Z
     || ((300 <=? Http.status response)%Z
         && negb (Http.status response =? 404)%Z)
  then
    body <- text_or_empty response ;;
    Effect.fail (R2Error "delete" body (Some (Http.status response)))
  else Effect.succeed tt.

Definition head (key : string) : Effect.t R2Failure R2Object.t :=
  let url := object_url key in
  signed <- doSignRequest "HEAD" url EmptyString [] ;;
  response <- send "head" "HEAD" signed None ;;
  if (Http.status response =? 404)%Z then
    Effect.fail (R2NotFoundError (R2Config.bucket config) key)
  else if outside_2xx (Http.status response) then
    Effect.fail (R2Error "head" "HEAD failed" (Some (Http.status response)))
  else
    let contentLength := JS.obj_get (Http.response_headers response) "content-length" in
    let etag := JS.obj_get (Http.response_headers response) "etag" in
    let lastModified := JS.obj_get (Http.response_headers response) "last-modified" in
    let contentType := JS.obj_get (Http.response_headers response) "content-type" in
    lastModified' <-
      match lastModified with
      | Some l =>
          if Str.is_empty l then Effect.map JS.Num Effect.new_Date
          else Effect.succeed (Date_parse rt l)
      | None => Effect.map JS.Num Effect.new_Date
      end ;;
    Effect.succeed
      (R2Object.make key
         (match contentLength with
          | Some c => if Str.is_empty c then JS.Num 0 else parseInt10 rt c
          | None => JS.Num 0
          end)
         (match etag with Some e => e | None => EmptyString end)
         lastModified'
         (getPublicUrl key)
         (Some (HttpMetadata.make contentType None None None None))
         None).

Definition list_params (options : R2ListOptions.t) : Whatwg.Params :=
  let params := Whatwg.params_set [] "list-type" "2" in
  let params :=
    match R2ListOptions.prefix options with
    | Some p => if Str.is_empty p then params
                else Whatwg.params_set params "prefix" p
    | None => params
    end in
  let params :=
    match R2ListOptions.delimiter options with
    | Some d => if Str.is_empty d then params
                else Whatwg.params_set params "delimiter" d
    | None => params
    end in
  let params :=
    match R2ListOptions.cursor options with
    | Some c => if Str.is_empty c then params
                else Whatwg.params_set params "continuation-token" c
    | None => params
    end in
  match R2ListOptions.limit options with
  | Some l => if (l =? 0)%Z then params
              else Whatwg.params_set params "max-keys" (JS.String_of_Z l)
  | None => params
  end.

(** The object that [getContents] pushes for one block, if the block has
    a key. *)
Definition object_of_contents (content : string)
  : Effect.t R2Failure (option R2Object.t) :=
  let objKey := getTag "Key" content in
  let size := getTag "Size" content in
  let etag := getTag "ETag" content in
  let lastModified := getTag "LastModified" content in
  match objKey with
  | None => Effect.succeed None
  | Some k =>
      if Str.is_empty k then Effect.succeed None
      else
        lastModified' <-
          (if JS.truthy lastModified
           then Effect.succeed
                  (Date_parse rt (match lastModified with
                                  | Some l => l | None => EmptyString end))
           else Effect.map JS.Num Effect.new_Date) ;;
        Effect.succeed
          (Some (R2Object.make k
                   (if JS.truthy size
                    then parseInt10 rt (match size with
                                        | Some z => z | None => EmptyString end)
                    else JS.Num 0)
                   (match etag with
                    | Some e => Str.filter (fun c => negb (Chr.has_code 34 c)) e
                    | None => EmptyString
                    end)
                   lastModified'
                   (getPublicUrl k)
                   None None))
  end.

Definition getContents (text : string) : Effect.t R2Failure (list R2Object.t) :=
  Effect.map
    (List.flat_map (fun o => match o with Some x => [x] | None => [] end))
    (Effect.forEach object_of_contents (contents_from 0 text)).

(** The prefixes that [list] keeps: every captured [<Prefix>] whose
    wrapped form occurs somewhere in the response. *)
Definition delimited_prefixes (xml : string) : list string :=
  List.filter
    (fun p => Str.includes
                ("<CommonPrefixes><Prefix>" ++ p ++ "</Prefix></CommonPrefixes>")
                xml)
    (getAllTags "Prefix" xml).

Definition list_url (options : R2ListOptions.t) : string :=
  baseUrl ++ "?" ++ Whatwg.serialize_urlencoded (list_params options).

Definition list (options : R2ListOptions.t) : Effect.t R2Failure R2ListResult.t :=
  let url := list_url options in
  signed <- doSignRequest "GET" url EmptyString [] ;;
  response <- send "list" "GET" signed None ;;
  if outside_2xx (Http.status response) then
    body <- text_or_empty response ;;
    Effect.fail (R2Error "list" body (Some (Http.status response)))
  else
    xml <- Effect.mapError (fun e => R2Error "list" e None)
             (Effect.of_attempt (Http.text response)) ;;
    let truncated :=
      match getTag "IsTruncated" xml with
      | Some t => String.eqb t "true"
      | None => false
      end in
    let cursor := getTag "NextContinuationToken" xml in
    let prefixes := delimited_prefixes xml in
    objects <- getContents xml ;;
    Effect.succeed (R2ListResult.make objects truncated cursor prefixes).

(** The cursor that the loop of [listAll] keeps after a page. *)
Definition next_cursor (result : R2ListResult.t) : option string :=
  if R2ListResult.truncated result then R2ListResult.cursor result else None.

(** The [do ... while (cursor)] loop of [listAll]; [None] is the loop
    still running when [fuel] pages have been fetched. *)
Fixpoint listAll_loop (fuel : nat) (prefix cursor : option string)
  (allObjects : Datatypes.list R2Object.t)
  : Effect.t R2Failure (option (Datatypes.list R2Object.t)) :=
  match fuel with
  | O => Effect.succeed None
  | S n =>
      result <- list (R2ListOptions.make prefix None cursor (Some 1000%Z)) ;;
      let allObjects := (allObjects ++ R2ListResult.objects result)%list in
      let cursor := next_cursor result in
      if JS.truthy cursor then listAll_loop n prefix cursor allObjects
      else Effect.succeed (Some allObjects)
  end.

Definition listAll (fuel : nat) (prefix : option string)
  : Effect.t R2Failure (option (Datatypes.list R2Object.t)) :=
  listAll_loop fuel prefix None [].

Definition exists_ (key : string) : Effect.t R2Failure bool :=
  catchTag_R2NotFoundError (fun _ _ => Effect.succeed false)
    (Effect.map (fun _ => true) (head key)).

Definition copy (sourceKey destKey : string) : Effect.t R2Failure R2Object.t :=
  data <- get sourceKey ;;
  sourceMeta <- head sourceKey ;;
  put destKey (BodyArrayBuffer data)
    (R2PutOptions.make
       (match R2Object.httpMetadata sourceMeta with
        | Some m => HttpMetadata.contentType m
        | None => None
        end)
       None None
       (R2Object.customMetadata sourceMeta)).

(** The pages that [list] returns when it is asked for [prefix] from
    [cursor] on with a limit of 1000, each page but the last truncated and
    carrying the cursor of the next, from one world to another. *)
Inductive pages_from (prefix : option string)
  : option string -> Effect.World -> Datatypes.list R2ListResult.t
    -> Effect.World -> Prop :=
  | last_page cursor w page w' :
    list (R2ListOptions.make prefix None cursor (Some 1000%Z)) w
    = (Effect.Success page, w') ->
    R2ListResult.truncated page = false ->
    pages_from prefix cursor w [page] w'
  | next_page cursor w page w1 c pages w' :
    list (R2ListOptions.make prefix None cursor (Some 1000%Z)) w
    = (Effect.Success page, w1) ->
    R2ListResult.truncated page = true ->
    R2ListResult.cursor page = Some c ->
    c <> EmptyString ->
    pages_from prefix (Some c) w1 pages w' ->
    pages_from prefix cursor w (page :: pages) w'.

(** The cursors of the requests that fetch these pages, after the first
    request, which has none. *)
Fixpoint following_cursors (pages : Datatypes.list R2ListResult.t)
  : Datatypes.list (option string) :=
  match pages with
  | [] => []
  | [_] => []
  | page :: rest => R2ListResult.cursor page :: following_cursors rest
  end.

End Service.

End R2.

(** A transport that answers every request, with the given status. *)
Definition answers (client : Http.Client) (status : Z) : Prop :=
  forall history request,
    exists response,
      client history request = Ok response /\ Http.status response = status.

(** A transport that answers every request with this response. *)
Definition answers_with (client : Http.Client) (response : Http.Response) : Prop :=
  forall history request, client history request = Ok response.

(** ** The connection string *)

Section Connection.

Variable rt : Runtime.

Definition parseR2Url (url : string) : Exc R2Config.t :=
  match new_URL rt url with
  | None => Thrown (TypeError "Invalid URL")
  | Some parsed =>
      if negb (String.eqb (Whatwg.protocol parsed) "r2:") then
        Thrown (Error "Invalid R2 URL: must start with r2://")
      else
        match JS.decodeURIComponent (Whatwg.username parsed),
              JS.decodeURIComponent (Whatwg.password parsed) with
        | Some accessKeyId, Some secretAccessKey =>
            let accountId := Whatwg.hostname parsed in
            let bucket := Str.drop 1 (Whatwg.pathname parsed) in
            let publicUrl :=
              Whatwg.params_get (Whatwg.searchParams parsed) "publicUrl" in
            if Str.is_empty accessKeyId || Str.is_empty secretAccessKey
               || Str.is_empty accountId || Str.is_empty bucket
            then
              Thrown (Error "Invalid R2 URL format. Expected: r2://ACCESS_KEY_ID:SECRET_ACCESS_KEY@ACCOUNT_ID/BUCKET")
            else
              Returned (R2Config.make accountId accessKeyId secretAccessKey
                                      bucket publicUrl)
        | _, _ => Thrown (URIError "URI malformed")
        end
  end.

Definition toR2Url (config : R2Config.t) : Exc string :=
  match new_URL rt
          ("r2://" ++ R2Config.accountId config ++ "/" ++ R2Config.bucket config)
  with
  | None => Thrown (TypeError "Invalid URL")
  | Some url =>
      let url :=
        Whatwg.set_username url
          (JS.encodeURIComponent (R2Config.accessKeyId config)) in
      let url :=
        Whatwg.set_password url
          (JS.encodeURIComponent (R2Config.secretAccessKey config)) in
      let url :=
        match R2Config.publicUrl config with
        | Some p => if Str.is_empty p then url
                    else Whatwg.searchParams_set url "publicUrl" p
        | None => url
        end in
      Returned (Whatwg.toString url)
  end.

End Connection.

(** ** A runtime and transports for the examples

    The examples run the service on a small stand-in for the engine: the
    digests are check sums, the date is rendered for one instant, the JSON
    parser knows the three literal names, and a special URL is read like a
    hierarchical one, which is what the standard does for the lower-case
    host names without port that the examples use. *)

Module Fixture.

Fixpoint sum_codes (s : string) : N :=
  match s with
  | EmptyString => 0%N
  | String c r => (Chr.code c + sum_codes r)%N
  end.

Definition checksum (s : string) : ascii := ascii_of_N (sum_codes s mod 256).

Definition instant : Z := 1704164645678.

Inductive literal : Type := JNull | JTrue | JFalse.

Definition parse_literal (s : string) : option literal :=
  if String.eqb s "null" then Some JNull
  else if String.eqb s "true" then Some JTrue
  else if String.eqb s "false" then Some JFalse
  else None.

Definition runtime : Runtime := {|
  digest_sha256 := fun m => String (checksum m) EmptyString;
  sign_hmac_sha256 := fun k m => String (checksum k) (String (checksum m) EmptyString);
  toISOString := fun t =>
    if (t =? instant)%Z then "2024-01-02T03:04:05.678Z"
    else "1970-01-01T00:00:00.000Z";
  Date_parse := fun _ => JS.NaN;
  parseInt10 := fun s =>
    if Str.forallb Chr.digit s && negb (Str.is_empty s)
    then JS.Num (Z.of_N (JS.digits_value s 0)) else JS.NaN;
  JSONValue := literal;
  JSON_parse := parse_literal;
  special_url := Whatwg.parse_after_scheme (fun _ => None);
  ipv6_host := fun _ => None
|}.

Definition config : R2Config.t :=
  R2Config.make "acct" "AK" "SK" "bucket" None.

Definition world : Effect.World := Effect.mkWorld (fun _ => instant) 0 [].

(** A second world whose clock agrees with [world] on the next reading
    only. *)
Definition later_world : Effect.World :=
  Effect.mkWorld (fun n => if Nat.eqb n 3 then instant else 0%Z) 3 [].

(** A transport that gives one answer to every request. *)
Definition answering (status : Z) (headers : JS.Obj) (body : string)
  : Http.Client :=
  fun _ _ => Ok (Http.mkResponse status headers (Ok body) (Ok body)).

Definition quoted (s : string) : string :=
  String Chr.dquote (s ++ String Chr.dquote EmptyString).

(** A bucket of three objects listed in two pages. *)
Definition page1 : string :=
  "<ListBucketResult><IsTruncated>true</IsTruncated>"
  ++ "<Contents><Key>a/1</Key><Size>1</Size></Contents>"
  ++ "<Contents><Key>a/2</Key><Size>2</Size></Contents>"
  ++ "<NextContinuationToken>t1</NextContinuationToken></ListBucketResult>".

Definition page2 : string :=
  "<ListBucketResult><IsTruncated>false</IsTruncated>"
  ++ "<Contents><Key>a/3</Key><Size>3</Size></Contents></ListBucketResult>".

Definition two_pages : Http.Client :=
  fun _ req =>
    let page :=
      if Str.includes "continuation-token=t1" (Http.url req)
      then page2 else page1 in
    Ok (Http.mkResponse 200 [] (Ok page) (Ok page)).

(** A list response laid out with white space between the elements, and
    one that echoes the requested prefix. *)
Definition spaced_prefixes : string :=
  "<ListBucketResult><Prefix></Prefix><CommonPrefixes> <Prefix>photos/</Prefix> </CommonPrefixes></ListBucketResult>".

Definition echoed_prefix : string :=
  "<ListBucketResult><Prefix>a/</Prefix><CommonPrefixes><Prefix>a/</Prefix></CommonPrefixes></ListBucketResult>".

Definition spaced_bucket : R2Config.t :=
  R2Config.make "acct" "AK" "SK" "my bucket" None.

Definition keyed_config : R2Config.t :=
  R2Config.make "acct" "A/K" "S K+" "bucket" (Some "https://pub.example/").

End Fixture.

(** ** The shape of a connection string *)

(** The text of a query after the path. *)
Definition query_text (q : option string) : string :=
  match q with
  | Some qs => "?" ++ qs
  | None => EmptyString
  end.

(** The query that [toR2Url] writes for a public URL. *)
Definition public_query (publicUrl : option string) : option string :=
  match publicUrl with
  | Some p => Some ("publicUrl=" ++ Whatwg.form_encode p)
  | None => None
  end.

(** The string that [toR2Url] returns for a descriptor. *)
Definition connection_string (d : R2Config.t) : string :=
  "r2://"
  ++ (JS.encodeURIComponent (R2Config.accessKeyId d) ++ ":"
      ++ JS.encodeURIComponent (R2Config.secretAccessKey d) ++ "@"
      ++ R2Config.accountId d)
  ++ "/" ++ R2Config.bucket d
  ++ query_text (public_query (R2Config.publicUrl d)).

(** ** Classes of characters used in the statements *)

Module Alphabet.

(** Letters, digits, hyphen and underscore: what an account id and a
    bucket name are made of. *)
Definition plain (c : ascii) : bool :=
  Chr.alnum c || Chr.one_of [45; 95]%N c.

(** What [encodeURIComponent] writes. *)
Definition uri_encoded (c : ascii) : bool :=
  JS.uri_unreserved c || Chr.has_code 37 c.

(** What the form-urlencoded serializer writes. *)
Definition form_encoded (c : ascii) : bool :=
  Chr.alnum c || Chr.one_of [42; 45; 46; 95; 43; 37]%N c.

(** What a serialized query of such pairs is made of. *)
Definition query_char (c : ascii) : bool :=
  form_encoded c || Chr.has_code 61 c.

Definition printable (c : ascii) : bool := negb (Whatwg.c0_or_space c).

Definition well_formed (name : string) : Prop :=
  name <> EmptyString /\ Str.forallb plain name = true.

End Alphabet.

(** ** The configuration loaders: [config.ts] and [R2FromEnv] *)

Inductive R2ConfigError : Type :=
| mkR2ConfigError (message : string).

Module Config.

(** The variables of [process.env] that the loaders read. *)
Record Env : Type := mkEnv {
  R2_URL : option string;
  R2_ACCOUNT_ID : option string;
  R2_ACCESS_KEY_ID : option string;
  R2_SECRET_ACCESS_KEY : option string;
  R2_BUCKET : option string;
  R2_PUBLIC_URL : option string
}.

(** The global config file: absent, or its content, or an error when it
    is read. *)
Definition File : Type := option (Attempt string).

Definition value (o : option string) : string :=
  match o with
  | Some s => s
  | None => EmptyString
  end.

(** The text that a template literal shows for a caught exception. *)
Definition exception_text (e : Exception) : string :=
  match e with
  | TypeError m => "TypeError: " ++ m
  | SyntaxError m => "SyntaxError: " ++ m
  | URIError m => "URIError: " ++ m
  | Error m => "Error: " ++ m
  end.

Section Loader.

Variable rt : Runtime.

(** [try { return parseR2Url(url) } catch { return null }] *)
Definition parse_or_null (url : string) : option R2Config.t :=
  match parseR2Url rt url with
  | Returned c => Some c
  | Thrown _ => None
  end.

(** The four required variables, when all are set and not empty. *)
Definition from_variables (env : Env) : option R2Config.t :=
  if JS.truthy (R2_ACCOUNT_ID env) && JS.truthy (R2_ACCESS_KEY_ID env)
     && JS.truthy (R2_SECRET_ACCESS_KEY env) && JS.truthy (R2_BUCKET env)
  then Some (R2Config.make (value (R2_ACCOUNT_ID env))
               (value (R2_ACCESS_KEY_ID env))
               (value (R2_SECRET_ACCESS_KEY env))
               (value (R2_BUCKET env)) (R2_PUBLIC_URL env))
  else None.

(** The loop over the lines of the config file. *)
Fixpoint scan_lines (lines : list string) : option R2Config.t :=
  match lines with
  | [] => None
  | line :: rest =>
      let trimmed := JS.trim line in
      if Str.starts_with "R2_URL=" trimmed
      then parse_or_null (JS.trim (Str.drop 7 trimmed))
      else scan_lines rest
  end.

Definition loadR2Config (env : Env) (file : File) : option R2Config.t :=
  if JS.truthy (R2_URL env) then parse_or_null (value (R2_URL env))
  else
    match from_variables env with
    | Some c => Some c
    | None =>
        match file with
        | Some (Ok content) => scan_lines (Str.split (ascii_of_N 10) content)
        | Some (Err _) => None
        | None => None
        end
    end.

Definition loadR2ConfigEffect (env : Env) (file : File)
  : Effect.t R2ConfigError R2Config.t :=
  match loadR2Config env file with
  | Some c => Effect.succeed c
  | None =>
      Effect.fail
        (mkR2ConfigError
           "No R2 config found. Run 'npx @1focus/storage init' to set up.")
  end.

(** [R2FromEnv] of [r2.ts]; the layer it returns is [R2Live] of the
    configuration given here. *)
Definition R2FromEnv (env : Env) : Effect.t R2ConfigError R2Config.t :=
  if JS.truthy (R2_URL env) then
    match parseR2Url rt (value (R2_URL env)) with
    | Returned c => Effect.succeed c
    | Thrown e =>
        Effect.fail (mkR2ConfigError ("Invalid R2_URL: " ++ exception_text e))
    end
  else
    match from_variables env with
    | Some c => Effect.succeed c
    | None =>
        Effect.fail
          (mkR2ConfigError
             "Missing R2 config. Set R2_URL or: R2_ACCOUNT_ID, R2_ACCESS_KEY_ID, R2_SECRET_ACCESS_KEY, R2_BUCKET")
    end.

End Loader.

(** The file that [saveGlobalConfig] leaves. *)
Definition saveGlobalConfig (r2Url : string) : File :=
  Some (Ok ("R2_URL=" ++ r2Url ++ newline)).

Definition hasGlobalConfig (file : File) : bool :=
  match file with
  | Some _ => true
  | None => false
  end.

End Config.

(** ** [putJson] *)

Section PutJson.

Variable rt : Runtime.
Variable config : R2Config.t.
Variable httpClient : Http.Client.

(** [JSON.stringify] on the values given to [putJson]: it may throw, and
    it may return [undefined]. *)
Variable Data : Type.
Variable JSON_stringify : Data -> Exc (option string).

(** [putJson] calls [JSON.stringify] before it builds the effect, so an
    exception of the serializer is thrown to the caller.  An undefined
    text reaches [put] as a body that is neither a string nor a view, which
    [new Uint8Array] turns into no bytes. *)
Definition putJson (key : string) (data : Data) (options : R2PutOptions.t)
  : Exc (Effect.t R2Failure R2Object.t) :=
  match JSON_stringify data with
  | Thrown e => Thrown e
  | Returned text =>
      Returned
        (R2.put rt config httpClient key
           (match text with
            | Some s => BodyString s
            | None => BodyArrayBuffer EmptyString
            end)
           (R2PutOptions.make
              (match R2PutOptions.contentType options with
               | Some c => Some c
               | None => Some "application/json"
               end)
              (R2PutOptions.contentDisposition options)
              (R2PutOptions.cacheControl options)
              (R2PutOptions.customMetadata options)))
  end.

End PutJson.

(** ** Pages that [listAll] follows *)

Section Following.

Variable rt : Runtime.
Variable config : R2Config.t.
Variable httpClient : Http.Client.

(** The truncated pages that [list] returns from [cursor] on, each one
    carrying the cursor of the next request, up to the cursor and the
    world of the request after them. *)
Inductive followed (prefix : option string)
  : option string -> Effect.World -> list R2ListResult.t
    -> option string -> Effect.World -> Prop :=
| followed_none cursor w : followed prefix cursor w [] cursor w
| followed_page cursor w page w1 c pages cursor' w' :
    R2.list rt config httpClient
      (R2ListOptions.make prefix None cursor (Some 1000%Z)) w
    = (Effect.Success page, w1) ->
    R2ListResult.truncated page = true ->
    R2ListResult.cursor page = Some c ->
    c <> EmptyString ->
    followed prefix (Some c) w1 pages cursor' w' ->
    followed prefix cursor w (page :: pages) cursor' w'.

End Following.

(** ** More classes of characters *)

Module Charset.

(** What [encodeKey] writes: what [encodeURIComponent] writes, and the
    slash. *)
Definition key_encoded (c : ascii) : bool :=
  Alphabet.uri_encoded c || Chr.has_code 47 c.

(** The digits of [toHex]. *)
Definition lower_hex (c : ascii) : bool :=
  Chr.digit c || Chr.between 97 102 c.

Definition no_angle (c : ascii) : bool := negb (Chr.has_code 60 c).

Definition no_quote (c : ascii) : bool := negb (Chr.has_code 34 c).

(** No white space that [trim] removes, and nothing a line ends with. *)
Definition no_space (c : ascii) : bool := negb (JS.is_space c).

End Charset.

(** An instant as [toISOString] writes it, from the digits of its parts. *)
Definition iso_instant (year month day hour minute second millis : string)
  : string :=
  year ++ "-" ++ month ++ "-" ++ day ++ "T" ++ hour ++ ":" ++ minute ++ ":"
  ++ second ++ "." ++ millis ++ "Z".

Definition digits (n : nat) (s : string) : Prop :=
  String.length s = n /\ Str.forallb Chr.digit s = true.

(** An effect of the service that never fails with the not-found error. *)
Definition never_not_found {A} (m : Effect.t R2Failure A) : Prop :=
  forall w bucket key,
    fst (m w) <> Effect.Failure (R2NotFoundError bucket key).

(** A transport that fails on every request, with this error. *)
Definition fails_with (client : Http.Client) (e : string) : Prop :=
  forall history request, client history request = Err e.

(** ** Texts that a pattern cannot match *)

Module Scan.

(** [pattern] and [text] differ at a position that both have. *)
Fixpoint clash (pattern text : string) : bool :=
  match pattern, text with
  | String a pattern', String b text' =>
      if Ascii.eqb a b then clash pattern' text' else true
  | _, _ => false
  end.

(** No occurrence of [pattern] begins inside [text], whatever follows. *)
Fixpoint misses (pattern text : string) : bool :=
  match text with
  | EmptyString => true
  | String _ text' => clash pattern text && misses pattern text'
  end.

End Scan.

(** ** A list response made of blocks *)

Module Listing.

(** What the server says about one object. *)
Record Entry : Type := mkEntry {
  key : string;
  lastModified : string;
  etag : string;
  size : string
}.

Definition fields (e : Entry) : string :=
  "<Key>" ++ key e ++ "</Key>"
  ++ "<LastModified>" ++ lastModified e ++ "</LastModified>"
  ++ "<ETag>" ++ etag e ++ "</ETag>"
  ++ "<Size>" ++ size e ++ "</Size>".

Definition block (e : Entry) : string :=
  "<Contents>" ++ fields e ++ "</Contents>".

Fixpoint blocks (entries : list Entry) : string :=
  match entries with
  | [] => EmptyString
  | e :: rest => block e ++ blocks rest
  end.

(** A response that holds a block for each entry, and nothing else. *)
Definition render (entries : list Entry) : string :=
  "<ListBucketResult>" ++ blocks entries ++ "</ListBucketResult>".

(** An entry with a key and a date, written without any [<]. *)
Definition clean (e : Entry) : Prop :=
  key e <> EmptyString
  /\ lastModified e <> EmptyString
  /\ Str.forallb Charset.no_angle (key e) = true
  /\ Str.forallb Charset.no_angle (lastModified e) = true
  /\ Str.forallb Charset.no_angle (etag e) = true
  /\ Str.forallb Charset.no_angle (size e) = true.

(** The object that the scanning makes of an entry. *)
Definition object_of (rt : Runtime) (config : R2Config.t) (e : Entry)
  : R2Object.t :=
  R2Object.make (key e)
    (if Str.is_empty (size e) then JS.Num 0 else parseInt10 rt (size e))
    (Str.filter (fun c => negb (Chr.has_code 34 c)) (etag e))
    (Date_parse rt (lastModified e))
    (R2.getPublicUrl config (key e))
    None None.

End Listing.

(** ** More configurations, transports and responses for the examples *)

Module Sample.

Definition public_config : R2Config.t :=
  R2Config.make "acct" "AK" "SK" "bucket" (Some "https://cdn.example.com").

(** An account id that no host name admits. *)
Definition broken_account : R2Config.t :=
  R2Config.make "my acct" "AK" "SK" "bucket" None.

(** A transport that fails on every request. *)
Definition failing : Http.Client := fun _ _ => Err "ECONNRESET".

(** A page that says it is truncated and carries no cursor. *)
Definition truncated_without_cursor : string :=
  "<ListBucketResult><IsTruncated>true</IsTruncated>"
  ++ "<Contents><Key>a/1</Key><Size>1</Size></Contents></ListBucketResult>".

(** A server that answers the first page and fails on the second. *)
Definition failing_second_page : Http.Client :=
  fun _ req =>
    if Str.includes "continuation-token=t1" (Http.url req)
    then Ok (Http.mkResponse 500 [] (Ok "boom") (Ok "boom"))
    else Ok (Http.mkResponse 200 [] (Ok Fixture.page1) (Ok Fixture.page1)).

Definition entries : list Listing.Entry :=
  [Listing.mkEntry "a&amp;b.txt" "2024-01-02T03:04:05.000Z"
     (Fixture.quoted "abc") "12";
   Listing.mkEntry "dir/c.txt" "2024-01-03T00:00:00.000Z" "&quot;def&quot;"
     EmptyString].

(** A serializer of booleans that has no text for [false]. *)
Definition stringify (b : bool) : Exc (option string) :=
  Returned (if b then Some "true" else None).

Definition empty_env : Config.Env :=
  Config.mkEnv None None None None None None.

(** An environment whose [R2_URL] has no credentials, beside the four
    variables. *)
Definition bare_url_env : Config.Env :=
  Config.mkEnv (Some "r2://acct/bucket") (Some "acct") (Some "AK") (Some "SK")
    (Some "bucket") None.

End Sample.

(** What every object of a listing satisfies. *)
Definition listed (config : R2Config.t) (object : R2Object.t) : Prop :=
  R2Object.key object <> EmptyString
  /\ Str.forallb Charset.no_angle (R2Object.key object) = true
  /\ Str.forallb Charset.no_quote (R2Object.etag object) = true
  /\ Str.forallb Charset.no_angle (R2Object.etag object) = true
  /\ R2Object.url object = R2.getPublicUrl config (R2Object.key object)
  /\ R2Object.httpMetadata object = None
  /\ R2Object.customMetadata object = None.

(** The exception of [parseR2Url] for a string that lacks a part. *)
Definition format_error : Exception :=
  Error "Invalid R2 URL format. Expected: r2://ACCESS_KEY_ID:SECRET_ACCESS_KEY@ACCOUNT_ID/BUCKET".

(** * Properties *)

(** ** Characters and strings *)

Module ChrFacts.

Lemma forall_bool_spec (P : bool -> bool) :
  Chr.forall_bool P = true -> forall b, P b = true.
Proof.
  unfold Chr.forall_bool. intros H b.
  apply andb_true_iff in H. destruct H, b; assumption.
Qed.

Lemma forall_ascii_spec (P : ascii -> bool) :
  Chr.forall_ascii P = true -> forall c, P c = true.
Proof.
  intros H [b0 b1 b2 b3 b4 b5 b6 b7]. unfold Chr.forall_ascii in H.
  pose proof (forall_bool_spec _ H b0) as H0.
  pose proof (forall_bool_spec _ H0 b1) as H1.
  pose proof (forall_bool_spec _ H1 b2) as H2.
  pose proof (forall_bool_spec _ H2 b3) as H3.
  pose proof (forall_bool_spec _ H3 b4) as H4.
  pose proof (forall_bool_spec _ H4 b5) as H5.
  pose proof (forall_bool_spec _ H5 b6) as H6.
  exact (forall_bool_spec _ H6 b7).
Qed.

(** An implication between two classes of characters, by enumeration. *)
Lemma implies (A B : ascii -> bool) :
  Chr.forall_ascii (fun c => implb (A c) (B c)) = true ->
  forall c, A c = true -> B c = true.
Proof.
  intros H c Hc. pose proof (forall_ascii_spec _ H c) as Hi.
  cbv beta in Hi. rewrite Hc in Hi. exact Hi.
Qed.

End ChrFacts.

Ltac by_enumeration := apply ChrFacts.implies; vm_compute; reflexivity.

Module StrFacts.

Lemma append_nil_r (s : string) : s ++ EmptyString = s.
Proof. induction s as [|c s IH]; simpl; [reflexivity | now rewrite IH]. Qed.

Lemma append_assoc (a b c : string) : (a ++ b) ++ c = a ++ (b ++ c).
Proof. induction a as [|x a IH]; simpl; [reflexivity | now rewrite IH]. Qed.

Lemma is_empty_false (s : string) : s <> EmptyString -> Str.is_empty s = false.
Proof. destruct s; [congruence | reflexivity]. Qed.


Lemma forallb_app (p : ascii -> bool) (a b : string) :
  Str.forallb p (a ++ b) = Str.forallb p a && Str.forallb p b.
Proof.
  induction a as [|c a IH]; simpl; [reflexivity |].
  now rewrite IH, andb_assoc.
Qed.

Lemma forallb_impl (p q : ascii -> bool) (s : string) :
  (forall c, p c = true -> q c = true) ->
  Str.forallb p s = true -> Str.forallb q s = true.
Proof.
  intros Hpq. induction s as [|c s IH]; simpl; [reflexivity |].
  intros H. apply andb_true_iff in H. destruct H as [Hc Hs].
  now rewrite (Hpq _ Hc), IH.
Qed.

Lemma map_app (f : ascii -> ascii) (a b : string) :
  Str.map f (a ++ b) = Str.map f a ++ Str.map f b.
Proof. induction a as [|c a IH]; simpl; [reflexivity | now rewrite IH]. Qed.


Lemma filter_id (p : ascii -> bool) (s : string) :
  Str.forallb p s = true -> Str.filter p s = s.
Proof.
  induction s as [|c s IH]; simpl; [reflexivity |].
  intros H. apply andb_true_iff in H. destruct H as [Hc Hs].
  now rewrite Hc, IH.
Qed.

Lemma drop_while_id (p : ascii -> bool) (s : string) :
  Str.forallb (fun c => negb (p c)) s = true -> Str.drop_while p s = s.
Proof.
  destruct s as [|c s]; simpl; [reflexivity |].
  intros H. apply andb_true_iff in H. destruct H as [Hc _].
  apply negb_true_iff in Hc. now rewrite Hc.
Qed.

Lemma rev_append_twice (s a b : string) :
  Str.rev_append (Str.rev_append s a) b = Str.rev_append a (s ++ b).
Proof.
  revert a b. induction s as [|c s IH]; intros a b; simpl; [reflexivity |].
  now rewrite IH.
Qed.

Lemma rev_involutive (s : string) : Str.rev (Str.rev s) = s.
Proof.
  unfold Str.rev. rewrite rev_append_twice. simpl. apply append_nil_r.
Qed.

Lemma forallb_rev_append (p : ascii -> bool) (s a : string) :
  Str.forallb p (Str.rev_append s a) = Str.forallb p s && Str.forallb p a.
Proof.
  revert a. induction s as [|c s IH]; intros a; simpl; [reflexivity |].
  rewrite IH. simpl. rewrite !andb_assoc. f_equal. apply andb_comm.
Qed.

Lemma forallb_rev (p : ascii -> bool) (s : string) :
  Str.forallb p (Str.rev s) = Str.forallb p s.
Proof. unfold Str.rev. rewrite forallb_rev_append. simpl. apply andb_true_r. Qed.

Lemma break_none (p : ascii -> bool) (s : string) :
  Str.forallb (fun c => negb (p c)) s = true ->
  Str.break p s = (s, EmptyString).
Proof.
  induction s as [|c s IH]; simpl; [reflexivity |].
  intros H. apply andb_true_iff in H. destruct H as [Hc Hs].
  apply negb_true_iff in Hc. now rewrite Hc, IH.
Qed.

Lemma break_app (p : ascii -> bool) (a : string) (c : ascii) (r : string) :
  Str.forallb (fun c => negb (p c)) a = true -> p c = true ->
  Str.break p (a ++ String c r) = (a, String c r).
Proof.
  intros Ha Hc. induction a as [|x a IH]; simpl.
  - now rewrite Hc.
  - simpl in Ha. apply andb_true_iff in Ha. destruct Ha as [Hx Ha].
    apply negb_true_iff in Hx. now rewrite Hx, IH.
Qed.

Lemma split_none (sep : ascii) (s : string) :
  Str.forallb (fun c => negb (Ascii.eqb c sep)) s = true ->
  Str.split sep s = [s].
Proof.
  induction s as [|c s IH]; simpl; [reflexivity |].
  intros H. apply andb_true_iff in H. destruct H as [Hc Hs].
  apply negb_true_iff in Hc. now rewrite Hc, IH.
Qed.

Lemma percent_encode_id (set : ascii -> bool) (s : string) :
  Str.forallb (fun c => negb (set c)) s = true ->
  JS.percent_encode set s = s.
Proof.
  unfold JS.percent_encode. induction s as [|c s IH]; simpl; [reflexivity |].
  intros H. apply andb_true_iff in H. destruct H as [Hc Hs].
  apply negb_true_iff in Hc. now rewrite Hc, IH.
Qed.

End StrFacts.

(** ** Facts about the classes of characters *)

Module AlphabetFacts.

Import Alphabet.

Lemma plain_printable c : plain c = true -> printable c = true.
Proof. revert c. by_enumeration. Qed.

Lemma uri_encoded_printable c : uri_encoded c = true -> printable c = true.
Proof. revert c. by_enumeration. Qed.


Lemma printable_no_tab c :
  printable c = true -> negb (Whatwg.tab_or_newline c) = true.
Proof. revert c. by_enumeration. Qed.

Lemma plain_in_authority c :
  plain c = true -> negb (Whatwg.authority_end c) = true.
Proof. revert c. by_enumeration. Qed.

Lemma uri_encoded_in_authority c :
  uri_encoded c = true -> negb (Whatwg.authority_end c) = true.
Proof. revert c. by_enumeration. Qed.

Lemma plain_no_at c : plain c = true -> negb (Chr.has_code 64 c) = true.
Proof. revert c. by_enumeration. Qed.

Lemma plain_no_colon c : plain c = true -> negb (Chr.has_code 58 c) = true.
Proof. revert c. by_enumeration. Qed.

Lemma uri_encoded_no_colon c :
  uri_encoded c = true -> negb (Chr.has_code 58 c) = true.
Proof. revert c. by_enumeration. Qed.

Lemma plain_host c : plain c = true -> negb (Whatwg.forbidden_host c) = true.
Proof. revert c. by_enumeration. Qed.

Lemma plain_no_c0 c : plain c = true -> negb (Whatwg.c0_control_set c) = true.
Proof. revert c. by_enumeration. Qed.

Lemma plain_in_path c : plain c = true -> negb (Whatwg.path_end c) = true.
Proof. revert c. by_enumeration. Qed.

Lemma plain_no_slash c :
  plain c = true -> negb (Ascii.eqb c (ascii_of_N 47)) = true.
Proof. revert c. by_enumeration. Qed.

Lemma plain_path c : plain c = true -> negb (Whatwg.path_set c) = true.
Proof. revert c. by_enumeration. Qed.

Lemma uri_encoded_userinfo c :
  uri_encoded c = true -> negb (Whatwg.userinfo_set c) = true.
Proof. revert c. by_enumeration. Qed.

Lemma form_encoded_query_char c :
  form_encoded c = true -> query_char c = true.
Proof. revert c. by_enumeration. Qed.

Lemma query_char_printable c : query_char c = true -> printable c = true.
Proof. revert c. by_enumeration. Qed.

Lemma query_char_no_hash c :
  query_char c = true -> negb (Chr.has_code 35 c) = true.
Proof. revert c. by_enumeration. Qed.

Lemma query_char_kept c :
  query_char c = true -> negb (Whatwg.query_set c) = true.
Proof. revert c. by_enumeration. Qed.

Lemma form_encoded_no_amp c :
  form_encoded c = true -> negb (Ascii.eqb c (ascii_of_N 38)) = true.
Proof. revert c. by_enumeration. Qed.


(** The first character of a plain name is no bracket, and neither the
    name nor its lower-case form begins a dot segment. *)
Lemma plain_first c :
  plain c = true ->
  negb (Chr.has_code 91 c)
  && negb (Ascii.eqb c "."%char) && negb (Ascii.eqb c "%"%char)
  && negb (Ascii.eqb (Chr.to_lower c) "."%char)
  && negb (Ascii.eqb (Chr.to_lower c) "%"%char) = true.
Proof. revert c. by_enumeration. Qed.

End AlphabetFacts.

(** ** Percent-encoding *)

Module EncodingFacts.

Import Alphabet.

Lemma hex_high c :
  Chr.hex_value (Chr.hex_upper (Chr.code c / 16)) = Some (Chr.code c / 16)%N.
Proof. destruct c as [[] [] [] [] [] [] [] []]; reflexivity. Qed.

Lemma hex_low c :
  Chr.hex_value (Chr.hex_upper (Chr.code c mod 16)) = Some (Chr.code c mod 16)%N.
Proof. destruct c as [[] [] [] [] [] [] [] []]; reflexivity. Qed.

Lemma recompose c :
  ascii_of_N (16 * (Chr.code c / 16) + Chr.code c mod 16) = c.
Proof. destruct c as [[] [] [] [] [] [] [] []]; reflexivity. Qed.

Lemma pct_uri_encoded c : Str.forallb uri_encoded (JS.pct c) = true.
Proof. revert c. apply ChrFacts.forall_ascii_spec. vm_compute. reflexivity. Qed.

Lemma pct_form_encoded c : Str.forallb form_encoded (JS.pct c) = true.
Proof. revert c. apply ChrFacts.forall_ascii_spec. vm_compute. reflexivity. Qed.

Lemma pct_plus_free c : Str.map Whatwg.plus_to_space (JS.pct c) = JS.pct c.
Proof. destruct c as [[] [] [] [] [] [] [] []]; reflexivity. Qed.

Lemma unreserved_uri_encoded c :
  JS.uri_unreserved c = true -> uri_encoded c = true.
Proof. revert c. by_enumeration. Qed.

Lemma unreserved_no_percent c :
  JS.uri_unreserved c = true -> negb (Chr.has_code 37 c) = true.
Proof. revert c. by_enumeration. Qed.

Lemma form_kept_form_encoded c :
  negb (Whatwg.urlencoded_set c) = true -> form_encoded c = true.
Proof. revert c. by_enumeration. Qed.

Lemma form_kept_literal c :
  negb (Whatwg.urlencoded_set c) = true ->
  negb (Chr.has_code 37 c) && negb (Chr.has_code 43 c) = true.
Proof. revert c. by_enumeration. Qed.

Lemma encodeURIComponent_alphabet (s : string) :
  Str.forallb uri_encoded (JS.encodeURIComponent s) = true.
Proof.
  unfold JS.encodeURIComponent, JS.percent_encode.
  induction s as [|c s IH]; simpl; [reflexivity |].
  rewrite StrFacts.forallb_app, IH, andb_true_r.
  destruct (JS.uri_unreserved c) eqn:Hc; simpl.
  - now rewrite (unreserved_uri_encoded _ Hc).
  - apply pct_uri_encoded.
Qed.

Lemma encodeURIComponent_not_empty (s : string) :
  s <> EmptyString -> Str.is_empty (JS.encodeURIComponent s) = false.
Proof.
  destruct s as [|c s]; [congruence | intros _].
  unfold JS.encodeURIComponent, JS.percent_encode. simpl.
  destruct (JS.uri_unreserved c); reflexivity.
Qed.

Lemma decode_pct (c : ascii) (rest : string) :
  JS.decodeURIComponent (JS.pct c ++ rest)
  = option_map (String c) (JS.decodeURIComponent rest).
Proof.
  unfold JS.pct. cbn [append]. cbn [JS.decodeURIComponent].
  change (Chr.has_code 37 Chr.percent) with true. cbv iota.
  now rewrite hex_high, hex_low, recompose.
Qed.

Lemma decodeURIComponent_encodeURIComponent (s : string) :
  JS.decodeURIComponent (JS.encodeURIComponent s) = Some s.
Proof.
  unfold JS.encodeURIComponent, JS.percent_encode.
  induction s as [|c s IH]; [reflexivity |].
  cbn [Str.flat_map].
  destruct (JS.uri_unreserved c) eqn:Hc; cbn [negb].
  - cbn [append JS.decodeURIComponent].
    apply unreserved_no_percent, negb_true_iff in Hc. rewrite Hc.
    now rewrite IH.
  - rewrite decode_pct. now rewrite IH.
Qed.

Lemma percent_decode_pct (c : ascii) (rest : string) :
  Whatwg.percent_decode (JS.pct c ++ rest)
  = String c (Whatwg.percent_decode rest).
Proof.
  unfold JS.pct. cbn [append]. cbn [Whatwg.percent_decode].
  change (Chr.has_code 37 Chr.percent) with true. cbv iota.
  now rewrite hex_high, hex_low, recompose.
Qed.

Lemma form_encode_alphabet (s : string) :
  Str.forallb form_encoded (Whatwg.form_encode s) = true.
Proof.
  unfold Whatwg.form_encode.
  induction s as [|c s IH]; simpl; [reflexivity |].
  rewrite StrFacts.forallb_app, IH, andb_true_r.
  destruct (Chr.has_code 32 c); [reflexivity |].
  destruct (Whatwg.urlencoded_set c) eqn:Hc.
  - apply pct_form_encoded.
  - simpl. rewrite form_kept_form_encoded; [reflexivity | now rewrite Hc].
Qed.

Lemma form_decode_form_encode (s : string) :
  Whatwg.form_decode (Whatwg.form_encode s) = s.
Proof.
  unfold Whatwg.form_decode, Whatwg.form_encode.
  induction s as [|c s IH]; [reflexivity |].
  cbn [Str.flat_map]. rewrite StrFacts.map_app.
  destruct (Chr.has_code 32 c) eqn:Hsp.
  - cbn. rewrite IH. f_equal.
    apply N.eqb_eq in Hsp. unfold Chr.code in Hsp.
    rewrite <- (ascii_N_embedding c), Hsp. reflexivity.
  - destruct (Whatwg.urlencoded_set c) eqn:Hc.
    + rewrite pct_plus_free, percent_decode_pct. now rewrite IH.
    + assert (Hk : negb (Chr.has_code 37 c) && negb (Chr.has_code 43 c) = true)
        by (apply form_kept_literal; now rewrite Hc).
      apply andb_true_iff in Hk. destruct Hk as [Hp Hplus].
      apply negb_true_iff in Hp, Hplus.
      cbn [Str.map append]. unfold Whatwg.plus_to_space at 1.
      rewrite Hplus. cbn [Whatwg.percent_decode]. rewrite Hp.
      now rewrite IH.
Qed.

End EncodingFacts.

(** ** The URL parser on the strings that [toR2Url] builds *)

Module ParserFacts.

Import Alphabet.

Lemma prefix_app (p s : string) : String.prefix p (p ++ s) = true.
Proof.
  induction p as [|c p IH]; simpl.
  - now destruct s.
  - destruct (ascii_dec c c); [exact IH | congruence].
Qed.

Lemma preprocess_printable (s : string) :
  Str.forallb printable s = true -> Whatwg.preprocess s = s.
Proof.
  intros H. unfold Whatwg.preprocess.
  rewrite (StrFacts.drop_while_id Whatwg.c0_or_space s) by exact H.
  rewrite (StrFacts.drop_while_id Whatwg.c0_or_space (Str.rev s))
    by (rewrite StrFacts.forallb_rev; exact H).
  rewrite StrFacts.rev_involutive.
  apply StrFacts.filter_id.
  revert H. apply StrFacts.forallb_impl, AlphabetFacts.printable_no_tab.
Qed.

Lemma parse_scheme_r2 (x : string) :
  Whatwg.parse_scheme ("r2://" ++ x) = Some ("r2", "//" ++ x).
Proof. reflexivity. Qed.

Lemma split_last_at_none (s : string) :
  Str.forallb (fun c => negb (Chr.has_code 64 c)) s = true ->
  Whatwg.split_last_at s = None.
Proof.
  induction s as [|c s IH]; simpl; [reflexivity |].
  intros H. apply andb_true_iff in H. destruct H as [Hc Hs].
  apply negb_true_iff in Hc. now rewrite IH, Hc.
Qed.

Lemma split_last_at_app (a h : string) :
  Str.forallb (fun c => negb (Chr.has_code 64 c)) h = true ->
  Whatwg.split_last_at (a ++ "@" ++ h) = Some (a, h).
Proof.
  intros Hh. induction a as [|c a IH]; simpl.
  - now rewrite split_last_at_none.
  - simpl in IH. now rewrite IH.
Qed.

Lemma split_host_port_none (inside : bool) (s : string) :
  Str.forallb (fun c => negb (Chr.has_code 58 c)) s = true ->
  Whatwg.split_host_port inside s = (s, None).
Proof.
  revert inside. induction s as [|c s IH]; intros inside; simpl; [reflexivity |].
  intros H. apply andb_true_iff in H. destruct H as [Hc Hs].
  apply negb_true_iff in Hc. rewrite Hc. simpl. now rewrite IH.
Qed.

Lemma existsb_none (p : ascii -> bool) (s : string) :
  Str.forallb (fun c => negb (p c)) s = true -> Str.existsb p s = false.
Proof.
  induction s as [|c s IH]; simpl; [reflexivity |].
  intros H. apply andb_true_iff in H. destruct H as [Hc Hs].
  apply negb_true_iff in Hc. now rewrite Hc, IH.
Qed.

Section Parser.

Variable ipv6_host : string -> option string.

Lemma parse_opaque_host_plain (h : string) :
  Str.forallb plain h = true ->
  Whatwg.parse_opaque_host ipv6_host h = Some h.
Proof.
  intros H. destruct h as [|c r]; [reflexivity |].
  unfold Whatwg.parse_opaque_host.
  assert (Hc : plain c = true)
    by (simpl in H; now apply andb_true_iff in H).
  pose proof (AlphabetFacts.plain_first c Hc) as Hf.
  rewrite !andb_true_iff in Hf. destruct Hf as [[[[Hb _] _] _] _].
  apply negb_true_iff in Hb. rewrite Hb.
  rewrite existsb_none
    by (revert H; apply StrFacts.forallb_impl, AlphabetFacts.plain_host).
  rewrite StrFacts.percent_encode_id
    by (revert H; apply StrFacts.forallb_impl, AlphabetFacts.plain_no_c0).
  reflexivity.
Qed.

Lemma host_without_port (h : string) :
  well_formed h ->
  Whatwg.split_host_port false h = (h, None)
  /\ Whatwg.parse_opaque_host ipv6_host h = Some h.
Proof.
  intros [_ H]. split.
  - apply split_host_port_none.
    revert H. apply StrFacts.forallb_impl, AlphabetFacts.plain_no_colon.
  - now apply parse_opaque_host_plain.
Qed.

Lemma parse_authority_plain (h : string) :
  well_formed h ->
  Whatwg.parse_authority ipv6_host h
  = Some (EmptyString, EmptyString, Some h, None).
Proof.
  intros Hh. destruct (host_without_port h Hh) as [Hs Hp].
  destruct Hh as [Hne H].
  unfold Whatwg.parse_authority.
  rewrite split_last_at_none
    by (revert H; apply StrFacts.forallb_impl, AlphabetFacts.plain_no_at).
  now rewrite Hs, Hp.
Qed.

Lemma parse_authority_credentials (user pass h : string) :
  Str.forallb uri_encoded user = true ->
  Str.forallb uri_encoded pass = true ->
  well_formed h ->
  Whatwg.parse_authority ipv6_host (user ++ ":" ++ pass ++ "@" ++ h)
  = Some (user, pass, Some h, None).
Proof.
  intros Hu Hp Hh. destruct (host_without_port h Hh) as [Hs Ho].
  destruct Hh as [Hne H].
  unfold Whatwg.parse_authority.
  replace (user ++ ":" ++ pass ++ "@" ++ h)
    with ((user ++ ":" ++ pass) ++ "@" ++ h)
    by (now rewrite StrFacts.append_assoc).
  rewrite split_last_at_app
    by (revert H; apply StrFacts.forallb_impl, AlphabetFacts.plain_no_at).
  change (user ++ ":" ++ pass) with (user ++ String ":"%char pass).
  rewrite StrFacts.break_app;
    [| revert Hu; apply StrFacts.forallb_impl, AlphabetFacts.uri_encoded_no_colon
     | reflexivity].
  cbn [Str.drop].
  rewrite (StrFacts.percent_encode_id _ user)
    by (revert Hu;
        apply StrFacts.forallb_impl, AlphabetFacts.uri_encoded_userinfo).
  rewrite (StrFacts.percent_encode_id _ pass)
    by (revert Hp;
        apply StrFacts.forallb_impl, AlphabetFacts.uri_encoded_userinfo).
  rewrite Hs, Ho.
  destruct h; [congruence | reflexivity].
Qed.

Lemma not_a_dot_segment (b : string) :
  well_formed b ->
  Whatwg.is_single_dot b = false /\ Whatwg.is_double_dot b = false.
Proof.
  intros [Hne H]. destruct b as [|c r]; [congruence |].
  assert (Hc : plain c = true)
    by (simpl in H; now apply andb_true_iff in H).
  pose proof (AlphabetFacts.plain_first c Hc) as Hf.
  rewrite !andb_true_iff in Hf.
  destruct Hf as [[[[_ Hd] Hp] Hld] Hlp].
  apply negb_true_iff in Hd, Hp, Hld, Hlp.
  unfold Whatwg.is_single_dot, Whatwg.is_double_dot, JS.toLowerCase.
  cbn [Str.map String.eqb]. now rewrite Hd, Hld, Hlp.
Qed.

Lemma parse_path_plain (b : string) :
  well_formed b -> Whatwg.parse_path b = Whatwg.Segments [b].
Proof.
  intros Hb. destruct (not_a_dot_segment b Hb) as [Hs Hd].
  destruct Hb as [Hne H].
  unfold Whatwg.parse_path.
  rewrite StrFacts.split_none
    by (revert H; apply StrFacts.forallb_impl, AlphabetFacts.plain_no_slash).
  cbn [Whatwg.build_path].
  rewrite StrFacts.percent_encode_id
    by (revert H; apply StrFacts.forallb_impl, AlphabetFacts.plain_path).
  now rewrite Hs, Hd.
Qed.

Lemma parse_query_text (q : option string) :
  (forall qs, q = Some qs -> Str.forallb query_char qs = true) ->
  Whatwg.parse_query (query_text q) = q
  /\ Whatwg.parse_fragment (query_text q) = None.
Proof.
  intros Hq. destruct q as [qs|]; [| split; reflexivity].
  specialize (Hq qs eq_refl).
  assert (Hb : Str.break (Chr.has_code 35) qs = (qs, EmptyString)).
  { apply StrFacts.break_none. revert Hq.
    apply StrFacts.forallb_impl, AlphabetFacts.query_char_no_hash. }
  split.
  - cbn [query_text append Whatwg.parse_query].
    change (Chr.has_code 63 "?"%char) with true. cbv iota.
    rewrite Hb. cbn [fst].
    rewrite StrFacts.percent_encode_id; [reflexivity |].
    revert Hq. apply StrFacts.forallb_impl, AlphabetFacts.query_char_kept.
  - unfold Whatwg.parse_fragment. cbn [query_text append Str.break].
    change (Chr.has_code 35 "?"%char) with false. cbv iota.
    now rewrite Hb.
Qed.

Lemma parse_after_scheme_r2
  (sch auth user pass h b : string) (q : option string) :
  Str.forallb (fun c => negb (Whatwg.authority_end c)) auth = true ->
  Whatwg.parse_authority ipv6_host auth = Some (user, pass, Some h, None) ->
  well_formed b ->
  (forall qs, q = Some qs -> Str.forallb query_char qs = true) ->
  Whatwg.parse_after_scheme ipv6_host sch
    ("//" ++ auth ++ "/" ++ b ++ query_text q)
  = Some (Whatwg.mkURL sch user pass (Some h) None (Whatwg.Segments [b])
            q None).
Proof.
  intros Hauth Hparse Hb Hq.
  destruct (parse_query_text q Hq) as [Hquery Hfragment].
  unfold Whatwg.parse_after_scheme, Str.starts_with.
  rewrite prefix_app.
  change (Str.drop 2 ("//" ++ auth ++ "/" ++ b ++ query_text q))
    with (auth ++ String "/"%char (b ++ query_text q)).
  rewrite StrFacts.break_app by (exact Hauth || reflexivity).
  rewrite Hparse.
  change (Chr.has_code 47 "/"%char) with true. cbv iota.
  assert (Hbreak : Str.break Whatwg.path_end (b ++ query_text q)
                   = (b, query_text q)).
  { destruct Hb as [_ Hb]. destruct q as [qs|]; cbn [query_text].
    - change ("?" ++ qs) with (String "?"%char qs).
      apply StrFacts.break_app; [| reflexivity].
      revert Hb. apply StrFacts.forallb_impl, AlphabetFacts.plain_in_path.
    - rewrite StrFacts.append_nil_r. apply StrFacts.break_none.
      revert Hb. apply StrFacts.forallb_impl, AlphabetFacts.plain_in_path. }
  rewrite Hbreak, (parse_path_plain b Hb), Hquery, Hfragment.
  reflexivity.
Qed.

End Parser.

End ParserFacts.

(** ** The connection string *)

Section ConnectionFacts.

Import Alphabet.

Variable rt : Runtime.

Lemma public_query_chars (publicUrl : option string) (qs : string) :
  public_query publicUrl = Some qs -> Str.forallb query_char qs = true.
Proof.
  destruct publicUrl as [p|]; [| discriminate].
  cbn [public_query]. intros H. injection H as <-.
  change (Str.forallb query_char ("publicUrl=" ++ Whatwg.form_encode p) = true).
  rewrite StrFacts.forallb_app. apply andb_true_iff. split; [reflexivity |].
  generalize (EncodingFacts.form_encode_alphabet p).
  apply StrFacts.forallb_impl, AlphabetFacts.form_encoded_query_char.
Qed.

Lemma new_URL_r2 (auth user pass h b : string) (q : option string) :
  Str.forallb printable auth = true ->
  Str.forallb (fun c => negb (Whatwg.authority_end c)) auth = true ->
  Whatwg.parse_authority (ipv6_host rt) auth = Some (user, pass, Some h, None) ->
  well_formed b ->
  (forall qs, q = Some qs -> Str.forallb query_char qs = true) ->
  new_URL rt ("r2://" ++ auth ++ "/" ++ b ++ query_text q)
  = Some (Whatwg.mkURL "r2" user pass (Some h) None (Whatwg.Segments [b])
            q None).
Proof.
  intros Hprint Hauth Hparse Hb Hq.
  unfold new_URL, Whatwg.new_URL.
  rewrite ParserFacts.preprocess_printable.
  - rewrite ParserFacts.parse_scheme_r2.
    change (Whatwg.is_special "r2") with false. cbv iota.
    now apply ParserFacts.parse_after_scheme_r2.
  - change ("r2://" ++ auth ++ "/" ++ b ++ query_text q)
      with ("r2://" ++ (auth ++ ("/" ++ (b ++ query_text q)))).
    rewrite !StrFacts.forallb_app, Hprint.
    destruct Hb as [_ Hb].
    rewrite (StrFacts.forallb_impl _ _ _ AlphabetFacts.plain_printable Hb).
    destruct q as [qs|]; [| reflexivity].
    cbn [query_text]. rewrite StrFacts.forallb_app.
    rewrite (StrFacts.forallb_impl _ _ _ AlphabetFacts.query_char_printable
               (Hq qs eq_refl)).
    reflexivity.
Qed.

Lemma new_URL_bare (acct b : string) :
  well_formed acct -> well_formed b ->
  new_URL rt ("r2://" ++ acct ++ "/" ++ b)
  = Some (Whatwg.mkURL "r2" EmptyString EmptyString (Some acct) None
            (Whatwg.Segments [b]) None None).
Proof.
  intros Ha Hb.
  rewrite <- (new_URL_r2 acct EmptyString EmptyString acct b None).
  - cbn [query_text]. now rewrite StrFacts.append_nil_r.
  - destruct Ha as [_ Ha]. revert Ha.
    apply StrFacts.forallb_impl, AlphabetFacts.plain_printable.
  - destruct Ha as [_ Ha]. revert Ha.
    apply StrFacts.forallb_impl, AlphabetFacts.plain_in_authority.
  - now apply ParserFacts.parse_authority_plain.
  - exact Hb.
  - discriminate.
Qed.

Lemma set_credentials (h user pass : string) (pth : Whatwg.Path) :
  Str.is_empty h = false ->
  Str.forallb uri_encoded user = true ->
  Str.forallb uri_encoded pass = true ->
  Whatwg.set_password
    (Whatwg.set_username
       (Whatwg.mkURL "r2" EmptyString EmptyString (Some h) None pth None None)
       user)
    pass
  = Whatwg.mkURL "r2" user pass (Some h) None pth None None.
Proof.
  intros Hh Hu Hp.
  unfold Whatwg.set_username, Whatwg.cannot_have_credentials.
  cbn [Whatwg.host Whatwg.scheme]. rewrite Hh.
  change (String.eqb "r2" "file") with false. cbn [orb].
  unfold Whatwg.set_password, Whatwg.cannot_have_credentials.
  cbn [Whatwg.host Whatwg.scheme Whatwg.username Whatwg.password Whatwg.port
       Whatwg.path Whatwg.query Whatwg.fragment].
  rewrite Hh. change (String.eqb "r2" "file") with false. cbn [orb].
  rewrite (StrFacts.percent_encode_id _ user)
    by (revert Hu;
        apply StrFacts.forallb_impl, AlphabetFacts.uri_encoded_userinfo).
  rewrite (StrFacts.percent_encode_id _ pass)
    by (revert Hp;
        apply StrFacts.forallb_impl, AlphabetFacts.uri_encoded_userinfo).
  reflexivity.
Qed.

Lemma searchParams_set_publicUrl
  (user pass : string) (h : option string) (pth : Whatwg.Path) (p : string) :
  Whatwg.searchParams_set
    (Whatwg.mkURL "r2" user pass h None pth None None) "publicUrl" p
  = Whatwg.mkURL "r2" user pass h None pth (public_query (Some p)) None.
Proof. reflexivity. Qed.

Lemma toString_r2 (user pass h b : string) (q : option string) :
  Str.is_empty user = false -> Str.is_empty pass = false ->
  Whatwg.toString
    (Whatwg.mkURL "r2" user pass (Some h) None (Whatwg.Segments [b]) q None)
  = "r2://" ++ (user ++ ":" ++ pass ++ "@" ++ h) ++ "/" ++ b
    ++ query_text q.
Proof.
  intros Hu Hp.
  unfold Whatwg.toString, Whatwg.includes_credentials, Whatwg.port_suffix,
    Whatwg.pathname.
  cbn [Whatwg.host Whatwg.scheme Whatwg.username Whatwg.password Whatwg.port
       Whatwg.path Whatwg.query Whatwg.fragment].
  rewrite Hu, Hp. cbn [negb orb List.map String.concat].
  rewrite !StrFacts.append_assoc. cbn [append].
  destruct q; cbn [query_text append];
    now rewrite ?StrFacts.append_nil_r.
Qed.

Lemma toR2Url_string (d : R2Config.t) :
  R2Config.accessKeyId d <> EmptyString ->
  R2Config.secretAccessKey d <> EmptyString ->
  well_formed (R2Config.accountId d) ->
  well_formed (R2Config.bucket d) ->
  R2Config.publicUrl d <> Some EmptyString ->
  toR2Url rt d = Returned (connection_string d).
Proof.
  destruct d as [acct ak sk b pu]. unfold connection_string, toR2Url.
  cbn [R2Config.accountId R2Config.accessKeyId R2Config.secretAccessKey
       R2Config.bucket R2Config.publicUrl].
  intros Hak Hsk Hacct Hb Hpu.
  rewrite (new_URL_bare acct b Hacct Hb).
  pose proof (EncodingFacts.encodeURIComponent_not_empty ak Hak) as Huser.
  pose proof (EncodingFacts.encodeURIComponent_not_empty sk Hsk) as Hpass.
  rewrite set_credentials;
    [| apply StrFacts.is_empty_false, Hacct
     | apply EncodingFacts.encodeURIComponent_alphabet
     | apply EncodingFacts.encodeURIComponent_alphabet].
  f_equal.
  destruct pu as [p|].
  - destruct p as [|c p]; [congruence |].
    cbn [Str.is_empty]. rewrite searchParams_set_publicUrl.
    now apply toString_r2.
  - now apply toString_r2.
Qed.

Lemma new_URL_connection_string (d : R2Config.t) :
  well_formed (R2Config.accountId d) ->
  well_formed (R2Config.bucket d) ->
  new_URL rt (connection_string d)
  = Some (Whatwg.mkURL "r2"
            (JS.encodeURIComponent (R2Config.accessKeyId d))
            (JS.encodeURIComponent (R2Config.secretAccessKey d))
            (Some (R2Config.accountId d)) None
            (Whatwg.Segments [R2Config.bucket d])
            (public_query (R2Config.publicUrl d)) None).
Proof.
  intros Hacct Hb. unfold connection_string.
  pose proof (EncodingFacts.encodeURIComponent_alphabet (R2Config.accessKeyId d))
    as Hu.
  pose proof (EncodingFacts.encodeURIComponent_alphabet (R2Config.secretAccessKey d))
    as Hp.
  assert (Hplain := proj2 Hacct).
  apply new_URL_r2.
  - change (?u ++ ":" ++ ?p ++ "@" ++ ?h) with (u ++ (":" ++ (p ++ ("@" ++ h)))).
    rewrite !StrFacts.forallb_app.
    rewrite (StrFacts.forallb_impl _ _ _ AlphabetFacts.uri_encoded_printable Hu).
    rewrite (StrFacts.forallb_impl _ _ _ AlphabetFacts.uri_encoded_printable Hp).
    rewrite (StrFacts.forallb_impl _ _ _ AlphabetFacts.plain_printable Hplain).
    reflexivity.
  - change (?u ++ ":" ++ ?p ++ "@" ++ ?h) with (u ++ (":" ++ (p ++ ("@" ++ h)))).
    rewrite !StrFacts.forallb_app.
    rewrite (StrFacts.forallb_impl _ _ _ AlphabetFacts.uri_encoded_in_authority Hu).
    rewrite (StrFacts.forallb_impl _ _ _ AlphabetFacts.uri_encoded_in_authority Hp).
    rewrite (StrFacts.forallb_impl _ _ _ AlphabetFacts.plain_in_authority Hplain).
    reflexivity.
  - now apply ParserFacts.parse_authority_credentials.
  - exact Hb.
  - apply public_query_chars.
Qed.

Lemma searchParams_public_query (u : Whatwg.URL) (publicUrl : option string) :
  Whatwg.query u = public_query publicUrl ->
  Whatwg.params_get (Whatwg.searchParams u) "publicUrl" = publicUrl.
Proof.
  unfold Whatwg.searchParams. intros ->.
  destruct publicUrl as [p|]; [| reflexivity].
  cbn [public_query]. unfold Whatwg.parse_urlencoded.
  pose proof (EncodingFacts.form_encode_alphabet p) as Hp.
  rewrite StrFacts.split_none.
  - cbn [List.flat_map]. unfold Whatwg.parse_pair.
    change (Str.is_empty ("publicUrl=" ++ Whatwg.form_encode p)) with false.
    cbv iota.
    change ("publicUrl=" ++ Whatwg.form_encode p)
      with ("publicUrl" ++ String "="%char (Whatwg.form_encode p)).
    rewrite StrFacts.break_app by reflexivity.
    cbn [Str.drop]. rewrite EncodingFacts.form_decode_form_encode.
    reflexivity.
  - rewrite StrFacts.forallb_app. apply andb_true_iff. split; [reflexivity |].
    revert Hp. apply StrFacts.forallb_impl, AlphabetFacts.form_encoded_no_amp.
Qed.

(** C2, amended.  For every descriptor whose four required fields are not
    empty, whose account id and bucket consist of letters, digits, hyphens
    and underscores, and whose public URL is absent or not empty,
    [toR2Url] returns a string that [parseR2Url] reads back as the same
    descriptor, field for field. *)
Theorem parseR2Url_toR2Url (d : R2Config.t) :
  R2Config.accessKeyId d <> EmptyString ->
  R2Config.secretAccessKey d <> EmptyString ->
  well_formed (R2Config.accountId d) ->
  well_formed (R2Config.bucket d) ->
  R2Config.publicUrl d <> Some EmptyString ->
  exists s, toR2Url rt d = Returned s /\ parseR2Url rt s = Returned d.
Proof.
  intros Hak Hsk Hacct Hb Hpu.
  exists (connection_string d). split; [now apply toR2Url_string |].
  unfold parseR2Url. rewrite (new_URL_connection_string d Hacct Hb).
  change (negb (String.eqb (Whatwg.protocol _) "r2:")) with false. cbv iota.
  cbn [Whatwg.username Whatwg.password].
  rewrite !EncodingFacts.decodeURIComponent_encodeURIComponent.
  rewrite (searchParams_public_query _ (R2Config.publicUrl d)) by reflexivity.
  unfold Whatwg.hostname, Whatwg.pathname.
  cbn [Whatwg.host Whatwg.path List.map String.concat append Str.drop].
  rewrite (StrFacts.is_empty_false _ Hak), (StrFacts.is_empty_false _ Hsk),
    (StrFacts.is_empty_false _ (proj1 Hacct)),
    (StrFacts.is_empty_false _ (proj1 Hb)).
  cbn [orb]. now destruct d.
Qed.

End ConnectionFacts.

(** ** Objects used as string maps *)

Module ObjFacts.

Import JS.

Lemma get_replace_same (o : Obj) (k v x : string) :
  obj_get o k = Some x -> obj_get (obj_replace o k v) k = Some v.
Proof.
  induction o as [|[k0 v0] t IH]; simpl; [discriminate |].
  destruct (String.eqb k0 k) eqn:E; simpl; rewrite E; [reflexivity | exact IH].
Qed.

Lemma get_replace_other (o : Obj) (k v k' : string) :
  k' <> k -> obj_get (obj_replace o k v) k' = obj_get o k'.
Proof.
  intros Hk. induction o as [|[k0 v0] t IH]; simpl; [reflexivity |].
  destruct (String.eqb k0 k) eqn:E; simpl.
  - apply String.eqb_eq in E. subst k0.
    destruct (String.eqb_spec k k'); [congruence | reflexivity].
  - now rewrite IH.
Qed.

Lemma get_insert_same (n : N) (o : Obj) (k v : string) :
  obj_get o k = None -> obj_get (obj_insert_index n o k v) k = Some v.
Proof.
  induction o as [|[k0 v0] t IH]; simpl.
  - now rewrite String.eqb_refl.
  - destruct (String.eqb k0 k) eqn:E; [discriminate |]. intros Hget.
    destruct (array_index k0) as [m|]; [destruct (m <? n)%N |]; simpl;
      rewrite ?E, ?String.eqb_refl; auto.
Qed.

Lemma get_insert_other (n : N) (o : Obj) (k v k' : string) :
  k' <> k -> obj_get (obj_insert_index n o k v) k' = obj_get o k'.
Proof.
  intros Hk.
  assert (Hneq : String.eqb k k' = false)
    by (apply String.eqb_neq; congruence).
  induction o as [|[k0 v0] t IH]; simpl.
  - now rewrite Hneq.
  - destruct (array_index k0) as [m|]; [destruct (m <? n)%N |]; simpl;
      rewrite ?Hneq, ?IH; reflexivity.
Qed.

Lemma get_app (o : Obj) (k v k' : string) :
  obj_get (o ++ [(k, v)])%list k'
  = match obj_get o k' with
    | Some x => Some x
    | None => if String.eqb k k' then Some v else None
    end.
Proof.
  induction o as [|[k0 v0] t IH]; simpl; [reflexivity |].
  destruct (String.eqb k0 k'); [reflexivity | exact IH].
Qed.

Lemma get_set_same (o : Obj) (k v : string) :
  obj_get (obj_set o k v) k = Some v.
Proof.
  unfold obj_set. destruct (obj_get o k) as [x|] eqn:E.
  - now apply get_replace_same with x.
  - destruct (array_index k).
    + now apply get_insert_same.
    + now rewrite get_app, E, String.eqb_refl.
Qed.

Lemma get_set_other (o : Obj) (k v k' : string) :
  k' <> k -> obj_get (obj_set o k v) k' = obj_get o k'.
Proof.
  intros Hk. unfold obj_set. destruct (obj_get o k) as [x|] eqn:E.
  - now apply get_replace_other.
  - destruct (array_index k).
    + now apply get_insert_other.
    + rewrite get_app. destruct (obj_get o k'); [reflexivity |].
      destruct (String.eqb_spec k k'); [congruence | reflexivity].
Qed.

(** Setting a key that is neither the first one nor an array index
    leaves the first entry in place. *)
Lemma set_behind_first (k0 v0 : string) (rest : Obj) (k v : string) :
  k0 <> k -> array_index k = None ->
  obj_set ((k0, v0) :: rest) k v = (k0, v0) :: obj_set rest k v.
Proof.
  intros Hk Hi. unfold obj_set. simpl.
  destruct (String.eqb_spec k0 k); [congruence |].
  destruct (obj_get rest k); [reflexivity |]. now rewrite Hi.
Qed.

Lemma Forall_replace (R : string -> Prop) (o : Obj) (k v : string) :
  Forall (fun kv => R (fst kv)) o ->
  Forall (fun kv => R (fst kv)) (obj_replace o k v).
Proof.
  induction 1 as [|[k0 v0] t H0 Ht IH]; simpl; [constructor |].
  destruct (String.eqb k0 k); constructor; assumption.
Qed.

Lemma Forall_insert (R : string -> Prop) (n : N) (o : Obj) (k v : string) :
  R k -> Forall (fun kv => R (fst kv)) o ->
  Forall (fun kv => R (fst kv)) (obj_insert_index n o k v).
Proof.
  intros Hk. induction 1 as [|[k0 v0] t H0 Ht IH]; simpl.
  - constructor; [exact Hk | constructor].
  - destruct (array_index k0) as [m|]; [destruct (m <? n)%N |];
      repeat (constructor; try assumption).
Qed.

Lemma Forall_set (R : string -> Prop) (o : Obj) (k v : string) :
  R k -> Forall (fun kv => R (fst kv)) o ->
  Forall (fun kv => R (fst kv)) (obj_set o k v).
Proof.
  intros Hk Ho. unfold obj_set. destruct (obj_get o k).
  - now apply Forall_replace.
  - destruct (array_index k).
    + now apply Forall_insert.
    + apply Forall_app. split; [exact Ho |].
      constructor; [exact Hk | constructor].
Qed.

(** Entries under other names do not change what a name is bound to. *)
Lemma get_fold_other (f : string -> string) (k : string)
  (more : list (string * string)) (o : Obj) :
  Forall (fun kv => f (fst kv) <> k) more ->
  obj_get (fold_left (fun acc kv => obj_set acc (f (fst kv)) (snd kv)) more o) k
  = obj_get o k.
Proof.
  intros H. revert o. induction H as [|kv t Hkv Ht IH]; intros o; simpl.
  - reflexivity.
  - rewrite IH. apply get_set_other. congruence.
Qed.

End ObjFacts.

(** ** Effects *)

Module EffectFacts.

Import Effect.

Lemma flatMap_success {E A B} (m : t E A) (k : A -> t E B) w a w' :
  m w = (Success a, w') -> flatMap m k w = k a w'.
Proof. unfold flatMap. now intros ->. Qed.

Lemma flatMap_inv {E A B} (m : t E A) (k : A -> t E B) w b w' :
  flatMap m k w = (Success b, w') ->
  exists a w1, m w = (Success a, w1) /\ k a w1 = (Success b, w').
Proof.
  unfold flatMap. destruct (m w) as [[a|e|d] w1]; try discriminate.
  intros H. now exists a, w1.
Qed.

Lemma mapError_inv {E E' A} (f : E -> E') (m : t E A) w a w' :
  mapError f m w = (Success a, w') -> m w = (Success a, w').
Proof.
  unfold mapError. destruct (m w) as [[x|e|d] w1]; try discriminate.
  intros H. now inversion H.
Qed.

Lemma promise_eq {E A} (p : t Empty_set A) w a w' :
  p w = (Success a, w') -> promise (E := E) p w = (Success a, w').
Proof. unfold promise, mapError. now intros ->. Qed.

End EffectFacts.

(** ** The signer *)

Section SignerFacts.

Variable rt : Runtime.

Lemma signRequest_success
  (method url : string) (headers : JS.Obj)
  (body accessKeyId secretAccessKey region : string)
  (w : Effect.World) (u : Whatwg.URL) :
  new_URL rt url = Some u ->
  exists signed,
    signRequest rt method url headers body accessKeyId secretAccessKey region w
    = (Effect.Success signed, Effect.tick w)
    /\ signed_url signed = url
    /\ forall k,
         k <> "host" -> k <> "x-amz-date" -> k <> "x-amz-content-sha256" ->
         k <> "Authorization" ->
         JS.obj_get (signed_headers signed) k
         = JS.obj_get (normalizedHeaders headers) k.
Proof.
  intros Hu. unfold signRequest. rewrite Hu.
  unfold Effect.flatMap, Effect.new_Date, Effect.succeed.
  eexists. split; [reflexivity |]. split; [reflexivity |].
  intros k H1 H2 H3 H4. cbn [signed_headers]. unfold JS.spread.
  cbn [fold_left fst snd].
  now rewrite !ObjFacts.get_set_other by assumption.
Qed.

(** C1.  Signing is deterministic for a fixed clock value: two invocations
    of [signRequest] on the same method, url, headers, body, credentials
    and region, in any two worlds whose clocks give the same value to the
    one [new Date()] of the call, have identical results, and in particular
    identical [Authorization] headers. *)
Theorem signRequest_deterministic
  (method url : string) (headers : JS.Obj)
  (body accessKeyId secretAccessKey region : string)
  (w1 w2 : Effect.World) :
  Effect.clock w1 (Effect.ticks w1) = Effect.clock w2 (Effect.ticks w2) ->
  fst (signRequest rt method url headers body accessKeyId secretAccessKey region w1)
  = fst (signRequest rt method url headers body accessKeyId secretAccessKey region w2)
  /\ forall s1 s2,
       fst (signRequest rt method url headers body accessKeyId secretAccessKey
              region w1) = Effect.Success s1 ->
       fst (signRequest rt method url headers body accessKeyId secretAccessKey
              region w2) = Effect.Success s2 ->
       JS.obj_get (signed_headers s1) "Authorization"
       = JS.obj_get (signed_headers s2) "Authorization".
Proof.
  intros Hclock.
  assert (Hsame :
    fst (signRequest rt method url headers body accessKeyId secretAccessKey region w1)
    = fst (signRequest rt method url headers body accessKeyId secretAccessKey region w2)).
  { unfold signRequest. destruct (new_URL rt url) as [u|]; [| reflexivity].
    unfold Effect.flatMap, Effect.new_Date, Effect.succeed. cbn [fst].
    now rewrite Hclock. }
  split; [exact Hsame |].
  intros s1 s2 H1 H2. rewrite Hsame, H2 in H1. now inversion H1.
Qed.

(** The clock is read once by a call that signs, and not at all by one
    that rejects its URL. *)
Lemma signRequest_reads_clock_once
  (method url : string) (headers : JS.Obj)
  (body accessKeyId secretAccessKey region : string) (w : Effect.World) :
  Effect.ticks
    (snd (signRequest rt method url headers body accessKeyId secretAccessKey
            region w))
  = match new_URL rt url with
    | Some _ => S (Effect.ticks w)
    | None => Effect.ticks w
    end.
Proof. unfold signRequest. now destruct (new_URL rt url). Qed.

End SignerFacts.

(** ** The service *)

Section ServiceFacts.

Variable rt : Runtime.
Variable config : R2Config.t.
Variable httpClient : Http.Client.

Lemma doSignRequest_success
  (method url body : string) (extraHeaders : JS.Obj) (w : Effect.World) :
  new_URL rt url <> None ->
  exists signed,
    R2.doSignRequest (E := R2Failure) rt config method url body extraHeaders w
    = (Effect.Success signed, Effect.tick w)
    /\ signed_url signed = url
    /\ forall k,
         k <> "host" -> k <> "x-amz-date" -> k <> "x-amz-content-sha256" ->
         k <> "Authorization" ->
         JS.obj_get (signed_headers signed) k
         = JS.obj_get (normalizedHeaders extraHeaders) k.
Proof.
  intros Hurl. destruct (new_URL rt url) as [u|] eqn:Hu; [| congruence].
  destruct (signRequest_success rt method url extraHeaders body
              (R2Config.accessKeyId config) (R2Config.secretAccessKey config)
              R2.region w u Hu) as (signed & Hs & Hrest).
  exists signed. split; [| exact Hrest].
  unfold R2.doSignRequest. now apply EffectFacts.promise_eq.
Qed.

Lemma send_answer
  (operation method : string) (signed : SignedRequest)
  (body : option (string * string)) (w : Effect.World)
  (response : Http.Response) :
  httpClient (Effect.sent w)
    (Http.mkRequest method (signed_url signed) (signed_headers signed) body)
  = Ok response ->
  R2.send httpClient operation method signed body w
  = (Effect.Success response,
     Effect.log w (Http.mkRequest method (signed_url signed) (signed_headers signed) body)).
Proof.
  intros H. unfold R2.send, Effect.mapError, Effect.execute. now rewrite H.
Qed.

Lemma text_or_empty_succeeds (response : Http.Response) (w : Effect.World) :
  exists body, R2.text_or_empty response w = (Effect.Success body, w).
Proof.
  unfold R2.text_or_empty, Effect.orElse, Effect.of_attempt.
  destruct (Http.text response) as [t|e].
  - now exists t.
  - now exists EmptyString.
Qed.

(** C5.  Against a transport that answers 404 or any 2xx status, [delete]
    succeeds; against one that answers any other status it fails with the
    [R2Error] of the operation that carries that status. *)
Theorem delete_by_status (key : string) (status : Z) (w : Effect.World) :
  new_URL rt (R2.object_url config key) <> None ->
  answers httpClient status ->
  ((status = 404 \/ 200 <= status < 300)%Z ->
   fst (R2.delete rt config httpClient key w) = Effect.Success tt)
  /\ ((status < 200 \/ 300 <= status)%Z -> status <> 404%Z ->
      exists message,
        fst (R2.delete rt config httpClient key w)
        = Effect.Failure (R2Error "delete" message (Some status))).
Proof.
  intros Hurl Hanswers.
  destruct (doSignRequest_success "DELETE" (R2.object_url config key)
              EmptyString [] w Hurl) as (signed & Hsign & _).
  destruct (Hanswers (Effect.sent (Effect.tick w))
              (Http.mkRequest "DELETE" (signed_url signed)
                 (signed_headers signed) None))
    as (response & Hresponse & Hstatus).
  unfold R2.delete.
  rewrite (EffectFacts.flatMap_success _ _ _ _ _ Hsign).
  rewrite (EffectFacts.flatMap_success _ _ _ _ _
             (send_answer "delete" "DELETE" signed None _ response Hresponse)).
  rewrite Hstatus. split.
  - intros Hok.
    replace ((status <? 200)%Z
             || ((300 <=? status)%Z && negb (status =? 404)%Z)) with false;
      [reflexivity |].
    symmetry. apply orb_false_iff. split.
    + apply Z.ltb_ge. lia.
    + destruct Hok as [-> | Hok]; [reflexivity |].
      apply andb_false_iff. left. apply Z.leb_gt. lia.
  - intros Hout Hnot.
    replace ((status <? 200)%Z
             || ((300 <=? status)%Z && negb (status =? 404)%Z)) with true.
    + destruct (text_or_empty_succeeds response
                  (Effect.log (Effect.tick w)
                     (Http.mkRequest "DELETE" (signed_url signed)
                        (signed_headers signed) None)))
        as (message & Htext).
      exists message.
      now rewrite (EffectFacts.flatMap_success _ _ _ _ _ Htext).
    + symmetry. apply orb_true_iff.
      destruct Hout as [Hlow | Hhigh].
      * left. apply Z.ltb_lt. lia.
      * right. apply andb_true_iff. split.
        -- apply Z.leb_le. lia.
        -- apply negb_true_iff, Z.eqb_neq. exact Hnot.
Qed.

(** C4.  [exists] returns [false] exactly when [head] fails with the
    not-found error, returns [true] exactly when [head] succeeds, and fails
    with the very error of [head] whenever that error is not the not-found
    error; a defect of [head] is a defect of [exists], and both leave the
    same world. *)
Theorem exists_reflects_head (key : string) (w : Effect.World) :
  let h := R2.head rt config httpClient key w in
  let e := R2.exists_ rt config httpClient key w in
  (fst e = Effect.Success false
   <-> exists bucket k, fst h = Effect.Failure (R2NotFoundError bucket k))
  /\ (fst e = Effect.Success true <-> exists object, fst h = Effect.Success object)
  /\ (forall operation message status,
        fst h = Effect.Failure (R2Error operation message status) ->
        fst e = Effect.Failure (R2Error operation message status))
  /\ (forall defect, fst h = Effect.Die defect -> fst e = Effect.Die defect)
  /\ snd e = snd h.
Proof.
  cbv zeta. unfold R2.exists_, catchTag_R2NotFoundError, Effect.map,
    Effect.flatMap, Effect.succeed.
  destruct (R2.head rt config httpClient key w)
    as [[object | [operation message status | bucket k] | defect] w'];
    cbn [fst snd].
  - repeat split; try discriminate; try (intros (? & ? & ?); discriminate).
    intros _. now exists object.
  - repeat split; try discriminate; try (intros (? & ?); discriminate);
      try (intros (? & ? & ?); discriminate).
    intros ? ? ? H. now inversion H.
  - repeat split; try discriminate; try (intros (? & ?); discriminate).
    intros _. now exists bucket, k.
  - repeat split; try discriminate; try (intros (? & ?); discriminate);
      try (intros (? & ? & ?); discriminate).
    intros ? H. now inversion H.
Qed.

End ServiceFacts.

(** ** Objects: [get], [put], [head], [copy] *)

Section ObjectFacts.

Variable rt : Runtime.
Variable config : R2Config.t.
Variable httpClient : Http.Client.

Lemma doSignRequest_inv
  (method url body : string) (extraHeaders : JS.Obj)
  (w w1 : Effect.World) (signed : SignedRequest) :
  R2.doSignRequest (E := R2Failure) rt config method url body extraHeaders w
  = (Effect.Success signed, w1) ->
  w1 = Effect.tick w
  /\ signed_url signed = url
  /\ forall k,
       k <> "host" -> k <> "x-amz-date" -> k <> "x-amz-content-sha256" ->
       k <> "Authorization" ->
       JS.obj_get (signed_headers signed) k
       = JS.obj_get (normalizedHeaders extraHeaders) k.
Proof.
  intros H. destruct (new_URL rt url) as [u|] eqn:Hu.
  - destruct (doSignRequest_success rt config method url body extraHeaders w)
      as (signed' & Hs & Hrest); [congruence |].
    rewrite Hs in H. inversion H; subst. now split.
  - unfold R2.doSignRequest, Effect.promise, Effect.mapError, signRequest in H.
    rewrite Hu in H. discriminate.
Qed.

Lemma send_inv
  (operation method : string) (signed : SignedRequest)
  (body : option (string * string)) (w w1 : Effect.World)
  (response : Http.Response) :
  R2.send httpClient operation method signed body w
  = (Effect.Success response, w1) ->
  w1 = Effect.log w
         (Http.mkRequest method (signed_url signed) (signed_headers signed) body).
Proof.
  unfold R2.send, Effect.mapError, Effect.execute.
  destruct (httpClient _ _); intros H; now inversion H.
Qed.

Lemma fail_after_text {A} (response : Http.Response) (e : string -> R2Failure)
  (w w' : Effect.World) (a : A) :
  (body <- R2.text_or_empty response ;; Effect.fail (e body)) w
  <> (Effect.Success a, w').
Proof.
  destruct (text_or_empty_succeeds response w) as (body & Hbody).
  rewrite (EffectFacts.flatMap_success _ _ _ _ _ Hbody). discriminate.
Qed.

(** *** The headers that [put] sends *)

Lemma content_type_stays_first (ct : string) (hs : JS.Obj) (k v : string) :
  (exists rest,
      hs = ("content-type", ct) :: rest
      /\ Forall (fun kv => JS.toLowerCase (fst kv) <> "content-type") rest) ->
  JS.toLowerCase k <> "content-type" -> JS.array_index k = None ->
  exists rest,
    JS.obj_set hs k v = ("content-type", ct) :: rest
    /\ Forall (fun kv => JS.toLowerCase (fst kv) <> "content-type") rest.
Proof.
  intros (rest & -> & Hrest) Hk Hi. exists (JS.obj_set rest k v). split.
  - apply ObjFacts.set_behind_first; [| exact Hi].
    intros <-. now apply Hk.
  - now apply (ObjFacts.Forall_set
                 (fun k => JS.toLowerCase k <> "content-type")).
Qed.

Lemma put_headers_shape (options : R2PutOptions.t) :
  exists rest,
    R2.put_headers options
    = ("content-type",
       match R2PutOptions.contentType options with
       | Some c => c
       | None => "application/octet-stream"
       end) :: rest
    /\ Forall (fun kv => JS.toLowerCase (fst kv) <> "content-type") rest.
Proof.
  unfold R2.put_headers.
  set (ct := match R2PutOptions.contentType options with
             | Some c => c
             | None => "application/octet-stream"
             end).
  assert (H0 : exists rest,
             [("content-type", ct)] = ("content-type", ct) :: rest
             /\ Forall (fun kv => JS.toLowerCase (fst kv) <> "content-type") rest)
    by (exists []; split; [reflexivity | constructor]).
  assert (H1 : exists rest,
             (if JS.truthy (R2PutOptions.cacheControl options)
              then JS.obj_set [("content-type", ct)] "cache-control"
                     (match R2PutOptions.cacheControl options with
                      | Some v => v | None => EmptyString end)
              else [("content-type", ct)])
             = ("content-type", ct) :: rest
             /\ Forall (fun kv => JS.toLowerCase (fst kv) <> "content-type") rest).
  { destruct (JS.truthy (R2PutOptions.cacheControl options)); [| exact H0].
    apply content_type_stays_first; [exact H0 | discriminate | reflexivity]. }
  clear H0. revert H1.
  generalize (if JS.truthy (R2PutOptions.cacheControl options)
              then JS.obj_set [("content-type", ct)] "cache-control"
                     (match R2PutOptions.cacheControl options with
                      | Some v => v | None => EmptyString end)
              else [("content-type", ct)]).
  intros hs1 H1.
  assert (H2 : exists rest,
             (if JS.truthy (R2PutOptions.contentDisposition options)
              then JS.obj_set hs1 "content-disposition"
                     (match R2PutOptions.contentDisposition options with
                      | Some v => v | None => EmptyString end)
              else hs1)
             = ("content-type", ct) :: rest
             /\ Forall (fun kv => JS.toLowerCase (fst kv) <> "content-type") rest).
  { destruct (JS.truthy (R2PutOptions.contentDisposition options)); [| exact H1].
    apply content_type_stays_first; [exact H1 | discriminate | reflexivity]. }
  clear H1. revert H2.
  generalize (if JS.truthy (R2PutOptions.contentDisposition options)
              then JS.obj_set hs1 "content-disposition"
                     (match R2PutOptions.contentDisposition options with
                      | Some v => v | None => EmptyString end)
              else hs1).
  intros hs2 H2.
  destruct (R2PutOptions.customMetadata options) as [meta|]; [| exact H2].
  unfold JS.Object_entries. revert hs2 H2.
  induction meta as [|[k v] meta IH]; intros hs2 H2; [exact H2 |].
  cbn [fold_left fst snd]. apply IH.
  apply content_type_stays_first; [exact H2 | discriminate | reflexivity].
Qed.

Lemma put_headers_content_type (options : R2PutOptions.t) :
  JS.obj_get (normalizedHeaders (R2.put_headers options)) "content-type"
  = Some match R2PutOptions.contentType options with
         | Some c => c
         | None => "application/octet-stream"
         end.
Proof.
  destruct (put_headers_shape options) as (rest & -> & Hrest).
  unfold normalizedHeaders, JS.Object_entries. cbn [fold_left fst snd].
  rewrite ObjFacts.get_fold_other by exact Hrest.
  apply ObjFacts.get_set_same.
Qed.

(** C10.  When [options.contentType] is omitted, a [put] that succeeds has
    sent one request, a PUT whose [content-type] header and whose body
    content type are [application/octet-stream], and returns a descriptor
    whose [httpMetadata.contentType] is absent. *)
Theorem put_default_content_type
  (key : string) (body : PutBody) (options : R2PutOptions.t)
  (w w' : Effect.World) (object : R2Object.t) :
  R2PutOptions.contentType options = None ->
  R2.put rt config httpClient key body options w = (Effect.Success object, w') ->
  (exists request,
      Effect.sent w' = (Effect.sent w ++ [request])%list
      /\ Http.method request = "PUT"
      /\ JS.obj_get (Http.headers request) "content-type"
         = Some "application/octet-stream"
      /\ option_map snd (Http.body request) = Some "application/octet-stream")
  /\ option_map HttpMetadata.contentType (R2Object.httpMetadata object)
     = Some None.
Proof.
  intros Hnone Hput. unfold R2.put in Hput.
  destruct (R2.bodyBytes body) as [[buffer byteOffset] byteLength].
  apply EffectFacts.flatMap_inv in Hput.
  destruct Hput as (signed & w1 & Hsign & Hput).
  apply doSignRequest_inv in Hsign. destruct Hsign as (-> & Hurl & Hheaders).
  apply EffectFacts.flatMap_inv in Hput.
  destruct Hput as (response & w2 & Hsend & Hput).
  apply send_inv in Hsend. subst w2.
  destruct (R2.outside_2xx (Http.status response)).
  - now apply fail_after_text in Hput.
  - unfold Effect.flatMap, Effect.new_Date, Effect.succeed in Hput.
    inversion Hput; subst; clear Hput. split.
    + eexists. split; [reflexivity |]. split; [reflexivity |].
      cbn [Http.headers Http.body option_map snd]. split.
      * rewrite Hheaders by discriminate.
        rewrite put_headers_content_type. now rewrite Hnone.
      * now rewrite Hnone.
    + cbn. now rewrite Hnone.
Qed.

Lemma head_customMetadata (key : string) (w w' : Effect.World)
  (object : R2Object.t) :
  R2.head rt config httpClient key w = (Effect.Success object, w') ->
  R2Object.customMetadata object = None.
Proof.
  unfold R2.head. intros H.
  apply EffectFacts.flatMap_inv in H. destruct H as (signed & w1 & _ & H).
  apply EffectFacts.flatMap_inv in H. destruct H as (response & w2 & _ & H).
  destruct (Http.status response =? 404)%Z; [discriminate |].
  destruct (R2.outside_2xx (Http.status response)); [discriminate |].
  apply EffectFacts.flatMap_inv in H. destruct H as (lm & w3 & _ & H).
  unfold Effect.succeed in H. now inversion H.
Qed.

Lemma put_customMetadata
  (key : string) (body : PutBody) (options : R2PutOptions.t)
  (w w' : Effect.World) (object : R2Object.t) :
  R2.put rt config httpClient key body options w = (Effect.Success object, w') ->
  R2Object.customMetadata object = R2PutOptions.customMetadata options.
Proof.
  unfold R2.put. destruct (R2.bodyBytes body) as [[buffer byteOffset] byteLength].
  intros H.
  apply EffectFacts.flatMap_inv in H. destruct H as (signed & w1 & _ & H).
  apply EffectFacts.flatMap_inv in H. destruct H as (response & w2 & _ & H).
  destruct (R2.outside_2xx (Http.status response)).
  - now apply fail_after_text in H.
  - unfold Effect.flatMap, Effect.new_Date, Effect.succeed in H.
    now inversion H.
Qed.

(** C9.  The descriptor that [head] returns has no custom metadata, so
    when [get] and [head] of the source succeed, [copy] is the [put] of
    the data under the destination key with the content type that [head]
    saw and with [customMetadata] undefined, and the descriptor of the
    copy has no custom metadata either. *)
Theorem copy_without_custom_metadata
  (sourceKey destKey data : string) (w w1 w2 : Effect.World)
  (sourceMeta : R2Object.t) :
  R2.get rt config httpClient sourceKey w = (Effect.Success data, w1) ->
  R2.head rt config httpClient sourceKey w1 = (Effect.Success sourceMeta, w2) ->
  R2Object.customMetadata sourceMeta = None
  /\ (exists contentType,
        R2.copy rt config httpClient sourceKey destKey w
        = R2.put rt config httpClient destKey (BodyArrayBuffer data)
            (R2PutOptions.make contentType None None None) w2)
  /\ forall object w3,
       R2.copy rt config httpClient sourceKey destKey w
       = (Effect.Success object, w3) ->
       R2Object.customMetadata object = None.
Proof.
  intros Hget Hhead.
  pose proof (head_customMetadata _ _ _ _ Hhead) as Hmeta.
  assert (Hcopy :
    R2.copy rt config httpClient sourceKey destKey w
    = R2.put rt config httpClient destKey (BodyArrayBuffer data)
        (R2PutOptions.make
           (match R2Object.httpMetadata sourceMeta with
            | Some m => HttpMetadata.contentType m
            | None => None
            end) None None None) w2).
  { unfold R2.copy.
    rewrite (EffectFacts.flatMap_success _ _ _ _ _ Hget).
    rewrite (EffectFacts.flatMap_success _ _ _ _ _ Hhead).
    now rewrite Hmeta. }
  split; [exact Hmeta |]. split; [eexists; exact Hcopy |].
  intros object w3 H. rewrite Hcopy in H.
  now apply put_customMetadata in H.
Qed.

(** C8, amended.  When the transport answers 2xx with a body that is not
    valid JSON, [getJson] does not fail with a typed error: the
    [SyntaxError] that [JSON.parse] throws is a defect of the effect,
    outside the error channel, which holds [R2Error] and
    [R2NotFoundError] only. *)
Theorem getJson_invalid_json_is_defect
  (key buffer : string) (response : Http.Response) (w : Effect.World) :
  new_URL rt (R2.object_url config key) <> None ->
  answers_with httpClient response ->
  (200 <= Http.status response < 300)%Z ->
  Http.arrayBuffer response = Ok buffer ->
  JSON_parse rt (TextDecoder_decode buffer) = None ->
  fst (R2.getJson rt config httpClient key w)
  = Effect.Die (SyntaxError "JSON.parse").
Proof.
  intros Hurl Hanswers Hstatus Hbuffer Hjson.
  destruct (doSignRequest_success rt config "GET" (R2.object_url config key)
              EmptyString [] w Hurl) as (signed & Hsign & _).
  assert (Hget :
    R2.get rt config httpClient key w
    = (Effect.Success buffer,
       Effect.log (Effect.tick w)
         (Http.mkRequest "GET" (signed_url signed) (signed_headers signed) None))).
  { unfold R2.get.
    rewrite (EffectFacts.flatMap_success _ _ _ _ _ Hsign).
    rewrite (EffectFacts.flatMap_success _ _ _ _ _
               (send_answer httpClient "get" "GET" signed None _ response
                  (Hanswers _ _))).
    replace (Http.status response =? 404)%Z with false
      by (symmetry; apply Z.eqb_neq; lia).
    replace (R2.outside_2xx (Http.status response)) with false.
    - unfold Effect.mapError, Effect.of_attempt. now rewrite Hbuffer.
    - symmetry. apply orb_false_iff. split.
      + apply Z.ltb_ge. lia.
      + apply Z.leb_gt. lia. }
  unfold R2.getJson, R2.getText.
  unfold Effect.flatMap at 1. unfold Effect.flatMap at 1.
  rewrite Hget. unfold Effect.succeed at 1.
  now rewrite Hjson.
Qed.

End ObjectFacts.

(** ** Listing *)

Module ParamsFacts.

Import Whatwg.

Lemma params_get_filter_other (l : Params) (name name' : string) :
  name' <> name ->
  params_get (List.filter (fun nv => negb (String.eqb (fst nv) name)) l) name'
  = params_get l name'.
Proof.
  intros Hn. unfold params_get.
  induction l as [|[n v] t IH]; simpl; [reflexivity |].
  destruct (String.eqb_spec n name) as [-> | Hneq]; simpl.
  - destruct (String.eqb_spec name name'); [congruence | exact IH].
  - now rewrite IH.
Qed.

Lemma params_has_not_get (l : Params) (name : string) :
  params_has l name = false -> params_get l name = None.
Proof.
  unfold params_has, params_get.
  induction l as [|[n v] t IH]; simpl; [reflexivity |].
  destruct (String.eqb n name); [discriminate | exact IH].
Qed.

Lemma params_get_replace_same (l : Params) (name value : string) :
  params_has l name = true ->
  params_get (params_replace l name value) name = Some value.
Proof.
  unfold params_has, params_get.
  induction l as [|[n v] t IH]; simpl; [discriminate |].
  destruct (String.eqb n name) eqn:E; simpl; rewrite E; [reflexivity | exact IH].
Qed.

Lemma params_get_replace_other (l : Params) (name value name' : string) :
  name' <> name ->
  params_get (params_replace l name value) name' = params_get l name'.
Proof.
  intros Hn. induction l as [|[n v] t IH]; simpl; [reflexivity |].
  destruct (String.eqb_spec n name) as [-> | Hneq].
  - unfold params_get. simpl.
    destruct (String.eqb_spec name name'); [congruence |].
    now apply params_get_filter_other.
  - unfold params_get in *. simpl. now rewrite IH.
Qed.

Lemma params_get_set_same (l : Params) (name value : string) :
  params_get (params_set l name value) name = Some value.
Proof.
  unfold params_set. destruct (params_has l name) eqn:E.
  - now apply params_get_replace_same.
  - unfold params_get. rewrite ObjFacts.get_app.
    fold (params_get l name). rewrite (params_has_not_get _ _ E).
    now rewrite String.eqb_refl.
Qed.

Lemma params_get_set_other (l : Params) (name value name' : string) :
  name' <> name ->
  params_get (params_set l name value) name' = params_get l name'.
Proof.
  intros Hn. unfold params_set. destruct (params_has l name).
  - now apply params_get_replace_other.
  - unfold params_get. rewrite ObjFacts.get_app.
    destruct (JS.obj_get l name'); [reflexivity |].
    destruct (String.eqb_spec name name'); [congruence | reflexivity].
Qed.

End ParamsFacts.

Section ListFacts.

Variable rt : Runtime.
Variable config : R2Config.t.
Variable httpClient : Http.Client.

(** The query of a page of [listAll] asks for at most 1000 keys and
    carries the cursor it was given. *)
Lemma list_params_limit (prefix cursor : option string) :
  Whatwg.params_get
    (R2.list_params (R2ListOptions.make prefix None cursor (Some 1000%Z)))
    "max-keys"
  = Some "1000".
Proof. unfold R2.list_params. cbn. apply ParamsFacts.params_get_set_same. Qed.

Lemma list_params_cursor (prefix : option string) (c : string) :
  c <> EmptyString ->
  Whatwg.params_get
    (R2.list_params (R2ListOptions.make prefix None (Some c) (Some 1000%Z)))
    "continuation-token"
  = Some c.
Proof.
  intros Hc. unfold R2.list_params. cbn.
  rewrite (StrFacts.is_empty_false _ Hc).
  rewrite ParamsFacts.params_get_set_other by discriminate.
  apply ParamsFacts.params_get_set_same.
Qed.

Lemma list_params_first_page (prefix : option string) :
  Whatwg.params_get
    (R2.list_params (R2ListOptions.make prefix None None (Some 1000%Z)))
    "continuation-token"
  = None.
Proof.
  unfold R2.list_params. cbn.
  rewrite ParamsFacts.params_get_set_other by discriminate.
  destruct prefix as [p|]; [destruct (Str.is_empty p) |]; reflexivity.
Qed.

Lemma object_of_contents_sent (content : string) (w : Effect.World) :
  Effect.sent (snd (R2.object_of_contents rt config content w)) = Effect.sent w.
Proof.
  unfold R2.object_of_contents.
  destruct (getTag "Key" content) as [k|]; [| reflexivity].
  destruct (Str.is_empty k); [reflexivity |].
  destruct (JS.truthy (getTag "LastModified" content)); reflexivity.
Qed.

Lemma forEach_sent {A B} (f : A -> Effect.t R2Failure B) (l : Datatypes.list A) :
  (forall a w, Effect.sent (snd (f a w)) = Effect.sent w) ->
  forall w, Effect.sent (snd (Effect.forEach f l w)) = Effect.sent w.
Proof.
  intros Hf. induction l as [|a l IH]; intros w; [reflexivity |].
  cbn [Effect.forEach]. unfold Effect.flatMap at 1.
  specialize (Hf a w). destruct (f a w) as [[b|e|d] w1]; cbn [snd] in *;
    try exact Hf.
  unfold Effect.flatMap. specialize (IH w1).
  destruct (Effect.forEach f l w1) as [[bs|e|d] w2];
    unfold Effect.succeed; cbn [snd] in *; congruence.
Qed.

Lemma getContents_sent (text : string) (w : Effect.World) :
  Effect.sent (snd (R2.getContents rt config text w)) = Effect.sent w.
Proof.
  unfold R2.getContents, Effect.map, Effect.flatMap.
  pose proof (forEach_sent (R2.object_of_contents rt config)
                (contents_from 0 text) (object_of_contents_sent) w) as H.
  destruct (Effect.forEach _ _ w) as [[bs|e|d] w1]; exact H.
Qed.

(** A [list] that succeeds has sent one request, a GET of its URL. *)
Lemma list_inv (options : R2ListOptions.t) (w w' : Effect.World)
  (page : R2ListResult.t) :
  R2.list rt config httpClient options w = (Effect.Success page, w') ->
  exists request,
    Effect.sent w' = (Effect.sent w ++ [request])%list
    /\ Http.method request = "GET"
    /\ Http.url request = R2.list_url config options.
Proof.
  unfold R2.list. intros H.
  apply EffectFacts.flatMap_inv in H. destruct H as (signed & w1 & Hsign & H).
  apply doSignRequest_inv in Hsign. destruct Hsign as (-> & Hurl & _).
  apply EffectFacts.flatMap_inv in H. destruct H as (response & w2 & Hsend & H).
  apply send_inv in Hsend. subst w2.
  destruct (R2.outside_2xx (Http.status response)).
  - now apply fail_after_text in H.
  - apply EffectFacts.flatMap_inv in H. destruct H as (xml & w3 & Hxml & H).
    apply EffectFacts.mapError_inv in Hxml.
    assert (w3 = Effect.log (Effect.tick w)
                   (Http.mkRequest "GET" (signed_url signed)
                      (signed_headers signed) None)) as ->.
    { unfold Effect.of_attempt in Hxml.
      destruct (Http.text response); now inversion Hxml. }
    apply EffectFacts.flatMap_inv in H. destruct H as (objects & w4 & Hobj & H).
    unfold Effect.succeed in H. inversion H; subst; clear H.
    pose proof (getContents_sent xml
                  (Effect.log (Effect.tick w)
                     (Http.mkRequest "GET" (signed_url signed)
                        (signed_headers signed) None))) as Hsent.
    rewrite Hobj in Hsent. cbn [snd] in Hsent.
    eexists. split; [exact Hsent |]. split; [reflexivity | exact Hurl].
Qed.

Lemma object_of_contents_succeeds (content : string) (w : Effect.World) :
  exists o w', R2.object_of_contents rt config content w = (Effect.Success o, w').
Proof.
  unfold R2.object_of_contents.
  destruct (getTag "Key" content) as [k|]; [| now eexists; eexists].
  destruct (Str.is_empty k); [now eexists; eexists |].
  destruct (JS.truthy (getTag "LastModified" content)); now eexists; eexists.
Qed.

Lemma getContents_succeeds (text : string) (w : Effect.World) :
  exists objects w',
    R2.getContents rt config text w = (Effect.Success objects, w').
Proof.
  unfold R2.getContents, Effect.map.
  assert (H : forall l w0,
             exists os w',
               Effect.forEach (R2.object_of_contents rt config) l w0
               = (Effect.Success os, w')).
  { induction l as [|c l IH]; intros w0; [now eexists; eexists |].
    cbn [Effect.forEach].
    destruct (object_of_contents_succeeds c w0) as (o & w1 & Ho).
    rewrite (EffectFacts.flatMap_success _ _ _ _ _ Ho).
    destruct (IH w1) as (os & w2 & Hos).
    rewrite (EffectFacts.flatMap_success _ _ _ _ _ Hos).
    now eexists; eexists. }
  destruct (H (contents_from 0 text) w) as (os & w' & Hos).
  rewrite (EffectFacts.flatMap_success _ _ _ _ _ Hos).
  now eexists; eexists.
Qed.

(** What [list] returns as [delimitedPrefixes] for a response it can read:
    the captured [<Prefix>] values whose wrapped form is a substring of the
    response, wherever the captured tag itself stands. *)
Lemma list_delimitedPrefixes
  (options : R2ListOptions.t) (response : Http.Response) (xml : string)
  (w : Effect.World) :
  new_URL rt (R2.list_url config options) <> None ->
  answers_with httpClient response ->
  (200 <= Http.status response < 300)%Z ->
  Http.text response = Ok xml ->
  exists page,
    fst (R2.list rt config httpClient options w) = Effect.Success page
    /\ R2ListResult.delimitedPrefixes page
       = List.filter
           (fun p => Str.includes
                       ("<CommonPrefixes><Prefix>" ++ p
                        ++ "</Prefix></CommonPrefixes>") xml)
           (getAllTags "Prefix" xml).
Proof.
  intros Hurl Hanswers Hstatus Hxml. unfold R2.list.
  destruct (doSignRequest_success rt config "GET" (R2.list_url config options)
              EmptyString [] w Hurl) as (signed & Hsign & _).
  rewrite (EffectFacts.flatMap_success _ _ _ _ _ Hsign).
  rewrite (EffectFacts.flatMap_success _ _ _ _ _
             (send_answer httpClient "list" "GET" signed None _ response
                (Hanswers _ _))).
  replace (R2.outside_2xx (Http.status response)) with false.
  - unfold Effect.flatMap at 1, Effect.mapError, Effect.of_attempt.
    rewrite Hxml. unfold Effect.succeed at 1.
    destruct (getContents_succeeds xml
                (Effect.log (Effect.tick w)
                   (Http.mkRequest "GET" (signed_url signed)
                      (signed_headers signed) None)))
      as (objects & w' & Hobjects).
    rewrite (EffectFacts.flatMap_success _ _ _ _ _ Hobjects).
    eexists. split; reflexivity.
  - symmetry. apply orb_false_iff. split.
    + apply Z.ltb_ge. lia.
    + apply Z.leb_gt. lia.
Qed.

Lemma pages_from_not_empty prefix cursor w pages w' :
  R2.pages_from rt config httpClient prefix cursor w pages w' -> pages <> [].
Proof. destruct 1; discriminate. Qed.

Lemma listAll_loop_pages prefix cursor w pages w' :
  R2.pages_from rt config httpClient prefix cursor w pages w' ->
  forall fuel allObjects,
    List.length pages <= fuel ->
    R2.listAll_loop rt config httpClient fuel prefix cursor allObjects w
    = (Effect.Success
         (Some (allObjects ++ List.flat_map R2ListResult.objects pages)%list),
       w')
    /\ exists requests,
         Effect.sent w' = (Effect.sent w ++ requests)%list
         /\ List.map Http.url requests
            = List.map
                (fun c => R2.list_url config
                            (R2ListOptions.make prefix None c (Some 1000%Z)))
                (cursor :: R2.following_cursors pages).
Proof.
  induction 1 as [cursor w page w' Hlist Htrunc
                 |cursor w page w1 c pages w' Hlist Htrunc Hcursor Hc Hrest IH];
    intros fuel allObjects Hfuel.
  - destruct fuel as [|fuel]; [cbn in Hfuel; lia |].
    cbn [R2.listAll_loop].
    rewrite (EffectFacts.flatMap_success _ _ _ _ _ Hlist).
    unfold R2.next_cursor. rewrite Htrunc. cbn [JS.truthy].
    cbn [List.flat_map]. rewrite app_nil_r. split; [reflexivity |].
    destruct (list_inv _ _ _ _ Hlist) as (request & Hsent & _ & Hurl).
    exists [request]. split; [exact Hsent |].
    cbn [List.map R2.following_cursors]. now rewrite Hurl.
  - destruct fuel as [|fuel]; [cbn in Hfuel; lia |].
    cbn [List.length] in Hfuel.
    destruct (IH fuel (allObjects ++ R2ListResult.objects page)%list)
      as (Hloop & requests & Hsent & Hurls); [lia |].
    cbn [R2.listAll_loop].
    rewrite (EffectFacts.flatMap_success _ _ _ _ _ Hlist).
    unfold R2.next_cursor. rewrite Htrunc, Hcursor. cbn [JS.truthy].
    rewrite (StrFacts.is_empty_false _ Hc). cbn [negb].
    rewrite Hloop. cbn [List.flat_map]. rewrite app_assoc.
    split; [reflexivity |].
    destruct (list_inv _ _ _ _ Hlist) as (request & Hsent1 & _ & Hurl).
    exists (request :: requests). split.
    + rewrite Hsent, Hsent1, <- app_assoc. reflexivity.
    + pose proof (pages_from_not_empty _ _ _ _ _ Hrest) as Hne.
      destruct pages as [|page2 pages]; [congruence |].
      cbn [List.map R2.following_cursors]. cbn [List.map] in Hurls.
      now rewrite Hurl, Hcursor, Hurls.
Qed.

(** C6.  For every finite chain of pages linked by continuation cursors,
    [listAll] terminates (any fuel that covers the number of pages gives
    the result) and returns the concatenation, in page order, of the
    objects of every page; it sends one request per page and no more, the
    first without a cursor and each later one with the cursor of the page
    before it, every one with a limit of 1000. *)
Theorem listAll_concatenates_pages
  (prefix : option string) (w w' : Effect.World)
  (pages : Datatypes.list R2ListResult.t) :
  R2.pages_from rt config httpClient prefix None w pages w' ->
  forall fuel,
    List.length pages <= fuel ->
    R2.listAll rt config httpClient fuel prefix w
    = (Effect.Success (Some (List.flat_map R2ListResult.objects pages)), w')
    /\ exists requests,
         Effect.sent w' = (Effect.sent w ++ requests)%list
         /\ List.length requests = List.length pages
         /\ List.map Http.url requests
            = List.map
                (fun c => R2.list_url config
                            (R2ListOptions.make prefix None c (Some 1000%Z)))
                (None :: R2.following_cursors pages).
Proof.
  intros Hpages fuel Hfuel. unfold R2.listAll.
  destruct (listAll_loop_pages _ _ _ _ _ Hpages fuel [] Hfuel)
    as (Hloop & requests & Hsent & Hurls).
  split; [exact Hloop |]. exists requests. split; [exact Hsent |].
  split; [| exact Hurls].
  apply (f_equal (@List.length _)) in Hurls. rewrite !length_map in Hurls.
  rewrite Hurls. cbn [List.length].
  clear - Hpages. induction Hpages as [| ? ? ? ? ? pages ? ? ? ? ? Hrest IH].
  - reflexivity.
  - pose proof (pages_from_not_empty _ _ _ _ _ Hrest) as Hne.
    destruct pages as [|page2 pages]; [congruence |].
    cbn [R2.following_cursors List.length] in *. now rewrite IH.
Qed.

End ListFacts.

(** ** The ETag of a stored object *)

Section EtagFacts.

Variable rt : Runtime.
Variable config : R2Config.t.
Variable httpClient : Http.Client.

(** A [put] that the transport answers with a 2xx status returns the
    [etag] header of the answer as it is, or the empty string without
    one. *)
Lemma put_etag_verbatim
  (key : string) (body : PutBody) (options : R2PutOptions.t)
  (response : Http.Response) (w : Effect.World) :
  new_URL rt (R2.object_url config key) <> None ->
  answers_with httpClient response ->
  (200 <= Http.status response < 300)%Z ->
  exists object,
    fst (R2.put rt config httpClient key body options w) = Effect.Success object
    /\ R2Object.etag object
       = match JS.obj_get (Http.response_headers response) "etag" with
         | Some e => e
         | None => EmptyString
         end.
Proof.
  intros Hurl Hanswers Hstatus. unfold R2.put.
  destruct (R2.bodyBytes body) as [[buffer byteOffset] byteLength].
  destruct (doSignRequest_success rt config "PUT" (R2.object_url config key)
              buffer (R2.put_headers options) w Hurl) as (signed & Hsign & _).
  rewrite (EffectFacts.flatMap_success _ _ _ _ _ Hsign).
  rewrite (EffectFacts.flatMap_success _ _ _ _ _
             (send_answer httpClient "put" "PUT" signed _ _ response
                (Hanswers _ _))).
  replace (R2.outside_2xx (Http.status response)) with false.
  - unfold Effect.flatMap, Effect.new_Date, Effect.succeed. cbn [fst].
    eexists. split; reflexivity.
  - symmetry. apply orb_false_iff. split.
    + apply Z.ltb_ge. lia.
    + apply Z.leb_gt. lia.
Qed.

End EtagFacts.

(** ** The examples *)

Module Examples.

Import Fixture.

(** C1, at two worlds whose clocks differ except for the next reading. *)
Lemma signRequest_deterministic_witness :
  fst (signRequest runtime "GET"
         "https://acct.r2.cloudflarestorage.com/bucket/a.txt" []
         EmptyString "AK" "SK" "auto" world)
  = fst (signRequest runtime "GET"
           "https://acct.r2.cloudflarestorage.com/bucket/a.txt" []
           EmptyString "AK" "SK" "auto" later_world).
Proof.
  apply (signRequest_deterministic runtime "GET"
           "https://acct.r2.cloudflarestorage.com/bucket/a.txt" []
           EmptyString "AK" "SK" "auto" world later_world).
  reflexivity.
Defined.

(** C2, at a descriptor whose credentials need encoding. *)
Lemma parseR2Url_toR2Url_witness :
  exists s,
    toR2Url runtime keyed_config = Returned s
    /\ parseR2Url runtime s = Returned keyed_config.
Proof.
  apply (parseR2Url_toR2Url runtime keyed_config);
    try discriminate; split; (discriminate || reflexivity).
Defined.

(** C2 fails at a bucket name with a space: the string that [toR2Url]
    returns is read back with the percent-encoded name. *)
Lemma toR2Url_spaced_bucket :
  R2Config.accessKeyId spaced_bucket <> EmptyString
  /\ R2Config.secretAccessKey spaced_bucket <> EmptyString
  /\ R2Config.accountId spaced_bucket <> EmptyString
  /\ R2Config.bucket spaced_bucket <> EmptyString
  /\ toR2Url runtime spaced_bucket = Returned "r2://AK:SK@acct/my%20bucket"
  /\ parseR2Url runtime "r2://AK:SK@acct/my%20bucket"
     = Returned (R2Config.make "acct" "AK" "SK" "my%20bucket" None)
  /\ ~ (exists s,
          toR2Url runtime spaced_bucket = Returned s
          /\ parseR2Url runtime s = Returned spaced_bucket).
Proof.
  repeat (split; [discriminate |]).
  split; [reflexivity |]. split; [reflexivity |].
  intros (s & Hs & Hp).
  assert (s = "r2://AK:SK@acct/my%20bucket") as ->
    by (vm_compute in Hs; now inversion Hs).
  vm_compute in Hp. discriminate.
Qed.

(** C3 at its scenario: the descriptor has the key, the size and the
    content type, and an ETag that still has its two quote characters. *)
Theorem put_returns_quoted_etag :
  exists lastModified,
    fst (R2.put runtime config
           (answering 200 [("etag", quoted "abc123")] EmptyString)
           "a/b.txt" (BodyString "hi")
           (R2PutOptions.make (Some "text/plain") None None None) world)
    = Effect.Success
        (R2Object.make "a/b.txt" (JS.Num 2) (quoted "abc123") lastModified None
           (Some (HttpMetadata.make (Some "text/plain") None None None None))
           None)
    /\ quoted "abc123" <> "abc123".
Proof. eexists. split; [reflexivity | discriminate]. Qed.

(** C5, at a transport that answers 404. *)
Lemma delete_by_status_witness :
  fst (R2.delete runtime config (answering 404 [] EmptyString) "a/b.txt" world)
  = Effect.Success tt.
Proof.
  apply (delete_by_status runtime config (answering 404 [] EmptyString)
           "a/b.txt" 404 world).
  - discriminate.
  - intros history request. eexists. split; reflexivity.
  - left. reflexivity.
Defined.

(** C6, at a bucket listed in two pages. *)
Lemma listAll_concatenates_pages_witness :
  exists pages w',
    R2.listAll runtime config two_pages 2 (Some "a/") world
    = (Effect.Success (Some (List.flat_map R2ListResult.objects pages)), w')
    /\ List.map R2ListResult.truncated pages = [true; false].
Proof.
  eexists. eexists. split.
  - apply (listAll_concatenates_pages runtime config two_pages (Some "a/") world).
    + eapply R2.next_page;
        [lazy; reflexivity | reflexivity | reflexivity | discriminate |].
      eapply R2.last_page; [lazy; reflexivity | reflexivity].
    + apply le_n.
  - reflexivity.
Defined.

(** C7 fails at a response laid out with white space: the prefix inside
    the [CommonPrefixes] wrapper is not returned. *)
Theorem list_drops_spaced_common_prefix :
  fst (R2.list runtime config (answering 200 [] spaced_prefixes)
         (R2ListOptions.make None (Some "/") None None) world)
  = Effect.Success (R2ListResult.make [] false None [])
  /\ getAllTags "Prefix" spaced_prefixes = ["photos/"].
Proof. split; reflexivity. Qed.

(** And at a response that echoes a requested prefix equal to a common
    prefix, the echoed tag outside the wrapper is returned as well. *)
Lemma list_returns_echoed_prefix :
  fst (R2.list runtime config (answering 200 [] echoed_prefix)
         (R2ListOptions.make (Some "a/") (Some "/") None None) world)
  = Effect.Success (R2ListResult.make [] false None ["a/"; "a/"]).
Proof. reflexivity. Qed.

(** C8 fails at a body that is not JSON: the outcome of [getJson] is a
    defect, not a failure of any error kind. *)
Lemma getJson_not_a_typed_failure :
  JSON_parse runtime "not json" = None
  /\ fst (R2.getJson runtime config (answering 200 [] "not json") "data.json" world)
     = Effect.Die (SyntaxError "JSON.parse")
  /\ ~ (exists e,
          fst (R2.getJson runtime config (answering 200 [] "not json")
                 "data.json" world)
          = Effect.Failure e).
Proof.
  split; [reflexivity |]. split; [reflexivity |].
  intros (e & H). vm_compute in H. discriminate.
Qed.

Lemma getJson_invalid_json_is_defect_witness :
  fst (R2.getJson runtime config (answering 200 [] "not json") "data.json" world)
  = Effect.Die (SyntaxError "JSON.parse").
Proof.
  apply (getJson_invalid_json_is_defect runtime config
           (answering 200 [] "not json") "data.json" "not json"
           (Http.mkResponse 200 [] (Ok "not json") (Ok "not json")) world).
  - discriminate.
  - intros history request. reflexivity.
  - cbn. lia.
  - reflexivity.
  - reflexivity.
Defined.

(** C9, at a source whose answer carries a metadata header. *)
Lemma copy_without_custom_metadata_witness :
  exists data w1 sourceMeta w2,
    R2.get runtime config
      (answering 200 [("x-amz-meta-source", "test")] "hello") "a.txt" world
    = (Effect.Success data, w1)
    /\ R2.head runtime config
         (answering 200 [("x-amz-meta-source", "test")] "hello") "a.txt" w1
       = (Effect.Success sourceMeta, w2)
    /\ R2Object.customMetadata sourceMeta = None.
Proof.
  eexists. eexists. eexists. eexists.
  assert (Hget : R2.get runtime config
                   (answering 200 [("x-amz-meta-source", "test")] "hello")
                   "a.txt" world
                 = (Effect.Success "hello",
                    snd (R2.get runtime config
                           (answering 200 [("x-amz-meta-source", "test")] "hello")
                           "a.txt" world)))
    by reflexivity.
  split; [exact Hget |]. split; [lazy; reflexivity |].
  refine (proj1 (copy_without_custom_metadata runtime config
                   (answering 200 [("x-amz-meta-source", "test")] "hello")
                   "a.txt" "b.txt" "hello" world _ _ _ Hget _)).
  lazy. reflexivity.
Defined.

(** C10, at a [put] without options. *)
Lemma put_default_content_type_witness :
  exists object w',
    R2.put runtime config (answering 200 [] EmptyString) "a.bin"
      (BodyString "hi") R2PutOptions.none world
    = (Effect.Success object, w')
    /\ option_map HttpMetadata.contentType (R2Object.httpMetadata object)
       = Some None
    /\ List.map (fun r => JS.obj_get (Http.headers r) "content-type")
         (Effect.sent w')
       = [Some "application/octet-stream"].
Proof.
  eexists. eexists.
  assert (Hput : R2.put runtime config (answering 200 [] EmptyString) "a.bin"
                   (BodyString "hi") R2PutOptions.none world
                 = (fun r => (fst r, snd r))
                     (R2.put runtime config (answering 200 [] EmptyString)
                        "a.bin" (BodyString "hi") R2PutOptions.none world))
    by reflexivity.
  lazy in Hput.
  split; [exact Hput |].
  split; [| reflexivity].
  exact (proj2 (put_default_content_type runtime config
                  (answering 200 [] EmptyString) "a.bin" (BodyString "hi")
                  R2PutOptions.none world _ _ eq_refl Hput)).
Defined.

End Examples.

(** * Further properties of the code *)

(** ** More about strings *)

Module StrMore.

Lemma length_app (a b : string) :
  String.length (a ++ b) = String.length a + String.length b.
Proof. induction a as [|c a IH]; simpl; [reflexivity | now rewrite IH]. Qed.

Lemma rev_append_app (a b acc : string) :
  Str.rev_append (a ++ b) acc = Str.rev_append b (Str.rev_append a acc).
Proof.
  revert acc. induction a as [|c a IH]; intros acc; simpl; [reflexivity |].
  apply IH.
Qed.

Lemma rev_snoc (q : string) (c : ascii) :
  Str.rev (q ++ String c EmptyString) = String c (Str.rev q).
Proof. unfold Str.rev. now rewrite rev_append_app. Qed.

Lemma prefix_nil (s : string) : String.prefix EmptyString s = true.
Proof. now destruct s. Qed.

Lemma prefix_split (p s : string) :
  String.prefix p s = true -> s = p ++ Str.drop (String.length p) s.
Proof.
  revert s. induction p as [|c p IH]; intros s H; [reflexivity |].
  destruct s as [|d s]; [discriminate |]. simpl in H.
  destruct (ascii_dec c d) as [<- |]; [| discriminate].
  simpl. f_equal. now apply IH.
Qed.

Lemma drop_app (a b : string) : Str.drop (String.length a) (a ++ b) = b.
Proof. induction a as [|c a IH]; simpl; [now destruct b | exact IH]. Qed.

Lemma substring_app (a r : string) (n : nat) :
  String.length a = n -> String.substring 0 n (a ++ r) = a.
Proof.
  intros <-. induction a as [|c a IH]; simpl; [now destruct r |].
  now rewrite IH.
Qed.

Lemma break_spec (p : ascii -> bool) (s a b : string) :
  Str.break p s = (a, b) ->
  s = a ++ b /\ Str.forallb (fun c => negb (p c)) a = true.
Proof.
  revert a b. induction s as [|c s IH]; intros a b; simpl.
  - intros H. inversion H. now split.
  - destruct (p c) eqn:Hc.
    + intros H. inversion H. now split.
    + destruct (Str.break p s) as [a' b'] eqn:E. intros H. inversion H; subst.
      destruct (IH a' b eq_refl) as [-> Ha]. split; [reflexivity |].
      simpl. now rewrite Hc, Ha.
Qed.

Lemma includes_here (needle rest : string) :
  Str.includes needle (needle ++ rest) = true.
Proof.
  assert (H : forall hay,
             Str.includes needle hay
             = String.prefix needle hay
               || match hay with
                  | EmptyString => false
                  | String _ r => Str.includes needle r
                  end) by (now destruct hay).
  now rewrite H, ParserFacts.prefix_app.
Qed.

Lemma includes_later (needle : string) (c : ascii) (hay : string) :
  Str.includes needle hay = true -> Str.includes needle (String c hay) = true.
Proof. intros H. simpl. rewrite H. apply orb_true_r. Qed.

Lemma includes_app (needle a rest : string) :
  Str.includes needle rest = true -> Str.includes needle (a ++ rest) = true.
Proof.
  intros H. induction a as [|c a IH]; [exact H |].
  now apply includes_later.
Qed.

Lemma split_not_nil (sep : ascii) (s : string) : Str.split sep s <> [].
Proof.
  destruct s as [|c s]; simpl; [discriminate |].
  destruct (Ascii.eqb c sep); [discriminate |].
  destruct (Str.split sep s); discriminate.
Qed.

Lemma concat_cons_head (sep a h : string) (t : list string) :
  String.concat sep ((a ++ h) :: t) = a ++ String.concat sep (h :: t).
Proof. destruct t; simpl; [reflexivity | apply StrFacts.append_assoc]. Qed.

Lemma trim_id (s : string) :
  Str.forallb Charset.no_space s = true -> JS.trim s = s.
Proof.
  intros H. unfold JS.trim.
  rewrite (StrFacts.drop_while_id JS.is_space s) by exact H.
  rewrite (StrFacts.drop_while_id JS.is_space (Str.rev s))
    by (rewrite StrFacts.forallb_rev; exact H).
  apply StrFacts.rev_involutive.
Qed.

End StrMore.

(** ** Public URLs and keys *)

Section KeyFacts.

Variable rt : Runtime.

(** X1.  With a public prefix configured, [getPublicUrl] joins the prefix
    and the key with one slash whether the prefix is written with a
    trailing slash or without one; without a prefix, or with an empty one,
    there is no public URL. *)
Theorem getPublicUrl_one_separator
  (accountId accessKeyId secretAccessKey bucket q key : string) :
  q <> EmptyString ->
  Str.ends_with "/" q = false ->
  R2.getPublicUrl
    (R2Config.make accountId accessKeyId secretAccessKey bucket (Some q)) key
  = Some (q ++ "/" ++ key)
  /\ R2.getPublicUrl
       (R2Config.make accountId accessKeyId secretAccessKey bucket
          (Some (q ++ "/"))) key
     = Some (q ++ "/" ++ key)
  /\ R2.getPublicUrl
       (R2Config.make accountId accessKeyId secretAccessKey bucket
          (Some EmptyString)) key
     = None
  /\ R2.getPublicUrl
       (R2Config.make accountId accessKeyId secretAccessKey bucket None) key
     = None.
Proof.
  intros Hq Hend. unfold R2.getPublicUrl. cbn [R2Config.publicUrl].
  split; [| split; [| split; reflexivity]].
  - now rewrite (StrFacts.is_empty_false _ Hq), Hend.
  - assert (Hne : Str.is_empty (q ++ "/") = false) by now destruct q.
    rewrite Hne. unfold Str.ends_with, Str.drop_last.
    rewrite StrMore.rev_snoc.
    change (Str.rev "/") with "/". cbn [String.prefix].
    destruct (ascii_dec "/" "/"); [| congruence].
    rewrite StrMore.prefix_nil. cbn [Str.drop].
    now rewrite StrFacts.rev_involutive.
Qed.

(** What [encodeKey] does to one character. *)
Lemma encodeKey_flat (key : string) :
  R2.encodeKey key
  = Str.flat_map
      (fun c => if Ascii.eqb c "/"%char then "/"
                else if negb (JS.uri_unreserved c) then JS.pct c
                else String c EmptyString) key.
Proof.
  unfold R2.encodeKey, Str.join.
  induction key as [|c key IH]; [reflexivity |].
  cbn [Str.split Str.flat_map].
  destruct (Ascii.eqb c "/") eqn:Hc.
  - cbn [List.map]. rewrite <- IH.
    destruct (Str.split "/" key) as [|h t] eqn:E;
      [now apply StrMore.split_not_nil in E |].
    reflexivity.
  - rewrite <- IH.
    destruct (Str.split "/" key) as [|h t] eqn:E;
      [now apply StrMore.split_not_nil in E |].
    cbn [List.map].
    change (JS.encodeURIComponent (String c h))
      with ((if negb (JS.uri_unreserved c) then JS.pct c
             else String c EmptyString) ++ JS.encodeURIComponent h).
    apply StrMore.concat_cons_head.
Qed.

Lemma slash_key_encoded c :
  Ascii.eqb c "/"%char = true ->
  negb (Chr.has_code 37 c) && Charset.key_encoded c = true.
Proof. revert c. by_enumeration. Qed.

Lemma pct_key_encoded c : Str.forallb Charset.key_encoded (JS.pct c) = true.
Proof. revert c. apply ChrFacts.forall_ascii_spec. vm_compute. reflexivity. Qed.

Lemma unreserved_key_encoded c :
  JS.uri_unreserved c = true -> Charset.key_encoded c = true.
Proof. revert c. by_enumeration. Qed.

Lemma key_encoded_safe c :
  Charset.key_encoded c = true ->
  negb (Whatwg.path_end c) && Alphabet.printable c = true.
Proof. revert c. by_enumeration. Qed.

(** X2.  [encodeKey] is undone by [decodeURIComponent], and what it writes
    holds unreserved characters, percent escapes and slashes only: no
    question mark, no hash and no white space of the key reaches the URL,
    so the key never ends the path of the object URL. *)
Theorem encodeKey_round_trip (key : string) :
  JS.decodeURIComponent (R2.encodeKey key) = Some key
  /\ Str.forallb Charset.key_encoded (R2.encodeKey key) = true
  /\ Str.forallb (fun c => negb (Whatwg.path_end c) && Alphabet.printable c)
       (R2.encodeKey key) = true.
Proof.
  assert (Hchars : Str.forallb Charset.key_encoded (R2.encodeKey key) = true).
  { rewrite encodeKey_flat. induction key as [|c key IH]; [reflexivity |].
    cbn [Str.flat_map]. rewrite StrFacts.forallb_app, IH, andb_true_r.
    destruct (Ascii.eqb c "/") eqn:Hc.
    - reflexivity.
    - destruct (JS.uri_unreserved c) eqn:Hu; cbn [negb].
      + cbn. now rewrite (unreserved_key_encoded _ Hu).
      + apply pct_key_encoded. }
  split; [| split; [exact Hchars |]].
  - clear Hchars. rewrite encodeKey_flat.
    induction key as [|c key IH]; [reflexivity |].
    cbn [Str.flat_map].
    destruct (Ascii.eqb c "/") eqn:Hc.
    + apply Ascii.eqb_eq in Hc. subst c.
      cbn [append JS.decodeURIComponent].
      change (Chr.has_code 37 "/"%char) with false. cbv iota.
      now rewrite IH.
    + destruct (JS.uri_unreserved c) eqn:Hu; cbn [negb].
      * cbn [append JS.decodeURIComponent].
        apply EncodingFacts.unreserved_no_percent, negb_true_iff in Hu.
        now rewrite Hu, IH.
      * now rewrite EncodingFacts.decode_pct, IH.
  - revert Hchars. apply StrFacts.forallb_impl, key_encoded_safe.
Qed.

End KeyFacts.

(** ** More about the signer *)

Module SignerMore.

Lemma hex_lower_digit c :
  Charset.lower_hex (Chr.hex_lower (Chr.code c / 16))
  && Charset.lower_hex (Chr.hex_lower (Chr.code c mod 16)) = true.
Proof. revert c. apply ChrFacts.forall_ascii_spec. vm_compute. reflexivity. Qed.

Lemma digit_kept c :
  Chr.digit c = true ->
  negb (Chr.one_of [58; 45]%N c) && negb (Chr.has_code 46 c) = true.
Proof. revert c. by_enumeration. Qed.

Lemma strip_digits (ds r : string) :
  Str.forallb Chr.digit ds = true ->
  strip_date_punctuation (ds ++ r) = ds ++ strip_date_punctuation r.
Proof.
  induction ds as [|c ds IH]; [reflexivity |]. simpl Str.forallb.
  intros H. apply andb_true_iff in H. destruct H as [Hc Hds].
  pose proof (digit_kept c Hc) as Hk. apply andb_true_iff in Hk.
  destruct Hk as [H1 H2]. apply negb_true_iff in H1, H2.
  cbn [append strip_date_punctuation]. rewrite H1, H2. now rewrite IH.
Qed.

Lemma strip_millis (f r : string) :
  digits 3 f ->
  strip_date_punctuation ("." ++ f ++ r) = strip_date_punctuation r.
Proof.
  intros [Hlen Hf].
  destruct f as [|d1 [|d2 [|d3 [|]]]]; try discriminate.
  cbn in Hf. rewrite !andb_true_iff in Hf. destruct Hf as (H1 & H2 & H3 & _).
  cbn [append strip_date_punctuation].
  change (Chr.one_of [58; 45]%N "."%char) with false.
  change (Chr.has_code 46 "."%char) with true. cbv iota.
  now rewrite H1, H2, H3.
Qed.

Lemma strip_iso (year month day hour minute second millis : string) :
  digits 4 year -> digits 2 month -> digits 2 day -> digits 2 hour ->
  digits 2 minute -> digits 2 second -> digits 3 millis ->
  strip_date_punctuation
    (iso_instant year month day hour minute second millis)
  = (year ++ month ++ day) ++ "T" ++ hour ++ minute ++ second ++ "Z".
Proof.
  intros [_ Hy] [_ Hm] [_ Hd] [_ Hh] [_ Hmi] [_ Hs] Hf. unfold iso_instant.
  rewrite (strip_digits year) by exact Hy.
  change ("-" ++ ?x) with (String "-"%char x).
  cbn [strip_date_punctuation].
  change (Chr.one_of [58; 45]%N "-"%char) with true. cbv iota.
  rewrite (strip_digits month) by exact Hm.
  cbn [strip_date_punctuation append].
  change (Chr.one_of [58; 45]%N "-"%char) with true. cbv iota.
  rewrite (strip_digits day) by exact Hd.
  cbn [strip_date_punctuation append].
  change (Chr.one_of [58; 45]%N "T"%char) with false.
  change (Chr.has_code 46 "T"%char) with false. cbv iota.
  rewrite (strip_digits hour) by exact Hh.
  cbn [strip_date_punctuation append].
  change (Chr.one_of [58; 45]%N ":"%char) with true. cbv iota.
  rewrite (strip_digits minute) by exact Hmi.
  cbn [strip_date_punctuation append].
  change (Chr.one_of [58; 45]%N ":"%char) with true. cbv iota.
  rewrite (strip_digits second) by exact Hs.
  change (String "."%char (millis ++ "Z")) with ("." ++ millis ++ "Z").
  rewrite (strip_millis millis "Z" Hf).
  change (strip_date_punctuation "Z") with "Z".
  now rewrite !StrFacts.append_assoc.
Qed.

End SignerMore.

Section SignerMoreFacts.

Variable rt : Runtime.

(** X3.  Whatever headers the caller gives, the signed request carries the
    host of the URL, the date of the call and the hash of the body under
    [host], [x-amz-date] and [x-amz-content-sha256]: a header of the caller
    under one of these names, in any case, is replaced. *)
Theorem signRequest_own_headers
  (method url : string) (headers : JS.Obj)
  (body accessKeyId secretAccessKey region : string)
  (w : Effect.World) (u : Whatwg.URL) :
  new_URL rt url = Some u ->
  exists signed,
    fst (signRequest rt method url headers body accessKeyId secretAccessKey
           region w) = Effect.Success signed
    /\ signed_url signed = url
    /\ JS.obj_get (signed_headers signed) "host" = Some (Whatwg.host_and_port u)
    /\ JS.obj_get (signed_headers signed) "x-amz-date"
       = Some (strip_date_punctuation
                 (toISOString rt (Effect.clock w (Effect.ticks w))))
    /\ JS.obj_get (signed_headers signed) "x-amz-content-sha256"
       = Some (sha256 rt body).
Proof.
  intros Hu. unfold signRequest. rewrite Hu.
  unfold Effect.flatMap, Effect.new_Date, Effect.succeed. cbn [fst].
  eexists. split; [reflexivity |]. split; [reflexivity |].
  cbn [signed_headers]. unfold JS.spread. cbn [fold_left fst snd].
  repeat split.
  - rewrite !ObjFacts.get_set_other by discriminate.
    apply ObjFacts.get_set_same.
  - rewrite !ObjFacts.get_set_other by discriminate.
    apply ObjFacts.get_set_same.
  - rewrite !ObjFacts.get_set_other by discriminate.
    apply ObjFacts.get_set_same.
Qed.

(** X4.  When the clock reads an instant that [toISOString] writes as
    [YYYY-MM-DDTHH:MM:SS.mmmZ], the [x-amz-date] header is
    [YYYYMMDDTHHMMSSZ] and the credential of the [Authorization] header is
    the access key followed by the scope [YYYYMMDD/region/s3/aws4_request]. *)
Theorem signRequest_timestamp
  (method url : string) (headers : JS.Obj)
  (body accessKeyId secretAccessKey region : string)
  (w : Effect.World) (u : Whatwg.URL)
  (year month day hour minute second millis : string) :
  new_URL rt url = Some u ->
  digits 4 year -> digits 2 month -> digits 2 day -> digits 2 hour ->
  digits 2 minute -> digits 2 second -> digits 3 millis ->
  toISOString rt (Effect.clock w (Effect.ticks w))
  = iso_instant year month day hour minute second millis ->
  exists signed rest,
    fst (signRequest rt method url headers body accessKeyId secretAccessKey
           region w) = Effect.Success signed
    /\ JS.obj_get (signed_headers signed) "x-amz-date"
       = Some ((year ++ month ++ day) ++ "T" ++ hour ++ minute ++ second ++ "Z")
    /\ JS.obj_get (signed_headers signed) "Authorization"
       = Some ("AWS4-HMAC-SHA256 Credential=" ++ accessKeyId ++ "/"
               ++ (year ++ month ++ day) ++ "/" ++ region
               ++ "/s3/aws4_request, SignedHeaders=" ++ rest).
Proof.
  intros Hu Hy Hm Hd Hh Hmi Hs Hf Hiso. unfold signRequest. rewrite Hu.
  unfold Effect.flatMap, Effect.new_Date, Effect.succeed. cbn [fst].
  rewrite Hiso, (SignerMore.strip_iso _ _ _ _ _ _ _ Hy Hm Hd Hh Hmi Hs Hf).
  assert (Hstamp : String.substring 0 8
                     ((year ++ month ++ day) ++ "T" ++ hour ++ minute
                      ++ second ++ "Z")
                   = year ++ month ++ day).
  { apply StrMore.substring_app. rewrite !StrMore.length_app.
    destruct Hy as [-> _], Hm as [-> _], Hd as [-> _]. reflexivity. }
  rewrite Hstamp.
  eexists. eexists. split; [reflexivity |].
  cbn [signed_headers]. unfold JS.spread. cbn [fold_left fst snd]. split.
  - rewrite !ObjFacts.get_set_other by discriminate.
    apply ObjFacts.get_set_same.
  - rewrite ObjFacts.get_set_same. f_equal.
    rewrite ?StrFacts.append_assoc. cbn [append].
    rewrite ?StrFacts.append_assoc. reflexivity.
Qed.

Lemma lower_not_Authorization (k : string) :
  JS.toLowerCase k <> "Authorization".
Proof.
  destruct k as [|c k]; [discriminate |]. unfold JS.toLowerCase.
  cbn [Str.map]. intros H. injection H as Hc _.
  revert Hc. generalize c.
  assert (Hall : forall c0, negb (Ascii.eqb (Chr.to_lower c0) "A"%char) = true)
    by (apply ChrFacts.forall_ascii_spec; vm_compute; reflexivity).
  intros c0 Hc. specialize (Hall c0). rewrite Hc in Hall. discriminate.
Qed.

(** The value that the last entry under a name gives, when all entries
    under that name agree. *)
Lemma get_fold_agree (f : string -> string) (k v : string)
  (more : list (string * string)) (o : JS.Obj) :
  (forall kv, In kv more -> f (fst kv) = k -> snd kv = v) ->
  (JS.obj_get o k = Some v \/ exists kv, In kv more /\ f (fst kv) = k) ->
  JS.obj_get
    (fold_left (fun acc kv => JS.obj_set acc (f (fst kv)) (snd kv)) more o) k
  = Some v.
Proof.
  revert o. induction more as [|kv more IH]; intros o Hagree Hsome.
  - destruct Hsome as [H | (kv & [] & _)]. exact H.
  - cbn [fold_left]. apply IH.
    + intros kv' Hin. apply Hagree. now right.
    + destruct (string_dec (f (fst kv)) k) as [Heq | Hneq].
      * left. rewrite Heq, (Hagree kv (or_introl eq_refl) Heq).
        apply ObjFacts.get_set_same.
      * destruct Hsome as [H | (kv' & [<- | Hin] & Hk)].
        -- left. rewrite ObjFacts.get_set_other by congruence. exact H.
        -- congruence.
        -- right. now exists kv'.
Qed.

(** X5.  A header of the caller is sent under its lower-case name with its
    value, provided every header of the caller with the same name up to
    case has that value, and the name is not one the signer sets itself. *)
Theorem signRequest_keeps_caller_header
  (method url : string) (headers : JS.Obj)
  (body accessKeyId secretAccessKey region : string)
  (w : Effect.World) (u : Whatwg.URL) (k v : string) :
  new_URL rt url = Some u ->
  In (k, v) headers ->
  (forall k' v', In (k', v') headers ->
                 JS.toLowerCase k' = JS.toLowerCase k -> v' = v) ->
  JS.toLowerCase k <> "host" ->
  JS.toLowerCase k <> "x-amz-date" ->
  JS.toLowerCase k <> "x-amz-content-sha256" ->
  exists signed,
    fst (signRequest rt method url headers body accessKeyId secretAccessKey
           region w) = Effect.Success signed
    /\ JS.obj_get (signed_headers signed) (JS.toLowerCase k) = Some v.
Proof.
  intros Hu Hin Hagree H1 H2 H3.
  destruct (signRequest_success rt method url headers body accessKeyId
              secretAccessKey region w u Hu) as (signed & Hs & _ & Hget).
  exists signed. rewrite Hs. split; [reflexivity |].
  rewrite Hget; try assumption; [| apply lower_not_Authorization].
  unfold normalizedHeaders, JS.Object_entries.
  apply get_fold_agree.
  - intros [k' v'] Hin' Hk. now apply (Hagree k' v').
  - right. now exists (k, v).
Qed.

(** X6.  [toHex] writes two lower-case hexadecimal digits for each byte, so
    the payload hash and the signature have twice the length of the digest
    and hold the characters [0-9a-f] only. *)
Theorem toHex_shape (buffer : string) :
  String.length (toHex buffer) = 2 * String.length buffer
  /\ Str.forallb Charset.lower_hex (toHex buffer) = true.
Proof.
  unfold toHex. induction buffer as [|b buffer [IHl IHc]]; [now split |].
  cbn [Str.flat_map append String.length Str.forallb]. rewrite IHl, IHc.
  pose proof (SignerMore.hex_lower_digit b) as H.
  apply andb_true_iff in H. destruct H as [-> ->]. split; [lia | reflexivity].
Qed.

End SignerMoreFacts.

(** ** The outcome of each operation *)

Section OutcomeFacts.

Variable rt : Runtime.
Variable config : R2Config.t.
Variable httpClient : Http.Client.

Lemma inside_2xx (status : Z) :
  (200 <= status < 300)%Z -> R2.outside_2xx status = false.
Proof.
  intros H. apply orb_false_iff. split; [apply Z.ltb_ge | apply Z.leb_gt]; lia.
Qed.

Lemma beyond_2xx (status : Z) :
  (status < 200 \/ 300 <= status)%Z -> R2.outside_2xx status = true.
Proof.
  intros H. apply orb_true_iff.
  destruct H; [left; apply Z.ltb_lt | right; apply Z.leb_le]; lia.
Qed.

Lemma text_or_empty_value (response : Http.Response) (w : Effect.World) :
  R2.text_or_empty response w
  = (Effect.Success match Http.text response with
                    | Ok t => t
                    | Err _ => EmptyString
                    end, w).
Proof.
  unfold R2.text_or_empty, Effect.orElse, Effect.of_attempt.
  now destruct (Http.text response).
Qed.

(** The signing and the sending that open every object operation. *)
Lemma exchange
  (operation method url body : string) (extraHeaders : JS.Obj)
  (payload : option (string * string)) (response : Http.Response)
  (w : Effect.World) :
  new_URL rt url <> None ->
  answers_with httpClient response ->
  exists signed,
    R2.doSignRequest (E := R2Failure) rt config method url body extraHeaders w
    = (Effect.Success signed, Effect.tick w)
    /\ R2.send httpClient operation method signed payload (Effect.tick w)
       = (Effect.Success response,
          Effect.log (Effect.tick w)
            (Http.mkRequest method (signed_url signed) (signed_headers signed)
               payload))
    /\ signed_url signed = url.
Proof.
  intros Hurl Hanswers.
  destruct (doSignRequest_success rt config method url body extraHeaders w Hurl)
    as (signed & Hsign & Hu & _).
  exists signed. split; [exact Hsign |]. split; [| exact Hu].
  apply send_answer, Hanswers.
Qed.

(** X7.  [get] by the status of the answer: 404 is the not-found error with
    the configured bucket and the key as the caller wrote it; a 2xx status
    gives the bytes of the body, or an [R2Error] without status when the
    body cannot be read; any other status is an [R2Error] that carries the
    status and the text of the answer, empty when the text cannot be read. *)
Theorem get_by_status (key : string) (response : Http.Response)
  (w : Effect.World) :
  new_URL rt (R2.object_url config key) <> None ->
  answers_with httpClient response ->
  (Http.status response = 404%Z ->
   fst (R2.get rt config httpClient key w)
   = Effect.Failure (R2NotFoundError (R2Config.bucket config) key))
  /\ ((200 <= Http.status response < 300)%Z ->
      fst (R2.get rt config httpClient key w)
      = match Http.arrayBuffer response with
        | Ok bytes => Effect.Success bytes
        | Err e => Effect.Failure (R2Error "get" e None)
        end)
  /\ ((Http.status response < 200 \/ 300 <= Http.status response)%Z ->
      Http.status response <> 404%Z ->
      fst (R2.get rt config httpClient key w)
      = Effect.Failure
          (R2Error "get"
             match Http.text response with Ok t => t | Err _ => EmptyString end
             (Some (Http.status response)))).
Proof.
  intros Hurl Hanswers.
  destruct (exchange "get" "GET" (R2.object_url config key) EmptyString []
              None response w Hurl Hanswers) as (signed & Hsign & Hsend & _).
  unfold R2.get.
  rewrite (EffectFacts.flatMap_success _ _ _ _ _ Hsign).
  rewrite (EffectFacts.flatMap_success _ _ _ _ _ Hsend).
  repeat split.
  - intros ->. reflexivity.
  - intros H.
    replace (Http.status response =? 404)%Z with false
      by (symmetry; apply Z.eqb_neq; lia).
    rewrite (inside_2xx _ H).
    unfold Effect.mapError, Effect.of_attempt.
    now destruct (Http.arrayBuffer response).
  - intros H Hnot.
    replace (Http.status response =? 404)%Z with false
      by (symmetry; apply Z.eqb_neq; exact Hnot).
    rewrite (beyond_2xx _ H).
    now rewrite (EffectFacts.flatMap_success _ _ _ _ _
                   (text_or_empty_value response _)).
Qed.

(** X8.  [head] by the status of the answer: 404 is the not-found error,
    any other status outside 2xx is the [R2Error] with the message
    [HEAD failed] and the status, and a 2xx status gives a descriptor with
    the key, the [etag] header as it is (empty without one), a size of 0
    without a [content-length] header, the public URL of the key, the
    [content-type] header, and no custom metadata. *)
Theorem head_by_status (key : string) (response : Http.Response)
  (w : Effect.World) :
  new_URL rt (R2.object_url config key) <> None ->
  answers_with httpClient response ->
  (Http.status response = 404%Z ->
   fst (R2.head rt config httpClient key w)
   = Effect.Failure (R2NotFoundError (R2Config.bucket config) key))
  /\ ((Http.status response < 200 \/ 300 <= Http.status response)%Z ->
      Http.status response <> 404%Z ->
      fst (R2.head rt config httpClient key w)
      = Effect.Failure
          (R2Error "head" "HEAD failed" (Some (Http.status response))))
  /\ ((200 <= Http.status response < 300)%Z ->
      exists object,
        fst (R2.head rt config httpClient key w) = Effect.Success object
        /\ R2Object.key object = key
        /\ R2Object.etag object
           = Config.value (JS.obj_get (Http.response_headers response) "etag")
        /\ (JS.truthy (JS.obj_get (Http.response_headers response)
                         "content-length") = false ->
            R2Object.size object = JS.Num 0)
        /\ (JS.truthy (JS.obj_get (Http.response_headers response)
                         "last-modified") = false ->
            R2Object.lastModified object
            = JS.Num (Effect.clock w (S (Effect.ticks w))))
        /\ R2Object.url object = R2.getPublicUrl config key
        /\ R2Object.httpMetadata object
           = Some (HttpMetadata.make
                     (JS.obj_get (Http.response_headers response) "content-type")
                     None None None None)
        /\ R2Object.customMetadata object = None).
Proof.
  intros Hurl Hanswers.
  destruct (exchange "head" "HEAD" (R2.object_url config key) EmptyString []
              None response w Hurl Hanswers) as (signed & Hsign & Hsend & _).
  unfold R2.head.
  rewrite (EffectFacts.flatMap_success _ _ _ _ _ Hsign).
  rewrite (EffectFacts.flatMap_success _ _ _ _ _ Hsend).
  repeat split.
  - intros ->. reflexivity.
  - intros H Hnot.
    replace (Http.status response =? 404)%Z with false
      by (symmetry; apply Z.eqb_neq; exact Hnot).
    now rewrite (beyond_2xx _ H).
  - intros H.
    replace (Http.status response =? 404)%Z with false
      by (symmetry; apply Z.eqb_neq; lia).
    rewrite (inside_2xx _ H).
    unfold Effect.flatMap, Effect.map, Effect.new_Date, Effect.succeed.
    unfold JS.truthy, Config.value.
    destruct (JS.obj_get (Http.response_headers response) "last-modified")
      as [l|]; [destruct (Str.is_empty l) |];
      destruct (JS.obj_get (Http.response_headers response) "content-length")
        as [c|]; try destruct (Str.is_empty c);
      cbn [fst negb]; eexists; (split; [reflexivity |]);
      cbn [R2Object.key R2Object.etag R2Object.size R2Object.lastModified
           R2Object.url R2Object.httpMetadata R2Object.customMetadata
           Effect.clock Effect.ticks Effect.log Effect.tick];
      repeat split; try reflexivity; try discriminate; intros; reflexivity.
Qed.

(** X9.  [put] by the status of the answer: a 2xx status gives the
    descriptor of the object with the key, the number of bytes sent as its
    size, the time of the clock after the exchange, the public URL of the
    key, the metadata of the options and the custom metadata of the
    options; every other status, 404 included, is an [R2Error] that carries
    the status and the text of the answer. *)
Theorem put_by_status
  (key : string) (body : PutBody) (options : R2PutOptions.t)
  (response : Http.Response) (w : Effect.World) :
  new_URL rt (R2.object_url config key) <> None ->
  answers_with httpClient response ->
  ((200 <= Http.status response < 300)%Z ->
   fst (R2.put rt config httpClient key body options w)
   = Effect.Success
       (R2Object.make key
          (JS.Num (Z.of_nat (snd (R2.bodyBytes body))))
          (Config.value (JS.obj_get (Http.response_headers response) "etag"))
          (JS.Num (Effect.clock w (S (Effect.ticks w))))
          (R2.getPublicUrl config key)
          (Some (HttpMetadata.make (R2PutOptions.contentType options) None
                   (R2PutOptions.contentDisposition options) None
                   (R2PutOptions.cacheControl options)))
          (R2PutOptions.customMetadata options)))
  /\ ((Http.status response < 200 \/ 300 <= Http.status response)%Z ->
      fst (R2.put rt config httpClient key body options w)
      = Effect.Failure
          (R2Error "put"
             match Http.text response with Ok t => t | Err _ => EmptyString end
             (Some (Http.status response)))).
Proof.
  intros Hurl Hanswers. unfold R2.put.
  destruct (R2.bodyBytes body) as [[buffer byteOffset] byteLength].
  destruct (exchange "put" "PUT" (R2.object_url config key) buffer
              (R2.put_headers options)
              (Some (String.substring byteOffset byteLength buffer,
                     match R2PutOptions.contentType options with
                     | Some c => c
                     | None => "application/octet-stream"
                     end))
              response w Hurl Hanswers) as (signed & Hsign & Hsend & _).
  rewrite (EffectFacts.flatMap_success _ _ _ _ _ Hsign).
  rewrite (EffectFacts.flatMap_success _ _ _ _ _ Hsend).
  split.
  - intros H. rewrite (inside_2xx _ H).
    unfold Effect.flatMap, Effect.new_Date, Effect.succeed, Config.value.
    reflexivity.
  - intros H. rewrite (beyond_2xx _ H).
    now rewrite (EffectFacts.flatMap_success _ _ _ _ _
                   (text_or_empty_value response _)).
Qed.

(** X10.  [list] by the status of the answer: every status outside 2xx,
    404 included, is an [R2Error] that carries the status and the text of
    the answer, and a 2xx answer whose text cannot be read is an [R2Error]
    without status. *)
Theorem list_by_status
  (options : R2ListOptions.t) (response : Http.Response) (w : Effect.World) :
  new_URL rt (R2.list_url config options) <> None ->
  answers_with httpClient response ->
  ((Http.status response < 200 \/ 300 <= Http.status response)%Z ->
   fst (R2.list rt config httpClient options w)
   = Effect.Failure
       (R2Error "list"
          match Http.text response with Ok t => t | Err _ => EmptyString end
          (Some (Http.status response))))
  /\ ((200 <= Http.status response < 300)%Z ->
      forall e, Http.text response = Err e ->
      fst (R2.list rt config httpClient options w)
      = Effect.Failure (R2Error "list" e None)).
Proof.
  intros Hurl Hanswers.
  destruct (exchange "list" "GET" (R2.list_url config options) EmptyString []
              None response w Hurl Hanswers) as (signed & Hsign & Hsend & _).
  unfold R2.list.
  rewrite (EffectFacts.flatMap_success _ _ _ _ _ Hsign).
  rewrite (EffectFacts.flatMap_success _ _ _ _ _ Hsend).
  split.
  - intros H. rewrite (beyond_2xx _ H).
    now rewrite (EffectFacts.flatMap_success _ _ _ _ _
                   (text_or_empty_value response _)).
  - intros H e He. rewrite (inside_2xx _ H).
    unfold Effect.flatMap, Effect.mapError, Effect.of_attempt.
    now rewrite He.
Qed.

End OutcomeFacts.

(** ** What the operations never do, and how they fail *)

Module Never.

Lemma succeed {A} (a : A) : never_not_found (Effect.succeed a).
Proof. intros w b k. discriminate. Qed.

Lemma die {A} (d : Exception) : never_not_found (@Effect.die R2Failure A d).
Proof. intros w b k. discriminate. Qed.

Lemma fail_R2Error {A} (operation message : string) (status : option Z) :
  never_not_found (@Effect.fail R2Failure A (R2Error operation message status)).
Proof. intros w b k. discriminate. Qed.

Lemma flatMap {A B} (m : Effect.t R2Failure A) (f : A -> Effect.t R2Failure B) :
  never_not_found m -> (forall a, never_not_found (f a)) ->
  never_not_found (Effect.flatMap m f).
Proof.
  intros Hm Hf w b k. unfold Effect.flatMap. specialize (Hm w b k).
  destruct (m w) as [[a|e|d] w1]; cbn [fst] in *.
  - apply Hf.
  - intros Heq. apply Hm. inversion Heq. reflexivity.
  - discriminate.
Qed.

Lemma map {A B} (f : A -> B) (m : Effect.t R2Failure A) :
  never_not_found m -> never_not_found (Effect.map f m).
Proof. intros Hm. apply flatMap; [exact Hm | intros a; apply succeed]. Qed.

Lemma promise {A} (p : Effect.t Empty_set A) :
  never_not_found (Effect.promise p).
Proof.
  intros w b k. unfold Effect.promise, Effect.mapError.
  destruct (p w) as [[a|[]|d] w1]; discriminate.
Qed.

Lemma mapError {A} (operation : string) (m : Effect.t string A) :
  never_not_found (Effect.mapError (fun e => R2Error operation e None) m).
Proof.
  intros w b k. unfold Effect.mapError.
  destruct (m w) as [[a|e|d] w1]; discriminate.
Qed.

Lemma text_or_empty (response : Http.Response) :
  never_not_found (R2.text_or_empty response).
Proof.
  intros w b k. unfold R2.text_or_empty, Effect.orElse, Effect.of_attempt.
  destruct (Http.text response); discriminate.
Qed.

Lemma forEach {A B} (f : A -> Effect.t R2Failure B) (l : list A) :
  (forall a, never_not_found (f a)) -> never_not_found (Effect.forEach f l).
Proof.
  intros Hf. induction l as [|a l IH]; [apply succeed |].
  cbn [Effect.forEach]. apply flatMap; [apply Hf |].
  intros y. apply flatMap; [exact IH | intros ys; apply succeed].
Qed.

End Never.

Section ChannelFacts.

Variable rt : Runtime.
Variable config : R2Config.t.
Variable httpClient : Http.Client.

Lemma put_never_not_found key body options :
  never_not_found (R2.put rt config httpClient key body options).
Proof.
  unfold R2.put. destruct (R2.bodyBytes body) as [[buffer byteOffset] byteLength].
  apply Never.flatMap; [apply Never.promise |]. intros signed.
  apply Never.flatMap; [apply Never.mapError |]. intros response.
  destruct (R2.outside_2xx (Http.status response)).
  - apply Never.flatMap; [apply Never.text_or_empty |].
    intros t. apply Never.fail_R2Error.
  - apply Never.flatMap; [| intros now; apply Never.succeed].
    intros w b k. discriminate.
Qed.

Lemma delete_never_not_found key :
  never_not_found (R2.delete rt config httpClient key).
Proof.
  unfold R2.delete.
  apply Never.flatMap; [apply Never.promise |]. intros signed.
  apply Never.flatMap; [apply Never.mapError |]. intros response.
  destruct ((Http.status response <? 200)%Z
            || ((300 <=? Http.status response)%Z
                && negb (Http.status response =? 404)%Z)).
  - apply Never.flatMap; [apply Never.text_or_empty |].
    intros t. apply Never.fail_R2Error.
  - apply Never.succeed.
Qed.

Lemma object_of_contents_never_not_found content :
  never_not_found (R2.object_of_contents rt config content).
Proof.
  unfold R2.object_of_contents.
  destruct (getTag "Key" content) as [k|]; [| apply Never.succeed].
  destruct (Str.is_empty k); [apply Never.succeed |].
  apply Never.flatMap; [| intros lm; apply Never.succeed].
  destruct (JS.truthy (getTag "LastModified" content)).
  - apply Never.succeed.
  - apply Never.map. intros w b k0. discriminate.
Qed.

Lemma list_never_not_found options :
  never_not_found (R2.list rt config httpClient options).
Proof.
  unfold R2.list.
  apply Never.flatMap; [apply Never.promise |]. intros signed.
  apply Never.flatMap; [apply Never.mapError |]. intros response.
  destruct (R2.outside_2xx (Http.status response)).
  - apply Never.flatMap; [apply Never.text_or_empty |].
    intros t. apply Never.fail_R2Error.
  - apply Never.flatMap; [apply Never.mapError |]. intros xml.
    apply Never.flatMap; [| intros objects; apply Never.succeed].
    unfold R2.getContents. apply Never.map, Never.forEach.
    apply object_of_contents_never_not_found.
Qed.

Lemma listAll_loop_never_not_found fuel prefix cursor allObjects :
  never_not_found
    (R2.listAll_loop rt config httpClient fuel prefix cursor allObjects).
Proof.
  revert cursor allObjects.
  induction fuel as [|fuel IH]; intros cursor allObjects;
    [apply Never.succeed |].
  cbn [R2.listAll_loop].
  apply Never.flatMap; [apply list_never_not_found |]. intros result.
  destruct (JS.truthy (R2.next_cursor result)); [apply IH | apply Never.succeed].
Qed.

(** X11.  [put], [delete], [list], [listAll] and [exists] never fail with
    the not-found error, as their types declare: a missing bucket or object
    reaches the caller of these as an [R2Error] with status 404, as a
    success ([delete]) or as [false] ([exists]). *)
Theorem declared_error_channels
  (key : string) (body : PutBody) (options : R2PutOptions.t)
  (listOptions : R2ListOptions.t) (fuel : nat) (prefix : option string) :
  never_not_found (R2.put rt config httpClient key body options)
  /\ never_not_found (R2.delete rt config httpClient key)
  /\ never_not_found (R2.list rt config httpClient listOptions)
  /\ never_not_found (R2.listAll rt config httpClient fuel prefix)
  /\ never_not_found (R2.exists_ rt config httpClient key).
Proof.
  split; [apply put_never_not_found |].
  split; [apply delete_never_not_found |].
  split; [apply list_never_not_found |].
  split; [apply listAll_loop_never_not_found |].
  intros w b k. unfold R2.exists_, catchTag_R2NotFoundError, Effect.map,
    Effect.flatMap, Effect.succeed.
  destruct (R2.head rt config httpClient key w)
    as [[object | [operation message status | b' k'] | defect] w'];
    discriminate.
Qed.

Lemma exchange_fails
  (operation method url body : string) (extraHeaders : JS.Obj)
  (payload : option (string * string)) (e : string) (w : Effect.World) :
  new_URL rt url <> None ->
  fails_with httpClient e ->
  exists signed,
    R2.doSignRequest (E := R2Failure) rt config method url body extraHeaders w
    = (Effect.Success signed, Effect.tick w)
    /\ R2.send httpClient operation method signed payload (Effect.tick w)
       = (Effect.Failure (R2Error operation e None),
          Effect.log (Effect.tick w)
            (Http.mkRequest method (signed_url signed) (signed_headers signed)
               payload)).
Proof.
  intros Hurl Hfails.
  destruct (doSignRequest_success rt config method url body extraHeaders w Hurl)
    as (signed & Hsign & _).
  exists signed. split; [exact Hsign |].
  unfold R2.send, Effect.mapError, Effect.execute. now rewrite Hfails.
Qed.

Lemma flatMap_failure {A B} (m : Effect.t R2Failure A)
  (f : A -> Effect.t R2Failure B) w e w' :
  m w = (Effect.Failure e, w') -> Effect.flatMap m f w = (Effect.Failure e, w').
Proof. unfold Effect.flatMap. now intros ->. Qed.

(** X12.  When the transport fails, every operation fails with an
    [R2Error] that names the operation, carries the text of the transport
    error as its message and has no status; [exists] reports it under the
    operation [head]. *)
Theorem transport_failure
  (key : string) (body : PutBody) (options : R2PutOptions.t)
  (listOptions : R2ListOptions.t) (e : string) (w : Effect.World) :
  new_URL rt (R2.object_url config key) <> None ->
  new_URL rt (R2.list_url config listOptions) <> None ->
  fails_with httpClient e ->
  fst (R2.get rt config httpClient key w)
  = Effect.Failure (R2Error "get" e None)
  /\ fst (R2.put rt config httpClient key body options w)
     = Effect.Failure (R2Error "put" e None)
  /\ fst (R2.delete rt config httpClient key w)
     = Effect.Failure (R2Error "delete" e None)
  /\ fst (R2.head rt config httpClient key w)
     = Effect.Failure (R2Error "head" e None)
  /\ fst (R2.exists_ rt config httpClient key w)
     = Effect.Failure (R2Error "head" e None)
  /\ fst (R2.list rt config httpClient listOptions w)
     = Effect.Failure (R2Error "list" e None).
Proof.
  intros Hobject Hlist Hfails.
  assert (Hhead : fst (R2.head rt config httpClient key w)
                  = Effect.Failure (R2Error "head" e None)).
  { destruct (exchange_fails "head" "HEAD" (R2.object_url config key)
                EmptyString [] None e w Hobject Hfails)
      as (signed & Hsign & Hsend).
    unfold R2.head. rewrite (EffectFacts.flatMap_success _ _ _ _ _ Hsign).
    now rewrite (flatMap_failure _ _ _ _ _ Hsend). }
  repeat split.
  - destruct (exchange_fails "get" "GET" (R2.object_url config key)
                EmptyString [] None e w Hobject Hfails)
      as (signed & Hsign & Hsend).
    unfold R2.get. rewrite (EffectFacts.flatMap_success _ _ _ _ _ Hsign).
    now rewrite (flatMap_failure _ _ _ _ _ Hsend).
  - unfold R2.put.
    destruct (R2.bodyBytes body) as [[buffer byteOffset] byteLength].
    destruct (exchange_fails "put" "PUT" (R2.object_url config key) buffer
                (R2.put_headers options)
                (Some (String.substring byteOffset byteLength buffer,
                       match R2PutOptions.contentType options with
                       | Some c => c
                       | None => "application/octet-stream"
                       end)) e w Hobject Hfails)
      as (signed & Hsign & Hsend).
    rewrite (EffectFacts.flatMap_success _ _ _ _ _ Hsign).
    now rewrite (flatMap_failure _ _ _ _ _ Hsend).
  - destruct (exchange_fails "delete" "DELETE" (R2.object_url config key)
                EmptyString [] None e w Hobject Hfails)
      as (signed & Hsign & Hsend).
    unfold R2.delete. rewrite (EffectFacts.flatMap_success _ _ _ _ _ Hsign).
    now rewrite (flatMap_failure _ _ _ _ _ Hsend).
  - exact Hhead.
  - unfold R2.exists_, catchTag_R2NotFoundError, Effect.map, Effect.flatMap.
    destruct (R2.head rt config httpClient key w) as [[o|f|d] w1];
      cbn [fst] in Hhead; inversion Hhead. reflexivity.
  - destruct (exchange_fails "list" "GET" (R2.list_url config listOptions)
                EmptyString [] None e w Hlist Hfails)
      as (signed & Hsign & Hsend).
    unfold R2.list. rewrite (EffectFacts.flatMap_success _ _ _ _ _ Hsign).
    now rewrite (flatMap_failure _ _ _ _ _ Hsend).
Qed.

Lemma doSignRequest_dies
  (method url body : string) (extraHeaders : JS.Obj) (w : Effect.World) :
  new_URL rt url = None ->
  R2.doSignRequest (E := R2Failure) rt config method url body extraHeaders w
  = (Effect.Die (TypeError "Invalid URL"), w).
Proof.
  intros Hurl.
  unfold R2.doSignRequest, Effect.promise, Effect.mapError, signRequest.
  now rewrite Hurl.
Qed.

Lemma flatMap_die {A B} (m : Effect.t R2Failure A)
  (f : A -> Effect.t R2Failure B) w d w' :
  m w = (Effect.Die d, w') -> Effect.flatMap m f w = (Effect.Die d, w').
Proof. unfold Effect.flatMap. now intros ->. Qed.

(** X13.  When the URL of the object does not parse (an account id or a
    bucket that no URL admits), [get], [put], [delete], [head], [exists] and
    [copy] die with the exception of the URL constructor, a defect outside
    the error channel, and leave the world as it was: no request is sent
    and the clock is not read. *)
Theorem unparsable_url_is_defect
  (key destKey : string) (body : PutBody) (options : R2PutOptions.t)
  (w : Effect.World) :
  new_URL rt (R2.object_url config key) = None ->
  exists defect,
    R2.get rt config httpClient key w = (Effect.Die defect, w)
    /\ R2.put rt config httpClient key body options w = (Effect.Die defect, w)
    /\ R2.delete rt config httpClient key w = (Effect.Die defect, w)
    /\ R2.head rt config httpClient key w = (Effect.Die defect, w)
    /\ R2.exists_ rt config httpClient key w = (Effect.Die defect, w)
    /\ R2.copy rt config httpClient key destKey w = (Effect.Die defect, w).
Proof.
  intros Hurl. exists (TypeError "Invalid URL").
  assert (Hget : R2.get rt config httpClient key w
                 = (Effect.Die (TypeError "Invalid URL"), w)).
  { unfold R2.get. apply flatMap_die. now apply doSignRequest_dies. }
  assert (Hhead : R2.head rt config httpClient key w
                  = (Effect.Die (TypeError "Invalid URL"), w)).
  { unfold R2.head. apply flatMap_die. now apply doSignRequest_dies. }
  repeat split.
  - exact Hget.
  - unfold R2.put.
    destruct (R2.bodyBytes body) as [[buffer byteOffset] byteLength].
    apply flatMap_die. now apply doSignRequest_dies.
  - unfold R2.delete. apply flatMap_die. now apply doSignRequest_dies.
  - exact Hhead.
  - unfold R2.exists_, catchTag_R2NotFoundError, Effect.map.
    now rewrite (flatMap_die _ _ _ _ _ Hhead).
  - unfold R2.copy. now apply flatMap_die.
Qed.

Lemma get_inv (key data : string) (w w' : Effect.World) :
  R2.get rt config httpClient key w = (Effect.Success data, w') ->
  exists request,
    w' = Effect.log (Effect.tick w) request
    /\ Http.method request = "GET"
    /\ Http.url request = R2.object_url config key.
Proof.
  unfold R2.get. intros H.
  apply EffectFacts.flatMap_inv in H. destruct H as (signed & w1 & Hsign & H).
  apply doSignRequest_inv in Hsign. destruct Hsign as (-> & Hurl & _).
  apply EffectFacts.flatMap_inv in H. destruct H as (response & w2 & Hsend & H).
  apply send_inv in Hsend. subst w2.
  destruct (Http.status response =? 404)%Z; [discriminate |].
  destruct (R2.outside_2xx (Http.status response)).
  - now apply fail_after_text in H.
  - apply EffectFacts.mapError_inv in H. unfold Effect.of_attempt in H.
    destruct (Http.arrayBuffer response); inversion H; subst.
    eexists. split; [reflexivity |]. split; [reflexivity | exact Hurl].
Qed.

Lemma head_inv (key : string) (object : R2Object.t) (w w' : Effect.World) :
  R2.head rt config httpClient key w = (Effect.Success object, w') ->
  exists request,
    Effect.sent w' = (Effect.sent w ++ [request])%list
    /\ Http.method request = "HEAD"
    /\ Http.url request = R2.object_url config key.
Proof.
  unfold R2.head. intros H.
  apply EffectFacts.flatMap_inv in H. destruct H as (signed & w1 & Hsign & H).
  apply doSignRequest_inv in Hsign. destruct Hsign as (-> & Hurl & _).
  apply EffectFacts.flatMap_inv in H. destruct H as (response & w2 & Hsend & H).
  apply send_inv in Hsend. subst w2.
  destruct (Http.status response =? 404)%Z; [discriminate |].
  destruct (R2.outside_2xx (Http.status response)); [discriminate |].
  apply EffectFacts.flatMap_inv in H. destruct H as (lm & w3 & Hlm & H).
  unfold Effect.succeed in H. inversion H; subst; clear H.
  assert (Hsent : Effect.sent w'
                  = (Effect.sent w
                     ++ [Http.mkRequest "HEAD" (signed_url signed)
                           (signed_headers signed) None])%list).
  { destruct (JS.obj_get (Http.response_headers response) "last-modified")
      as [l|]; [destruct (Str.is_empty l) |];
      unfold Effect.map, Effect.flatMap, Effect.new_Date, Effect.succeed in Hlm;
      inversion Hlm; reflexivity. }
  eexists. split; [exact Hsent |]. split; [reflexivity | exact Hurl].
Qed.

Lemma put_inv
  (key : string) (body : PutBody) (options : R2PutOptions.t)
  (object : R2Object.t) (w w' : Effect.World) :
  R2.put rt config httpClient key body options w = (Effect.Success object, w') ->
  exists request,
    Effect.sent w' = (Effect.sent w ++ [request])%list
    /\ Http.method request = "PUT"
    /\ Http.url request = R2.object_url config key
    /\ Http.body request
       = Some (let '(buffer, byteOffset, byteLength) := R2.bodyBytes body in
               String.substring byteOffset byteLength buffer,
               match R2PutOptions.contentType options with
               | Some c => c
               | None => "application/octet-stream"
               end)
    /\ JS.obj_get (Http.headers request) "content-type"
       = Some match R2PutOptions.contentType options with
              | Some c => c
              | None => "application/octet-stream"
              end
    /\ R2Object.key object = key
    /\ R2Object.httpMetadata object
       = Some (HttpMetadata.make (R2PutOptions.contentType options) None
                 (R2PutOptions.contentDisposition options) None
                 (R2PutOptions.cacheControl options)).
Proof.
  unfold R2.put. destruct (R2.bodyBytes body) as [[buffer byteOffset] byteLength].
  intros H.
  apply EffectFacts.flatMap_inv in H. destruct H as (signed & w1 & Hsign & H).
  apply doSignRequest_inv in Hsign. destruct Hsign as (-> & Hurl & Hheaders).
  apply EffectFacts.flatMap_inv in H. destruct H as (response & w2 & Hsend & H).
  apply send_inv in Hsend. subst w2.
  destruct (R2.outside_2xx (Http.status response)).
  - now apply fail_after_text in H.
  - unfold Effect.flatMap, Effect.new_Date, Effect.succeed in H.
    inversion H; subst; clear H.
    eexists. split; [reflexivity |]. split; [reflexivity |].
    split; [exact Hurl |]. split; [reflexivity |].
    split; [| split; reflexivity].
    cbn [Http.headers]. rewrite Hheaders by discriminate.
    apply put_headers_content_type.
Qed.

(** X14.  A [copy] that succeeds has sent three requests, in this order: a
    GET and a HEAD of the source and a PUT of the destination, whose body
    is the bytes that the GET returned; the descriptor it returns is that of
    the destination key. *)
Theorem copy_requests
  (sourceKey destKey : string) (object : R2Object.t) (w w' : Effect.World) :
  R2.copy rt config httpClient sourceKey destKey w = (Effect.Success object, w') ->
  exists read inspect write data contentType w1,
    Effect.sent w' = (Effect.sent w ++ [read; inspect; write])%list
    /\ (Http.method read, Http.url read)
       = ("GET", R2.object_url config sourceKey)
    /\ (Http.method inspect, Http.url inspect)
       = ("HEAD", R2.object_url config sourceKey)
    /\ (Http.method write, Http.url write)
       = ("PUT", R2.object_url config destKey)
    /\ R2.get rt config httpClient sourceKey w = (Effect.Success data, w1)
    /\ Http.body write = Some (data, contentType)
    /\ R2Object.key object = destKey.
Proof.
  unfold R2.copy. intros H.
  apply EffectFacts.flatMap_inv in H. destruct H as (data & w1 & Hget & H).
  apply EffectFacts.flatMap_inv in H. destruct H as (meta & w2 & Hhead & H).
  destruct (get_inv _ _ _ _ Hget) as (read & Hw1 & Hm1 & Hu1).
  destruct (head_inv _ _ _ _ Hhead) as (inspect & Hs2 & Hm2 & Hu2).
  destruct (put_inv _ _ _ _ _ _ H)
    as (write & Hs3 & Hm3 & Hu3 & Hbody & _ & Hkey & _).
  exists read, inspect, write, data. eexists. exists w1.
  split.
  - rewrite Hs3, Hs2, Hw1. cbn [Effect.sent Effect.log Effect.tick].
    now rewrite <- !app_assoc.
  - rewrite Hm1, Hu1, Hm2, Hu2, Hm3, Hu3.
    repeat (split; [reflexivity |]). split; [exact Hget |].
    split; [| exact Hkey].
    rewrite Hbody. cbn [R2.bodyBytes]. f_equal. f_equal.
    clear. induction data as [|c data IH]; [reflexivity |].
    cbn [String.length String.substring]. now rewrite IH.
Qed.

End ChannelFacts.

(** ** What the scanning of a list response returns *)

Module ScanFacts.

Lemma match_tag_here_spec (tag text captured rest : string) :
  match_tag_here tag text = Some (captured, rest) ->
  text = ("<" ++ tag ++ ">") ++ captured ++ ("</" ++ tag ++ ">") ++ rest
  /\ Str.forallb Charset.no_angle captured = true.
Proof.
  unfold match_tag_here.
  generalize ("<" ++ tag ++ ">") ("</" ++ tag ++ ">"). intros opening closing.
  destruct (String.prefix opening text) eqn:Hopen; [| discriminate].
  apply StrMore.prefix_split in Hopen.
  remember (Str.drop (String.length opening) text) as inner eqn:Hinner.
  destruct (Str.break (Chr.has_code 60) inner) as [run after] eqn:Hbreak.
  apply StrMore.break_spec in Hbreak. destruct Hbreak as [Hdrop Hrun].
  destruct (String.prefix closing after) eqn:Hclose; [| discriminate].
  apply StrMore.prefix_split in Hclose.
  remember (Str.drop (String.length closing) after) as tail eqn:Htail.
  intros H. injection H as Hcaptured Hrest. subst captured rest.
  split; [| exact Hrun].
  now rewrite Hopen, Hdrop, Hclose.
Qed.

Lemma match_tag_here_includes (tag text captured rest : string) :
  match_tag_here tag text = Some (captured, rest) ->
  Str.forallb Charset.no_angle captured = true
  /\ Str.includes (("<" ++ tag ++ ">") ++ captured ++ ("</" ++ tag ++ ">")) text
     = true.
Proof.
  intros H. apply match_tag_here_spec in H. destruct H as [Htext Hv].
  split; [exact Hv |].
  replace text
    with ((("<" ++ tag ++ ">") ++ captured ++ ("</" ++ tag ++ ">")) ++ rest).
  - apply StrMore.includes_here.
  - rewrite Htext. now rewrite !StrFacts.append_assoc.
Qed.

Lemma getTag_spec (tag text captured : string) :
  getTag tag text = Some captured ->
  Str.forallb Charset.no_angle captured = true
  /\ Str.includes (("<" ++ tag ++ ">") ++ captured ++ ("</" ++ tag ++ ">")) text
     = true.
Proof.
  induction text as [|c text IH]; cbn [getTag].
  - destruct (match_tag_here tag EmptyString) as [[v rest]|] eqn:Hm;
      [| discriminate].
    intros H. injection H as ->.
    exact (match_tag_here_includes _ _ _ _ Hm).
  - destruct (match_tag_here tag (String c text)) as [[v rest]|] eqn:Hm.
    + intros H. injection H as ->.
      exact (match_tag_here_includes _ _ _ _ Hm).
    + intros H. destruct (IH H) as [Hv Hin]. split; [exact Hv |].
      now apply StrMore.includes_later.
Qed.

Lemma getAllTags_from_spec (tag : string) (text : string) :
  forall skip captured,
    In captured (getAllTags_from tag skip text) ->
    captured <> EmptyString
    /\ Str.forallb Charset.no_angle captured = true
    /\ Str.includes
         (("<" ++ tag ++ ">") ++ captured ++ ("</" ++ tag ++ ">")) text
       = true.
Proof.
  induction text as [|c text IH]; intros skip captured; cbn [getAllTags_from];
    [intros [] |].
  assert (Hlater : forall n,
             In captured (getAllTags_from tag n text) ->
             captured <> EmptyString
             /\ Str.forallb Charset.no_angle captured = true
             /\ Str.includes
                  (("<" ++ tag ++ ">") ++ captured ++ ("</" ++ tag ++ ">"))
                  (String c text) = true).
  { intros n Hin. destruct (IH n captured Hin) as (Hne & Hv & Hinc).
    split; [exact Hne |]. split; [exact Hv |].
    now apply StrMore.includes_later. }
  destruct skip as [|n]; [| apply Hlater].
  destruct (match_tag_here tag (String c text)) as [[v rest]|] eqn:Hm;
    [| apply Hlater].
  intros Hin. apply in_app_or in Hin. destruct Hin as [Hin | Hin];
    [| now apply Hlater in Hin].
  destruct v as [|d v]; [destruct Hin |].
  cbn [Str.is_empty] in Hin. destruct Hin as [<- | []].
  split; [discriminate |].
  exact (match_tag_here_includes _ _ _ _ Hm).
Qed.

Lemma filter_no_quote (s : string) :
  Str.forallb Charset.no_quote (Str.filter (fun c => negb (Chr.has_code 34 c)) s)
  = true.
Proof.
  induction s as [|c s IH]; [reflexivity |]. cbn [Str.filter].
  destruct (negb (Chr.has_code 34 c)) eqn:Hc; [| exact IH].
  cbn [Str.forallb]. unfold Charset.no_quote at 1. now rewrite Hc.
Qed.

Lemma forEach_Forall {E A B} (f : A -> Effect.t E B) (Q : B -> Prop) :
  (forall a w b w', f a w = (Effect.Success b, w') -> Q b) ->
  forall l w bs w',
    Effect.forEach f l w = (Effect.Success bs, w') -> Forall Q bs.
Proof.
  intros Hf. induction l as [|a l IH]; intros w bs w'; cbn [Effect.forEach].
  - unfold Effect.succeed. intros H. inversion H. constructor.
  - intros H. apply EffectFacts.flatMap_inv in H.
    destruct H as (b & w1 & Hb & H).
    apply EffectFacts.flatMap_inv in H. destruct H as (rest & w2 & Hrest & H).
    unfold Effect.succeed in H. inversion H; subst. constructor.
    + exact (Hf _ _ _ _ Hb).
    + exact (IH _ _ _ Hrest).
Qed.

End ScanFacts.

Section ListShape.

Variable rt : Runtime.
Variable config : R2Config.t.
Variable httpClient : Http.Client.

Lemma object_of_contents_listed content w o w' :
  R2.object_of_contents rt config content w = (Effect.Success o, w') ->
  match o with Some object => listed config object | None => True end.
Proof.
  unfold R2.object_of_contents.
  destruct (getTag "Key" content) as [k|] eqn:Hkey;
    [| unfold Effect.succeed; intros H; now inversion H].
  destruct (Str.is_empty k) eqn:Hempty;
    [unfold Effect.succeed; intros H; now inversion H |].
  intros H. apply EffectFacts.flatMap_inv in H.
  destruct H as (lm & w1 & _ & H).
  unfold Effect.succeed in H. inversion H; subst o; clear H.
  apply ScanFacts.getTag_spec in Hkey. destruct Hkey as [Hk _].
  unfold listed.
  cbn [R2Object.key R2Object.etag R2Object.url R2Object.httpMetadata
       R2Object.customMetadata].
  split; [now destruct k |]. split; [exact Hk |].
  split; [| split; [| repeat split]].
  - destruct (getTag "ETag" content); [apply ScanFacts.filter_no_quote |].
    reflexivity.
  - destruct (getTag "ETag" content) as [e|] eqn:Hetag; [| reflexivity].
    apply ScanFacts.getTag_spec in Hetag. destruct Hetag as [He _].
    clear - He. induction e as [|c e IH]; [reflexivity |].
    cbn [Str.forallb] in He. apply andb_true_iff in He. destruct He as [Hc He].
    cbn [Str.filter]. destruct (negb (Chr.has_code 34 c)); [| now apply IH].
    cbn [Str.forallb]. now rewrite Hc, IH.
Qed.

Lemma getContents_listed text w objects w' :
  R2.getContents rt config text w = (Effect.Success objects, w') ->
  Forall (listed config) objects.
Proof.
  unfold R2.getContents, Effect.map. intros H.
  apply EffectFacts.flatMap_inv in H. destruct H as (os & w1 & Hos & H).
  unfold Effect.succeed in H. inversion H; subst; clear H.
  pose proof (ScanFacts.forEach_Forall (R2.object_of_contents rt config)
                (fun o => match o with
                          | Some object => listed config object
                          | None => True
                          end)
                object_of_contents_listed _ _ _ _ Hos) as Hall.
  clear Hos. induction Hall as [|o os Ho _ IH]; [constructor |].
  cbn [List.flat_map]. destruct o as [object|]; [| exact IH].
  cbn [app]. now constructor.
Qed.

Lemma list_page (options : R2ListOptions.t) (w w' : Effect.World)
  (page : R2ListResult.t) :
  R2.list rt config httpClient options w = (Effect.Success page, w') ->
  exists xml w1,
    R2.getContents rt config xml w1
    = (Effect.Success (R2ListResult.objects page), w')
    /\ R2ListResult.truncated page
       = match getTag "IsTruncated" xml with
         | Some t => String.eqb t "true"
         | None => false
         end
    /\ R2ListResult.cursor page = getTag "NextContinuationToken" xml
    /\ R2ListResult.delimitedPrefixes page = R2.delimited_prefixes xml.
Proof.
  unfold R2.list. intros H.
  apply EffectFacts.flatMap_inv in H. destruct H as (signed & w1 & _ & H).
  apply EffectFacts.flatMap_inv in H. destruct H as (response & w2 & _ & H).
  destruct (R2.outside_2xx (Http.status response)).
  - now apply fail_after_text in H.
  - apply EffectFacts.flatMap_inv in H. destruct H as (xml & w3 & _ & H).
    apply EffectFacts.flatMap_inv in H. destruct H as (objects & w4 & Hobj & H).
    unfold Effect.succeed in H. inversion H; subst; clear H.
    exists xml, w3. repeat split. exact Hobj.
Qed.

(** X15.  Every object of a listing has a key that is not empty and holds
    no [<], an ETag without any double quote, the public URL of its key,
    and neither HTTP metadata nor custom metadata, whatever the response
    said about them. *)
Theorem list_objects_shape (options : R2ListOptions.t) (w w' : Effect.World)
  (page : R2ListResult.t) :
  R2.list rt config httpClient options w = (Effect.Success page, w') ->
  Forall (listed config) (R2ListResult.objects page).
Proof.
  intros H. destruct (list_page _ _ _ _ H) as (xml & w1 & Hobjects & _).
  exact (getContents_listed _ _ _ _ Hobjects).
Qed.

(** X16.  A listing never returns an empty common prefix, nor a common
    prefix or a cursor that holds a [<]. *)
Theorem list_prefixes_and_cursor_shape
  (options : R2ListOptions.t) (w w' : Effect.World) (page : R2ListResult.t) :
  R2.list rt config httpClient options w = (Effect.Success page, w') ->
  Forall (fun p => p <> EmptyString /\ Str.forallb Charset.no_angle p = true)
    (R2ListResult.delimitedPrefixes page)
  /\ (forall c, R2ListResult.cursor page = Some c ->
                Str.forallb Charset.no_angle c = true).
Proof.
  intros H.
  destruct (list_page _ _ _ _ H) as (xml & w1 & _ & _ & Hcursor & Hprefixes).
  split.
  - rewrite Hprefixes. unfold R2.delimited_prefixes. apply Forall_forall.
    intros p Hp. apply filter_In in Hp. destruct Hp as [Hp _].
    apply ScanFacts.getAllTags_from_spec in Hp.
    destruct Hp as (Hne & Hangle & _). now split.
  - intros c Hc. rewrite Hcursor in Hc.
    now apply ScanFacts.getTag_spec in Hc.
Qed.

End ListShape.

(** ** Connection strings and the loaders of the configuration *)

Module SpaceFacts.

Import Alphabet.

Lemma uri_encoded_no_space c :
  uri_encoded c = true -> Charset.no_space c = true.
Proof. revert c. by_enumeration. Qed.

Lemma plain_no_space c : plain c = true -> Charset.no_space c = true.
Proof. revert c. by_enumeration. Qed.

Lemma form_encoded_no_space c :
  form_encoded c = true -> Charset.no_space c = true.
Proof. revert c. by_enumeration. Qed.

Lemma no_space_no_newline c :
  Charset.no_space c = true -> negb (Ascii.eqb c (ascii_of_N 10)) = true.
Proof. revert c. by_enumeration. Qed.

Lemma split_line (sep : ascii) (line : string) :
  Str.forallb (fun c => negb (Ascii.eqb c sep)) line = true ->
  Str.split sep (line ++ String sep EmptyString) = [line; EmptyString].
Proof.
  induction line as [|c line IH]; cbn [append Str.split Str.forallb].
  - now rewrite Ascii.eqb_refl.
  - intros H. apply andb_true_iff in H. destruct H as [Hc Hline].
    apply negb_true_iff in Hc. now rewrite Hc, (IH Hline).
Qed.

Lemma connection_string_no_space (d : R2Config.t) :
  well_formed (R2Config.accountId d) ->
  well_formed (R2Config.bucket d) ->
  Str.forallb Charset.no_space (connection_string d) = true.
Proof.
  intros [_ Hacct] [_ Hb]. unfold connection_string.
  rewrite !StrFacts.forallb_app.
  rewrite (StrFacts.forallb_impl _ _ _ uri_encoded_no_space
             (EncodingFacts.encodeURIComponent_alphabet _)).
  rewrite (StrFacts.forallb_impl _ _ _ uri_encoded_no_space
             (EncodingFacts.encodeURIComponent_alphabet _)).
  rewrite (StrFacts.forallb_impl _ _ _ plain_no_space Hacct).
  rewrite (StrFacts.forallb_impl _ _ _ plain_no_space Hb).
  destruct (R2Config.publicUrl d) as [p|]; [| reflexivity].
  cbn [public_query query_text].
  change ("?" ++ "publicUrl=" ++ Whatwg.form_encode p)
    with ("?publicUrl=" ++ Whatwg.form_encode p).
  rewrite StrFacts.forallb_app.
  rewrite (StrFacts.forallb_impl _ _ _ form_encoded_no_space
             (EncodingFacts.form_encode_alphabet p)).
  reflexivity.
Qed.

End SpaceFacts.

Section ConfigFacts.

Import Alphabet.

Variable rt : Runtime.

Lemma parseR2Url_connection_string (d : R2Config.t) :
  R2Config.accessKeyId d <> EmptyString ->
  R2Config.secretAccessKey d <> EmptyString ->
  well_formed (R2Config.accountId d) ->
  well_formed (R2Config.bucket d) ->
  parseR2Url rt (connection_string d) = Returned d.
Proof.
  intros Hak Hsk Hacct Hb.
  unfold parseR2Url. rewrite (new_URL_connection_string rt d Hacct Hb).
  change (negb (String.eqb (Whatwg.protocol _) "r2:")) with false. cbv iota.
  cbn [Whatwg.username Whatwg.password].
  rewrite !EncodingFacts.decodeURIComponent_encodeURIComponent.
  rewrite (searchParams_public_query _ (R2Config.publicUrl d)) by reflexivity.
  unfold Whatwg.hostname, Whatwg.pathname.
  cbn [Whatwg.host Whatwg.path List.map String.concat append Str.drop].
  rewrite (StrFacts.is_empty_false _ Hak), (StrFacts.is_empty_false _ Hsk),
    (StrFacts.is_empty_false _ (proj1 Hacct)),
    (StrFacts.is_empty_false _ (proj1 Hb)).
  cbn [orb]. now destruct d.
Qed.

Lemma scan_saved_line (s : string) :
  Str.forallb Charset.no_space s = true ->
  Config.scan_lines rt
    (Str.split (ascii_of_N 10) ("R2_URL=" ++ s ++ newline))
  = Config.parse_or_null rt s.
Proof.
  intros Hs.
  assert (Hline : Str.forallb Charset.no_space ("R2_URL=" ++ s) = true).
  { rewrite StrFacts.forallb_app, Hs. reflexivity. }
  replace ("R2_URL=" ++ s ++ newline) with (("R2_URL=" ++ s) ++ newline)
    by (now rewrite StrFacts.append_assoc).
  unfold newline. rewrite SpaceFacts.split_line
    by (revert Hline;
        apply StrFacts.forallb_impl, SpaceFacts.no_space_no_newline).
  cbn [Config.scan_lines]. rewrite (StrMore.trim_id _ Hline).
  unfold Str.starts_with. rewrite ParserFacts.prefix_app.
  change (Str.drop 7 ("R2_URL=" ++ s)) with s.
  now rewrite (StrMore.trim_id _ Hs).
Qed.

(** X17.  What [init] saves, [loadR2Config] loads: for a descriptor whose
    four required fields are not empty, whose account id and bucket are
    made of letters, digits, hyphens and underscores and whose public URL
    is absent or not empty, the file that [saveGlobalConfig] writes for the
    string of [toR2Url] is read back as the same descriptor, when the
    environment sets neither [R2_URL] nor the four variables. *)
Theorem loadR2Config_saveGlobalConfig (d : R2Config.t) (env : Config.Env) :
  R2Config.accessKeyId d <> EmptyString ->
  R2Config.secretAccessKey d <> EmptyString ->
  well_formed (R2Config.accountId d) ->
  well_formed (R2Config.bucket d) ->
  R2Config.publicUrl d <> Some EmptyString ->
  JS.truthy (Config.R2_URL env) = false ->
  Config.from_variables env = None ->
  exists s,
    toR2Url rt d = Returned s
    /\ Config.loadR2Config rt env (Config.saveGlobalConfig s) = Some d.
Proof.
  intros Hak Hsk Hacct Hb Hpu Hurl Hvars.
  exists (connection_string d).
  split; [now apply toR2Url_string |].
  unfold Config.loadR2Config, Config.saveGlobalConfig.
  rewrite Hurl, Hvars.
  rewrite scan_saved_line
    by (now apply SpaceFacts.connection_string_no_space).
  unfold Config.parse_or_null.
  now rewrite parseR2Url_connection_string.
Qed.

(** X18.  The two loaders agree on the environment: [R2FromEnv] succeeds
    with a configuration exactly when [loadR2Config] returns it without a
    config file, and then [loadR2Config] returns it whatever the file holds;
    [R2FromEnv] never dies and leaves the world as it was. *)
Theorem R2FromEnv_agrees_with_loadR2Config
  (env : Config.Env) (file : Config.File) (c : R2Config.t)
  (w : Effect.World) :
  (fst (Config.R2FromEnv rt env w) = Effect.Success c
   <-> Config.loadR2Config rt env None = Some c)
  /\ (fst (Config.R2FromEnv rt env w) = Effect.Success c ->
      Config.loadR2Config rt env file = Some c)
  /\ (forall defect, fst (Config.R2FromEnv rt env w) <> Effect.Die defect)
  /\ snd (Config.R2FromEnv rt env w) = w.
Proof.
  unfold Config.R2FromEnv, Config.loadR2Config, Config.parse_or_null.
  destruct (JS.truthy (Config.R2_URL env)).
  - destruct (parseR2Url rt (Config.value (Config.R2_URL env))) as [c'|e];
      cbn [fst snd Effect.succeed Effect.fail];
      repeat split; try discriminate; intros H; inversion H; reflexivity.
  - destruct (Config.from_variables env) as [c'|];
      cbn [fst snd Effect.succeed Effect.fail];
      repeat split; try discriminate; intros H; inversion H; reflexivity.
Qed.

Lemma parse_authority_user (user h : string) :
  Str.forallb uri_encoded user = true ->
  well_formed h ->
  Whatwg.parse_authority (ipv6_host rt) (user ++ "@" ++ h)
  = Some (user, EmptyString, Some h, None).
Proof.
  intros Hu Hh. destruct (ParserFacts.host_without_port (ipv6_host rt) h Hh)
    as [Hs Ho].
  destruct Hh as [Hne H].
  unfold Whatwg.parse_authority.
  rewrite ParserFacts.split_last_at_app
    by (revert H; apply StrFacts.forallb_impl, AlphabetFacts.plain_no_at).
  rewrite (StrFacts.break_none (Chr.has_code 58) user)
    by (revert Hu;
        apply StrFacts.forallb_impl, AlphabetFacts.uri_encoded_no_colon).
  cbn [Str.drop].
  rewrite (StrFacts.percent_encode_id _ user)
    by (revert Hu;
        apply StrFacts.forallb_impl, AlphabetFacts.uri_encoded_userinfo).
  rewrite Hs, Ho.
  destruct h; [congruence | reflexivity].
Qed.

(** X19.  [parseR2Url] rejects a connection string that has no
    credentials, and one that has an access key but no secret, with the
    format error; given in [R2_URL], such a string makes [loadR2Config]
    return null although the four variables or the config file would give a
    configuration, and makes [R2FromEnv] fail. *)
Theorem parseR2Url_requires_credentials
  (accessKeyId accountId bucket : string) (url : string)
  (env : Config.Env) (file : Config.File) (w : Effect.World) :
  well_formed accountId ->
  well_formed bucket ->
  url = "r2://" ++ accountId ++ "/" ++ bucket
  \/ url = "r2://" ++ (JS.encodeURIComponent accessKeyId ++ "@" ++ accountId)
           ++ "/" ++ bucket ->
  Config.R2_URL env = Some url ->
  parseR2Url rt url = Thrown format_error
  /\ Config.loadR2Config rt env file = None
  /\ Config.R2FromEnv rt env w
     = (Effect.Failure
          (mkR2ConfigError
             ("Invalid R2_URL: " ++ Config.exception_text format_error)),
        w).
Proof.
  intros Hacct Hb Hurl Henv.
  assert (Hparse : parseR2Url rt url = Thrown format_error).
  { destruct Hurl as [-> | ->]; unfold parseR2Url.
    - rewrite (new_URL_bare rt accountId bucket Hacct Hb). reflexivity.
    - pose proof (EncodingFacts.encodeURIComponent_alphabet accessKeyId) as Hu.
      pose proof (new_URL_r2 rt
                    (JS.encodeURIComponent accessKeyId ++ "@" ++ accountId)
                    (JS.encodeURIComponent accessKeyId) EmptyString
                    accountId bucket None) as Hnew.
      cbn [query_text] in Hnew. rewrite !StrFacts.append_nil_r in Hnew.
      rewrite Hnew.
      + change (negb (String.eqb (Whatwg.protocol _) "r2:")) with false.
        cbv iota. cbn [Whatwg.username Whatwg.password].
        rewrite EncodingFacts.decodeURIComponent_encodeURIComponent.
        change (JS.decodeURIComponent EmptyString) with (Some EmptyString).
        cbv iota. cbn [Str.is_empty].
        rewrite orb_true_r. reflexivity.
      + change (?u ++ "@" ++ ?h) with (u ++ ("@" ++ h)).
        rewrite !StrFacts.forallb_app.
        rewrite (StrFacts.forallb_impl _ _ _
                   AlphabetFacts.uri_encoded_printable Hu).
        rewrite (StrFacts.forallb_impl _ _ _
                   AlphabetFacts.plain_printable (proj2 Hacct)).
        reflexivity.
      + change (?u ++ "@" ++ ?h) with (u ++ ("@" ++ h)).
        rewrite !StrFacts.forallb_app.
        rewrite (StrFacts.forallb_impl _ _ _
                   AlphabetFacts.uri_encoded_in_authority Hu).
        rewrite (StrFacts.forallb_impl _ _ _
                   AlphabetFacts.plain_in_authority (proj2 Hacct)).
        reflexivity.
      + now apply parse_authority_user.
      + exact Hb.
      + discriminate. }
  assert (Htruthy : JS.truthy (Config.R2_URL env) = true).
  { rewrite Henv. destruct Hurl as [-> | ->]; reflexivity. }
  split; [exact Hparse |].
  unfold Config.loadR2Config, Config.R2FromEnv, Config.parse_or_null.
  rewrite Htruthy, Henv. cbn [Config.value]. rewrite Hparse.
  split; reflexivity.
Qed.

End ConfigFacts.

(** ** What [put] and [putJson] send *)

Section PutFacts.

Variable rt : Runtime.
Variable config : R2Config.t.
Variable httpClient : Http.Client.

Lemma doSignRequest_hash
  (method url body : string) (extraHeaders : JS.Obj)
  (w w1 : Effect.World) (signed : SignedRequest) :
  R2.doSignRequest (E := R2Failure) rt config method url body extraHeaders w
  = (Effect.Success signed, w1) ->
  JS.obj_get (signed_headers signed) "x-amz-content-sha256"
  = Some (sha256 rt body).
Proof.
  unfold R2.doSignRequest, Effect.promise, Effect.mapError, signRequest.
  destruct (new_URL rt url) as [u|]; [| discriminate].
  unfold Effect.flatMap, Effect.new_Date, Effect.succeed.
  intros H. inversion H; subst; clear H.
  cbn [signed_headers]. unfold JS.spread. cbn [fold_left fst snd].
  rewrite !ObjFacts.get_set_other by discriminate.
  apply ObjFacts.get_set_same.
Qed.

Lemma put_request
  (key : string) (body : PutBody) (options : R2PutOptions.t)
  (object : R2Object.t) (w w' : Effect.World) :
  R2.put rt config httpClient key body options w = (Effect.Success object, w') ->
  exists request,
    Effect.sent w' = (Effect.sent w ++ [request])%list
    /\ Http.body request
       = Some (String.substring (snd (fst (R2.bodyBytes body)))
                 (snd (R2.bodyBytes body)) (fst (fst (R2.bodyBytes body))),
               match R2PutOptions.contentType options with
               | Some c => c
               | None => "application/octet-stream"
               end)
    /\ JS.obj_get (Http.headers request) "x-amz-content-sha256"
       = Some (sha256 rt (fst (fst (R2.bodyBytes body))))
    /\ JS.obj_get (Http.headers request) "content-type"
       = Some match R2PutOptions.contentType options with
              | Some c => c
              | None => "application/octet-stream"
              end
    /\ R2Object.size object = JS.Num (Z.of_nat (snd (R2.bodyBytes body)))
    /\ R2Object.httpMetadata object
       = Some (HttpMetadata.make (R2PutOptions.contentType options) None
                 (R2PutOptions.contentDisposition options) None
                 (R2PutOptions.cacheControl options)).
Proof.
  unfold R2.put. destruct (R2.bodyBytes body) as [[buffer byteOffset] byteLength].
  cbn [fst snd]. intros H.
  apply EffectFacts.flatMap_inv in H. destruct H as (signed & w1 & Hsign & H).
  pose proof (doSignRequest_hash _ _ _ _ _ _ _ Hsign) as Hhash.
  apply doSignRequest_inv in Hsign. destruct Hsign as (-> & Hurl & Hheaders).
  apply EffectFacts.flatMap_inv in H. destruct H as (response & w2 & Hsend & H).
  apply send_inv in Hsend. subst w2.
  destruct (R2.outside_2xx (Http.status response)).
  - now apply fail_after_text in H.
  - unfold Effect.flatMap, Effect.new_Date, Effect.succeed in H.
    inversion H; subst; clear H.
    eexists. split; [reflexivity |]. split; [reflexivity |].
    split; [exact Hhash |]. split; [| split; reflexivity].
    cbn [Http.headers]. rewrite Hheaders by discriminate.
    apply put_headers_content_type.
Qed.

(** X20.  [put] hashes the whole buffer that underlies its body, and sends
    the bytes of the view: for a [Uint8Array] that is a view of [byteLength]
    bytes at [byteOffset] of a buffer, the request carries the digest of the
    buffer under [x-amz-content-sha256] and the bytes of the view as its
    body, and the descriptor has the length of the view as its size. *)
Theorem put_hashes_underlying_buffer
  (key : string) (buffer : string) (byteOffset byteLength : nat)
  (options : R2PutOptions.t) (object : R2Object.t) (w w' : Effect.World) :
  R2.put rt config httpClient key
    (BodyUint8Array buffer byteOffset byteLength) options w
  = (Effect.Success object, w') ->
  exists request contentType,
    Effect.sent w' = (Effect.sent w ++ [request])%list
    /\ Http.body request
       = Some (String.substring byteOffset byteLength buffer, contentType)
    /\ JS.obj_get (Http.headers request) "x-amz-content-sha256"
       = Some (sha256 rt buffer)
    /\ R2Object.size object = JS.Num (Z.of_nat byteLength).
Proof.
  intros H. apply put_request in H.
  destruct H as (request & Hsent & Hbody & Hhash & _ & Hsize & _).
  exists request. eexists. repeat split; eassumption.
Qed.

Variable Data : Type.
Variable JSON_stringify : Data -> Exc (option string).

(** X21.  [putJson] sends the text of [JSON.stringify] under the content
    type of the options, or [application/json] when the options give none,
    and the descriptor records that content type; a value that
    [JSON.stringify] turns into [undefined] is stored as an object of no
    bytes. *)
Theorem putJson_content_type
  (key : string) (data : Data) (options : R2PutOptions.t)
  (text : option string) (effect : Effect.t R2Failure R2Object.t)
  (object : R2Object.t) (w w' : Effect.World) :
  JSON_stringify data = Returned text ->
  putJson rt config httpClient Data JSON_stringify key data options
  = Returned effect ->
  effect w = (Effect.Success object, w') ->
  exists request,
    Effect.sent w' = (Effect.sent w ++ [request])%list
    /\ Http.body request
       = Some (Config.value text,
               match R2PutOptions.contentType options with
               | Some c => c
               | None => "application/json"
               end)
    /\ JS.obj_get (Http.headers request) "content-type"
       = Some match R2PutOptions.contentType options with
              | Some c => c
              | None => "application/json"
              end
    /\ R2Object.size object
       = JS.Num (Z.of_nat (String.length (Config.value text)))
    /\ R2Object.httpMetadata object
       = Some (HttpMetadata.make
                 (Some match R2PutOptions.contentType options with
                       | Some c => c
                       | None => "application/json"
                       end)
                 None (R2PutOptions.contentDisposition options) None
                 (R2PutOptions.cacheControl options)).
Proof.
  intros Htext Hput Heffect. unfold putJson in Hput. rewrite Htext in Hput.
  injection Hput as <-. apply put_request in Heffect.
  destruct Heffect as (request & Hsent & Hbody & _ & Htype & Hsize & Hmeta).
  exists request. split; [exact Hsent |].
  assert (Hwhole : forall s, String.substring 0 (String.length s) s = s).
  { induction s as [|c s IH]; [reflexivity |].
    cbn [String.length String.substring]. now rewrite IH. }
  cbn [R2PutOptions.contentType R2PutOptions.contentDisposition
       R2PutOptions.cacheControl] in Hbody, Htype, Hmeta.
  destruct text as [s|]; cbn [R2.bodyBytes fst snd Config.value] in *;
    rewrite ?Hwhole in Hbody;
    destruct (R2PutOptions.contentType options);
    repeat split; assumption.
Qed.

End PutFacts.

(** ** Where the loop of [listAll] ends *)

Section FollowFacts.

Variable rt : Runtime.
Variable config : R2Config.t.
Variable httpClient : Http.Client.

Lemma listAll_loop_followed prefix cursor w pages cursor' w1 :
  followed rt config httpClient prefix cursor w pages cursor' w1 ->
  forall fuel allObjects,
    R2.listAll_loop rt config httpClient (List.length pages + fuel) prefix
      cursor allObjects w
    = R2.listAll_loop rt config httpClient fuel prefix cursor'
        (allObjects ++ List.flat_map R2ListResult.objects pages)%list w1.
Proof.
  induction 1 as [cursor w
                 |cursor w page w1 c pages cursor' w' Hlist Htrunc Hcursor Hc
                    Hrest IH];
    intros fuel allObjects.
  - cbn [List.length List.flat_map Nat.add]. now rewrite app_nil_r.
  - cbn [List.length Nat.add R2.listAll_loop].
    rewrite (EffectFacts.flatMap_success _ _ _ _ _ Hlist).
    unfold R2.next_cursor. rewrite Htrunc, Hcursor. cbn [JS.truthy].
    rewrite (StrFacts.is_empty_false _ Hc). cbn [negb].
    rewrite IH. cbn [List.flat_map]. now rewrite app_assoc.
Qed.

(** X22.  [listAll] ends at the first page that carries no cursor, also
    when that page says that it is truncated: after any number of truncated
    pages with cursors, a page whose cursor is absent or empty is the last
    one requested, and the result is the objects of the pages up to it, as
    if the listing were complete. *)
Theorem listAll_ends_without_cursor
  (prefix : option string) (w w1 w' : Effect.World)
  (pages : list R2ListResult.t) (cursor : option string)
  (page : R2ListResult.t) (fuel : nat) :
  followed rt config httpClient prefix None w pages cursor w1 ->
  R2.list rt config httpClient
    (R2ListOptions.make prefix None cursor (Some 1000%Z)) w1
  = (Effect.Success page, w') ->
  JS.truthy (R2ListResult.cursor page) = false ->
  List.length pages < fuel ->
  R2.listAll rt config httpClient fuel prefix w
  = (Effect.Success
       (Some (List.flat_map R2ListResult.objects (pages ++ [page])%list)),
     w').
Proof.
  intros Hpages Hlist Hcursor Hfuel. unfold R2.listAll.
  replace fuel with (List.length pages + S (fuel - S (List.length pages)))
    by lia.
  rewrite (listAll_loop_followed _ _ _ _ _ _ Hpages).
  cbn [R2.listAll_loop app].
  rewrite (EffectFacts.flatMap_success _ _ _ _ _ Hlist).
  assert (Hnext : JS.truthy (R2.next_cursor page) = false).
  { unfold R2.next_cursor.
    destruct (R2ListResult.truncated page); [exact Hcursor | reflexivity]. }
  rewrite Hnext. unfold Effect.succeed.
  rewrite flat_map_app. cbn [List.flat_map]. now rewrite app_nil_r.
Qed.

(** X23.  A failure of [list] on any page is the failure of [listAll]: the
    objects of the pages fetched before it are not returned. *)
Theorem listAll_fails_with_page
  (prefix : option string) (w w1 w' : Effect.World)
  (pages : list R2ListResult.t) (cursor : option string)
  (failure : R2Failure) (fuel : nat) :
  followed rt config httpClient prefix None w pages cursor w1 ->
  R2.list rt config httpClient
    (R2ListOptions.make prefix None cursor (Some 1000%Z)) w1
  = (Effect.Failure failure, w') ->
  List.length pages < fuel ->
  R2.listAll rt config httpClient fuel prefix w = (Effect.Failure failure, w').
Proof.
  intros Hpages Hlist Hfuel. unfold R2.listAll.
  replace fuel with (List.length pages + S (fuel - S (List.length pages)))
    by lia.
  rewrite (listAll_loop_followed _ _ _ _ _ _ Hpages).
  cbn [R2.listAll_loop]. unfold Effect.flatMap. now rewrite Hlist.
Qed.

Lemma list_answer
  (options : R2ListOptions.t) (response : Http.Response) (xml : string)
  (w : Effect.World) :
  new_URL rt (R2.list_url config options) <> None ->
  answers_with httpClient response ->
  (200 <= Http.status response < 300)%Z ->
  Http.text response = Ok xml ->
  exists page w',
    R2.list rt config httpClient options w = (Effect.Success page, w')
    /\ R2ListResult.truncated page
       = match getTag "IsTruncated" xml with
         | Some t => String.eqb t "true"
         | None => false
         end
    /\ R2ListResult.cursor page = getTag "NextContinuationToken" xml
    /\ exists w1,
         R2.getContents rt config xml w1
         = (Effect.Success (R2ListResult.objects page), w').
Proof.
  intros Hurl Hanswers Hstatus Hxml. unfold R2.list.
  destruct (exchange rt config httpClient "list" "GET"
              (R2.list_url config options) EmptyString [] None response w
              Hurl Hanswers) as (signed & Hsign & Hsend & _).
  rewrite (EffectFacts.flatMap_success _ _ _ _ _ Hsign).
  rewrite (EffectFacts.flatMap_success _ _ _ _ _ Hsend).
  rewrite (inside_2xx _ Hstatus).
  assert (Htext : forall w0,
             Effect.mapError (fun e => R2Error "list" e None)
               (Effect.of_attempt (Http.text response)) w0
             = (Effect.Success xml, w0)).
  { intros w0. unfold Effect.mapError, Effect.of_attempt. now rewrite Hxml. }
  rewrite (EffectFacts.flatMap_success _ _ _ _ _ (Htext _)).
  destruct (getContents_succeeds rt config xml
              (Effect.log (Effect.tick w)
                 (Http.mkRequest "GET" (signed_url signed)
                    (signed_headers signed) None)))
    as (objects & w' & Hobjects).
  rewrite (EffectFacts.flatMap_success _ _ _ _ _ Hobjects).
  eexists. eexists. split; [reflexivity |]. split; [reflexivity |].
  split; [reflexivity |]. eexists. exact Hobjects.
Qed.

(** X24.  [listAll] has no guard against a cursor that comes back: against
    a server that answers every request with the same truncated page and
    cursor, the loop is still running after any number of pages. *)
Theorem listAll_follows_repeated_cursor
  (prefix : option string) (response : Http.Response) (xml c : string)
  (w : Effect.World) (fuel : nat) :
  answers_with httpClient response ->
  (200 <= Http.status response < 300)%Z ->
  Http.text response = Ok xml ->
  getTag "IsTruncated" xml = Some "true" ->
  getTag "NextContinuationToken" xml = Some c ->
  c <> EmptyString ->
  new_URL rt
    (R2.list_url config (R2ListOptions.make prefix None None (Some 1000%Z)))
  <> None ->
  new_URL rt
    (R2.list_url config
       (R2ListOptions.make prefix None (Some c) (Some 1000%Z)))
  <> None ->
  fst (R2.listAll rt config httpClient fuel prefix w) = Effect.Success None.
Proof.
  intros Hanswers Hstatus Hxml Htrunc Hcursor Hc Hfirst Hnext.
  assert (Hurl : forall cursor,
             cursor = None \/ cursor = Some c ->
             new_URL rt
               (R2.list_url config
                  (R2ListOptions.make prefix None cursor (Some 1000%Z)))
             <> None).
  { intros cursor [-> | ->]; assumption. }
  assert (Hloop : forall n cursor allObjects w0,
             cursor = None \/ cursor = Some c ->
             fst (R2.listAll_loop rt config httpClient n prefix cursor
                    allObjects w0)
             = Effect.Success None).
  { induction n as [|n IH]; intros cursor allObjects w0 Hcur; [reflexivity |].
    cbn [R2.listAll_loop].
    destruct (list_answer
                (R2ListOptions.make prefix None cursor (Some 1000%Z))
                response xml w0 (Hurl _ Hcur) Hanswers Hstatus Hxml)
      as (page & w' & Hlist & Htruncated & Hpage & _).
    rewrite (EffectFacts.flatMap_success _ _ _ _ _ Hlist).
    unfold R2.next_cursor. rewrite Htruncated, Htrunc, Hpage, Hcursor.
    change ("true" =? "true")%string with true. cbv iota.
    cbn [JS.truthy]. rewrite (StrFacts.is_empty_false _ Hc). cbn [negb].
    apply IH. now right. }
  unfold R2.listAll. apply Hloop. now left.
Qed.

End FollowFacts.

(** ** Reading a response made of blocks *)

Module ScanMore.

Lemma clash_prefix (p s r : string) :
  Scan.clash p s = true -> String.prefix p (s ++ r) = false.
Proof.
  revert s. induction p as [|a p IH]; intros s; [discriminate |].
  destruct s as [|b s]; [discriminate |].
  cbn [Scan.clash append String.prefix].
  destruct (ascii_dec a b) as [<- | Hab].
  - rewrite Ascii.eqb_refl. apply IH.
  - reflexivity.
Qed.

Lemma angle_eqb c :
  Charset.no_angle c = true -> negb (Ascii.eqb "<" c) = true.
Proof. revert c. by_enumeration. Qed.

Lemma no_angle_misses (p a : string) :
  Str.forallb Charset.no_angle a = true ->
  Scan.misses (String "<" p) a = true.
Proof.
  induction a as [|c a IH]; [reflexivity |].
  cbn [Str.forallb Scan.misses Scan.clash]. intros H.
  apply andb_true_iff in H. destruct H as [Hc Ha].
  apply angle_eqb, negb_true_iff in Hc. rewrite Hc. now apply IH.
Qed.

Lemma match_tag_here_miss (tag text : string) :
  String.prefix ("<" ++ tag ++ ">") text = false ->
  match_tag_here tag text = None.
Proof. intros H. unfold match_tag_here. now rewrite H. Qed.

Lemma getTag_unfold (tag text : string) :
  getTag tag text
  = match match_tag_here tag text with
    | Some (captured, _) => Some captured
    | None =>
        match text with
        | EmptyString => None
        | String _ r => getTag tag r
        end
    end.
Proof. destruct text; reflexivity. Qed.

Lemma getTag_skip_lit (tag lit r : string) :
  Scan.misses ("<" ++ tag ++ ">") lit = true ->
  getTag tag (lit ++ r) = getTag tag r.
Proof.
  induction lit as [|c lit IH]; [reflexivity |].
  cbn [Scan.misses]. intros H. apply andb_true_iff in H.
  destruct H as [Hc Hlit].
  rewrite getTag_unfold.
  rewrite (match_tag_here_miss _ _ (clash_prefix _ _ r Hc)).
  cbn [append]. now apply IH.
Qed.

Lemma getTag_skip (tag a r : string) :
  Str.forallb Charset.no_angle a = true ->
  getTag tag (a ++ r) = getTag tag r.
Proof.
  intros Ha. apply getTag_skip_lit.
  exact (no_angle_misses (tag ++ ">") a Ha).
Qed.

Lemma match_tag_here_hit (tag v rest : string) :
  Str.forallb Charset.no_angle v = true ->
  match_tag_here tag
    (("<" ++ tag ++ ">") ++ v ++ ("</" ++ tag ++ ">") ++ rest)
  = Some (v, rest).
Proof.
  intros Hv. unfold match_tag_here.
  rewrite ParserFacts.prefix_app, StrMore.drop_app.
  change (("</" ++ tag ++ ">") ++ rest)
    with (String "<"%char (("/" ++ tag ++ ">") ++ rest)).
  rewrite (StrFacts.break_app (Chr.has_code 60) v) by (exact Hv || reflexivity).
  change (String "<"%char (("/" ++ tag ++ ">") ++ rest))
    with (("</" ++ tag ++ ">") ++ rest).
  now rewrite ParserFacts.prefix_app, StrMore.drop_app.
Qed.

Lemma getTag_hit (tag opening closing v rest : string) :
  opening = "<" ++ tag ++ ">" ->
  closing = "</" ++ tag ++ ">" ->
  Str.forallb Charset.no_angle v = true ->
  getTag tag (opening ++ v ++ closing ++ rest) = Some v.
Proof.
  intros -> -> Hv. rewrite getTag_unfold.
  now rewrite (match_tag_here_hit tag v rest Hv).
Qed.

Lemma cut_unfold (needle hay : string) :
  Str.cut needle hay
  = if String.prefix needle hay
    then Some (EmptyString, Str.drop (String.length needle) hay)
    else match hay with
         | EmptyString => None
         | String c r =>
             match Str.cut needle r with
             | Some (a, b) => Some (String c a, b)
             | None => None
             end
         end.
Proof. destruct hay; reflexivity. Qed.

Lemma cut_skip_lit (needle lit r : string) :
  Scan.misses needle lit = true ->
  Str.cut needle (lit ++ r)
  = match Str.cut needle r with
    | Some (a, b) => Some (lit ++ a, b)
    | None => None
    end.
Proof.
  induction lit as [|c lit IH].
  - intros _. cbn [append]. now destruct (Str.cut needle r) as [[a b]|].
  - cbn [Scan.misses]. intros H. apply andb_true_iff in H.
    destruct H as [Hc Hlit].
    rewrite cut_unfold, (clash_prefix _ _ r Hc). cbn [append].
    rewrite (IH Hlit). now destruct (Str.cut needle r) as [[a b]|].
Qed.

Lemma cut_here (needle rest : string) :
  Str.cut needle (needle ++ rest) = Some (EmptyString, rest).
Proof.
  now rewrite cut_unfold, ParserFacts.prefix_app, StrMore.drop_app.
Qed.

Lemma contents_from_cons (c : ascii) (r : string) :
  contents_from 0 (String c r)
  = match match_contents_here (String c r) with
    | Some (content, rest) =>
        content
        :: contents_from
             (String.length (String c r) - String.length rest - 1) r
    | None => contents_from 0 r
    end.
Proof. reflexivity. Qed.

Lemma contents_from_skip_lit (lit r : string) :
  Scan.misses "<Contents>" lit = true ->
  contents_from 0 (lit ++ r) = contents_from 0 r.
Proof.
  induction lit as [|c lit IH]; [reflexivity |].
  cbn [Scan.misses]. intros H. apply andb_true_iff in H.
  destruct H as [Hc Hlit].
  cbn [append]. rewrite contents_from_cons. unfold match_contents_here.
  change (String c (lit ++ r)) with (String c lit ++ r).
  rewrite (clash_prefix _ _ r Hc). cbn [append]. now apply IH.
Qed.

Lemma contents_from_pass (a rest : string) :
  contents_from (String.length a) (a ++ rest) = contents_from 0 rest.
Proof.
  induction a as [|c a IH]; [reflexivity |].
  cbn [String.length append contents_from]. exact IH.
Qed.

Lemma contents_from_block (body rest : string) :
  Str.cut "</Contents>" (body ++ "</Contents>" ++ rest) = Some (body, rest) ->
  contents_from 0 ("<Contents>" ++ body ++ "</Contents>" ++ rest)
  = body :: contents_from 0 rest.
Proof.
  intros Hcut.
  change ("<Contents>" ++ body ++ "</Contents>" ++ rest)
    with (String "<"%char ("Contents>" ++ body ++ "</Contents>" ++ rest)).
  rewrite contents_from_cons. unfold match_contents_here.
  change (String "<"%char ("Contents>" ++ body ++ "</Contents>" ++ rest))
    with ("<Contents>" ++ body ++ "</Contents>" ++ rest).
  rewrite ParserFacts.prefix_app.
  change 10 with (String.length "<Contents>").
  rewrite StrMore.drop_app, Hcut. f_equal.
  replace ("Contents>" ++ body ++ "</Contents>" ++ rest)
    with (("Contents>" ++ body ++ "</Contents>") ++ rest)
    by (now rewrite !StrFacts.append_assoc).
  replace (String.length ("<Contents>" ++ body ++ "</Contents>" ++ rest)
           - String.length rest - 1)
    with (String.length ("Contents>" ++ body ++ "</Contents>")).
  - apply contents_from_pass.
  - rewrite !StrMore.length_app. cbn [String.length]. lia.
Qed.

End ScanMore.

Section BlockFacts.

Variable rt : Runtime.
Variable config : R2Config.t.
Variable httpClient : Http.Client.

Ltac skip_tags :=
  repeat first [ rewrite ScanMore.getTag_skip_lit by reflexivity
               | rewrite ScanMore.getTag_skip by assumption ].

Lemma fields_tags (e : Listing.Entry) :
  Listing.clean e ->
  getTag "Key" (Listing.fields e) = Some (Listing.key e)
  /\ getTag "LastModified" (Listing.fields e) = Some (Listing.lastModified e)
  /\ getTag "ETag" (Listing.fields e) = Some (Listing.etag e)
  /\ getTag "Size" (Listing.fields e) = Some (Listing.size e).
Proof.
  intros (_ & _ & Hkey & Hdate & Hetag & Hsize). unfold Listing.fields.
  split; [| split; [| split]].
  - now apply (ScanMore.getTag_hit "Key" "<Key>" "</Key>").
  - skip_tags.
    now apply (ScanMore.getTag_hit "LastModified" "<LastModified>"
                 "</LastModified>").
  - skip_tags. now apply (ScanMore.getTag_hit "ETag" "<ETag>" "</ETag>").
  - skip_tags.
    replace (Listing.size e ++ "</Size>")
      with (Listing.size e ++ "</Size>" ++ EmptyString) by reflexivity.
    now apply (ScanMore.getTag_hit "Size" "<Size>" "</Size>").
Qed.

Lemma cut_fields (e : Listing.Entry) (rest : string) :
  Listing.clean e ->
  Str.cut "</Contents>" (Listing.fields e ++ "</Contents>" ++ rest)
  = Some (Listing.fields e, rest).
Proof.
  intros (_ & _ & Hkey & Hdate & Hetag & Hsize). unfold Listing.fields.
  rewrite !StrFacts.append_assoc.
  repeat first
    [ rewrite ScanMore.cut_skip_lit by reflexivity
    | rewrite ScanMore.cut_skip_lit
        by (apply ScanMore.no_angle_misses; assumption) ].
  rewrite ScanMore.cut_here. now rewrite StrFacts.append_nil_r.
Qed.

Lemma contents_from_blocks (entries : list Listing.Entry) (tail : string) :
  Forall Listing.clean entries ->
  contents_from 0 (Listing.blocks entries ++ tail)
  = (List.map Listing.fields entries ++ contents_from 0 tail)%list.
Proof.
  induction 1 as [|e entries He _ IH]; [reflexivity |].
  cbn [Listing.blocks List.map app]. unfold Listing.block.
  rewrite !StrFacts.append_assoc.
  rewrite (ScanMore.contents_from_block _ _ (cut_fields e _ He)).
  now rewrite IH.
Qed.

Lemma contents_from_render (entries : list Listing.Entry) :
  Forall Listing.clean entries ->
  contents_from 0 (Listing.render entries) = List.map Listing.fields entries.
Proof.
  intros H. unfold Listing.render.
  rewrite ScanMore.contents_from_skip_lit by reflexivity.
  rewrite (contents_from_blocks _ _ H).
  change (contents_from 0 "</ListBucketResult>") with (@nil string).
  apply app_nil_r.
Qed.

Lemma object_of_fields (e : Listing.Entry) (w : Effect.World) :
  Listing.clean e ->
  R2.object_of_contents rt config (Listing.fields e) w
  = (Effect.Success (Some (Listing.object_of rt config e)), w).
Proof.
  intros He. destruct (fields_tags e He) as (Hk & Hd & Ht & Hs).
  destruct He as (Hkey & Hdate & _).
  unfold R2.object_of_contents. rewrite Hk, Hd, Ht, Hs.
  rewrite (StrFacts.is_empty_false _ Hkey). cbn [JS.truthy].
  rewrite (StrFacts.is_empty_false _ Hdate). cbn [negb].
  unfold Effect.flatMap, Effect.succeed, Listing.object_of.
  now destruct (Listing.size e).
Qed.

Lemma getContents_render (entries : list Listing.Entry) (w : Effect.World) :
  Forall Listing.clean entries ->
  R2.getContents rt config (Listing.render entries) w
  = (Effect.Success (List.map (Listing.object_of rt config) entries), w).
Proof.
  intros H. unfold R2.getContents. rewrite (contents_from_render _ H).
  assert (Heach : Effect.forEach (R2.object_of_contents rt config)
                    (List.map Listing.fields entries) w
                  = (Effect.Success
                       (List.map (fun e => Some (Listing.object_of rt config e))
                          entries), w)).
  { induction H as [|e entries He _ IH]; [reflexivity |].
    cbn [List.map Effect.forEach].
    rewrite (EffectFacts.flatMap_success _ _ _ _ _ (object_of_fields e w He)).
    now rewrite (EffectFacts.flatMap_success _ _ _ _ _ IH). }
  unfold Effect.map.
  rewrite (EffectFacts.flatMap_success _ _ _ _ _ Heach).
  unfold Effect.succeed. f_equal. f_equal.
  clear. induction entries as [|e entries IH]; [reflexivity |].
  cbn [List.map List.flat_map app]. now rewrite IH.
Qed.

(** X25.  [list] reads a response made of blocks back, block for block:
    when the response holds one [<Contents>] block for each entry, with a
    key, a date, an ETag and a size written without any [<], the objects of
    the page are those of the entries, in their order: the key as it is
    written, the size that [parseInt] reads (0 when the element is empty),
    the ETag without its double quotes, the date that [Date] reads and the
    public URL of the key. *)
Theorem list_reads_blocks
  (entries : list Listing.Entry) (options : R2ListOptions.t)
  (response : Http.Response) (w : Effect.World) :
  new_URL rt (R2.list_url config options) <> None ->
  answers_with httpClient response ->
  (200 <= Http.status response < 300)%Z ->
  Http.text response = Ok (Listing.render entries) ->
  Forall Listing.clean entries ->
  exists page,
    fst (R2.list rt config httpClient options w) = Effect.Success page
    /\ R2ListResult.objects page
       = List.map (Listing.object_of rt config) entries.
Proof.
  intros Hurl Hanswers Hstatus Htext Hclean.
  destruct (list_answer rt config httpClient options response _ w
              Hurl Hanswers Hstatus Htext)
    as (page & w' & Hlist & _ & _ & w1 & Hobjects).
  exists page. rewrite Hlist. split; [reflexivity |].
  rewrite (getContents_render entries w1 Hclean) in Hobjects.
  now inversion Hobjects.
Qed.

End BlockFacts.
